(** * The CQL binary protocol server of transport/server.cc

    A shallow embedding of the frame codec, the wire-type readers, the
    response writer and the per-connection request loop of
    [transport/server.cc], with the properties of the protocol layer
    stated over it.

    Conventions of the embedding.
    - A [char] of a buffer is the integer value of its byte; every place
      where the source reads a buffer through [uint8_t] applies [u8].
    - Fixed-width C++ integers are [Z] with the wrap-around of each
      conversion written out ([u16], [i16], ...).
    - [assert] is compiled in (no NDEBUG): a failed assertion and
      [abort()] end the process, outcome [Abort].
    - Reading a buffer past its end, or reading bytes that were never
      written, is outcome [Undefined]: the source performs the access
      without any check, and what the program does next is not
      determined by the source.
    - [sstring] is [basic_sstring<char, uint32_t, 15>], declared outside
      this file: building one of a size that does not fit its 32-bit
      size type throws [std::overflow_error] before any byte is copied.
    - [print] to standard output is not part of the model. *)

From Stdlib Require Import ZArith List Lia Bool String Ascii Sorted.
From stdpp Require Import base gmap list sorting.

Local Open Scope Z_scope.

(** ** Machine integers *)

Definition u8  (x : Z) : Z := x mod 2^8.
Definition u16 (x : Z) : Z := x mod 2^16.
Definition u32 (x : Z) : Z := x mod 2^32.
Definition u64 (x : Z) : Z := x mod 2^64.

(** Conversion to a signed two's complement integer of [w] bits. *)
Definition signed (w : Z) (x : Z) : Z := (x + 2^(w-1)) mod 2^w - 2^(w-1).

Definition i8  : Z -> Z := signed 8.
Definition i16 : Z -> Z := signed 16.
Definition i32 : Z -> Z := signed 32.
Definition i64 : Z -> Z := signed 64.

(** [static_cast<size_t>] on a 64-bit target. *)
Definition size_t : Z -> Z := u64.

(** [std::numeric_limits<int16_t>::max()] and its 32-bit sibling. *)
Definition int16_max : Z := 32767.
Definition int32_max : Z := 2147483647.

(** [sstring], [bytes] and [temporary_buffer<char>] are byte sequences. *)
Abbreviation sstring := (list Z).
Abbreviation temporary_buffer := (list Z).

(** A string literal of the source as an [sstring]. *)
Definition lit (s : string) : sstring :=
  map (fun c => Z.of_nat (nat_of_ascii c)) (list_ascii_of_string s).

(** ** Outcomes and the state-and-failure monad *)

Inductive exn : Type :=
| cql_frame_error
| bad_cql_protocol_version
| overflow_error.     (* std::overflow_error, from the constructor of sstring *)

Inductive outcome (A : Type) : Type :=
| Ok (a : A)          (* normal return *)
| Throw (e : exn)     (* a C++ exception leaves the function *)
| Abort               (* assert failed or abort(): the process ends *)
| Undefined.          (* unchecked access outside the bytes available *)

Arguments Ok {A} a.
Arguments Throw {A} e.
Arguments Abort {A}.
Arguments Undefined {A}.

(** A computation over a mutable state [S]; the state survives a failure,
    as the fields of a C++ object do when an exception leaves a method. *)
Definition M (S A : Type) : Type := S -> outcome A * S.

Definition ret {S A} (a : A) : M S A := fun s => (Ok a, s).

Definition bind {S A B} (m : M S A) (k : A -> M S B) : M S B :=
  fun s =>
    match m s with
    | (Ok a, s') => k a s'
    | (Throw e, s') => (Throw e, s')
    | (Abort, s') => (Abort, s')
    | (Undefined, s') => (Undefined, s')
    end.

Definition fail {S A} (o : outcome A) : M S A := fun s => (o, s).

Definition throw {S A} (e : exn) : M S A := fail (Throw e).

(** [assert(c)] *)
Definition assert {S} (c : bool) : M S unit :=
  if c then ret tt else fail Abort.

Notation "x <- m ;; k" := (bind m (fun x => k))
  (at level 100, m at next level, right associativity).
Notation "m ;; k" := (bind m (fun _ => k))
  (at level 100, right associativity).

(** ** Enumerations *)

Inductive cql_binary_opcode : Type :=
| ERROR | STARTUP | READY | AUTHENTICATE | CREDENTIALS | OPTIONS
| SUPPORTED | QUERY | RESULT | PREPARE | EXECUTE | REGISTER | EVENT
| BATCH | AUTH_CHALLENGE | AUTH_RESPONSE | AUTH_SUCCESS.

(** [static_cast<uint8_t>(_opcode)] *)
Definition opcode_code (op : cql_binary_opcode) : Z :=
  match op with
  | ERROR => 0 | STARTUP => 1 | READY => 2 | AUTHENTICATE => 3
  | CREDENTIALS => 4 | OPTIONS => 5 | SUPPORTED => 6 | QUERY => 7
  | RESULT => 8 | PREPARE => 9 | EXECUTE => 10 | REGISTER => 11
  | EVENT => 12 | BATCH => 13 | AUTH_CHALLENGE => 14
  | AUTH_RESPONSE => 15 | AUTH_SUCCESS => 16
  end.

Inductive cql_binary_error : Type :=
| SERVER_ERROR | PROTOCOL_ERROR | BAD_CREDENTIALS | UNAVAILABLE
| OVERLOADED | IS_BOOTSTRAPPING | TRUNCATE_ERROR | WRITE_TIMEOUT
| READ_TIMEOUT | SYNTAX_ERROR | UNAUTHORIZED | INVALID | CONFIG_ERROR
| ALREADY_EXISTS | UNPREPARED.

(** [static_cast<int32_t>(err)] *)
Definition error_code (e : cql_binary_error) : Z :=
  match e with
  | SERVER_ERROR => 0x0000 | PROTOCOL_ERROR => 0x000A
  | BAD_CREDENTIALS => 0x0100 | UNAVAILABLE => 0x1000
  | OVERLOADED => 0x1001 | IS_BOOTSTRAPPING => 0x1002
  | TRUNCATE_ERROR => 0x1003 | WRITE_TIMEOUT => 0x1100
  | READ_TIMEOUT => 0x1200 | SYNTAX_ERROR => 0x2000
  | UNAUTHORIZED => 0x2100 | INVALID => 0x2200 | CONFIG_ERROR => 0x2300
  | ALREADY_EXISTS => 0x2400 | UNPREPARED => 0x2500
  end.

Module db.

Inductive consistency_level : Type :=
| ANY | ONE | TWO | THREE | QUORUM | ALL | LOCAL_QUORUM | EACH_QUORUM
| SERIAL | LOCAL_SERIAL | LOCAL_ONE.

Definition all_levels : list consistency_level :=
  [ANY; ONE; TWO; THREE; QUORUM; ALL; LOCAL_QUORUM; EACH_QUORUM;
   SERIAL; LOCAL_SERIAL; LOCAL_ONE].

End db.

(** The argument is an [int16_t]; the [default] branch is [assert(0)]. *)
Definition wire_to_consistency (v : Z) : outcome db.consistency_level :=
  match v with
  | 0x0000 => Ok db.ANY
  | 0x0001 => Ok db.ONE
  | 0x0002 => Ok db.TWO
  | 0x0003 => Ok db.THREE
  | 0x0004 => Ok db.QUORUM
  | 0x0005 => Ok db.ALL
  | 0x0006 => Ok db.LOCAL_QUORUM
  | 0x0007 => Ok db.EACH_QUORUM
  | 0x0008 => Ok db.SERIAL
  | 0x0009 => Ok db.LOCAL_SERIAL
  | 0x000A => Ok db.LOCAL_ONE
  | _ => Abort
  end.

Definition consistency_to_wire (c : db.consistency_level) : Z :=
  match c with
  | db.ANY => 0x0000
  | db.ONE => 0x0001
  | db.TWO => 0x0002
  | db.THREE => 0x0003
  | db.QUORUM => 0x0004
  | db.ALL => 0x0005
  | db.LOCAL_QUORUM => 0x0006
  | db.EACH_QUORUM => 0x0007
  | db.SERIAL => 0x0008
  | db.LOCAL_SERIAL => 0x0009
  | db.LOCAL_ONE => 0x000A
  end.

(** ** Reading wire types from a [temporary_buffer<char>&]

    The readers are methods of [cql_server::connection] that touch only
    the buffer they are given; the buffer is the state of the monad. *)

(** [p[i]] for [p = reinterpret_cast<const uint8_t*>(buf.begin())]. *)
Definition byte_at (i : nat) : M temporary_buffer Z :=
  fun buf =>
    match buf !! i with
    | Some b => (Ok (u8 b), buf)
    | None => (Undefined, buf)
    end.

(** [buf.trim_front(n)], [n] a [size_t]. *)
Definition trim_front (n : Z) : M temporary_buffer unit :=
  fun buf =>
    if Z.of_nat (length buf) <? n then (Undefined, buf)
    else (Ok tt, drop (Z.to_nat n) buf).

(** [sstring s{buf.begin(), n}], [n] a [size_t]: the constructor throws
    [std::overflow_error] when [n] does not fit the [uint32_t] size type
    of [sstring] ([size_type(size) != size]), and otherwise copies [n]
    bytes from the front. The readers below pass it a length under 2^31
    or, from a negative length, one of 2^64 - 2^31 or more. *)
Definition sstring_from (n : Z) : M temporary_buffer sstring :=
  fun buf =>
    if negb (u32 n =? n) then (Throw overflow_error, buf)
    else if Z.of_nat (length buf) <? n then (Undefined, buf)
    else (Ok (take (Z.to_nat n) buf), buf).

Definition read_byte : M temporary_buffer Z :=
  b <- byte_at 0 ;;
  let n := i8 b in
  trim_front 1 ;;
  ret n.

Definition read_int : M temporary_buffer Z :=
  p0 <- byte_at 0 ;; p1 <- byte_at 1 ;; p2 <- byte_at 2 ;; p3 <- byte_at 3 ;;
  let n := Z.lor (Z.lor (Z.lor (Z.shiftl p0 24) (Z.shiftl p1 16))
                        (Z.shiftl p2 8)) p3 in
  trim_front 4 ;;
  ret (i32 n).

Definition read_long : M temporary_buffer Z :=
  p0 <- byte_at 0 ;; p1 <- byte_at 1 ;; p2 <- byte_at 2 ;; p3 <- byte_at 3 ;;
  p4 <- byte_at 4 ;; p5 <- byte_at 5 ;; p6 <- byte_at 6 ;; p7 <- byte_at 7 ;;
  let n := Z.lor (Z.lor (Z.lor (Z.lor (Z.lor (Z.lor (Z.lor
             (Z.shiftl p0 56) (Z.shiftl p1 48)) (Z.shiftl p2 40))
             (Z.shiftl p3 32)) (Z.shiftl p4 24)) (Z.shiftl p5 16))
             (Z.shiftl p6 8)) p7 in
  trim_front 8 ;;
  ret (i64 n).

Definition read_short : M temporary_buffer Z :=
  p0 <- byte_at 0 ;; p1 <- byte_at 1 ;;
  let n := u16 (Z.lor (Z.shiftl p0 8) p1) in
  trim_front 2 ;;
  ret (i16 n).

(** The string is built from [static_cast<size_t>(n)] bytes before
    [assert(n >= 0)] is reached. *)
Definition read_string : M temporary_buffer sstring :=
  n <- read_short ;;
  s <- sstring_from (size_t n) ;;
  assert (0 <=? n) ;;
  trim_front (size_t n) ;;
  ret s.

Definition read_long_string : M temporary_buffer sstring :=
  n <- read_int ;;
  s <- sstring_from (size_t n) ;;
  trim_front (size_t n) ;;
  ret s.

Definition read_consistency : M temporary_buffer db.consistency_level :=
  n <- read_short ;;
  fail (wire_to_consistency n).

(** [std::unordered_map::emplace]: inserts only when the key is absent. *)
Definition emplace (key val : sstring) (m : gmap sstring sstring)
  : gmap sstring sstring :=
  match m !! key with
  | Some _ => m
  | None => <[key := val]> m
  end.

(** The body of [for (auto i = 0; i < n; i++)], [k] iterations left. *)
Fixpoint read_string_map_loop (k : nat) (string_map : gmap sstring sstring)
  : M temporary_buffer (gmap sstring sstring) :=
  match k with
  | O => ret string_map
  | S k' =>
      key <- read_string ;;
      val <- read_string ;;
      read_string_map_loop k' (emplace key val string_map)
  end.

Definition read_string_map : M temporary_buffer (gmap sstring sstring) :=
  n <- read_short ;;
  read_string_map_loop (Z.to_nat n) ∅.

(** ** The response writer, [cql_server::response] *)

Record response : Type := mk_response {
  _stream : Z;                   (* int16_t *)
  _opcode : cql_binary_opcode;
  _body : list Z                 (* the bytes of the std::stringstream *)
}.

(** [response(int16_t stream, cql_binary_opcode opcode)] *)
Definition new_response (stream : Z) (opcode : cql_binary_opcode) : response :=
  mk_response (i16 stream) opcode [].

(** [_body.write(p, n)] and [_body << s] *)
Definition body_write (bs : list Z) : M response unit :=
  fun r => (Ok tt, mk_response (_stream r) (_opcode r) (_body r ++ bs)).

(** The bytes of [htons(n)], [htonl(n)], [htonq(n)] in memory order. *)
Definition htons (n : Z) : list Z :=
  let u := u16 n in [Z.shiftr u 8; Z.land u 255].

Definition htonl (n : Z) : list Z :=
  let u := u32 n in
  [Z.shiftr u 24; Z.land (Z.shiftr u 16) 255; Z.land (Z.shiftr u 8) 255;
   Z.land u 255].

Definition htonq (n : Z) : list Z :=
  let u := u64 n in
  [Z.shiftr u 56; Z.land (Z.shiftr u 48) 255; Z.land (Z.shiftr u 40) 255;
   Z.land (Z.shiftr u 32) 255; Z.land (Z.shiftr u 24) 255;
   Z.land (Z.shiftr u 16) 255; Z.land (Z.shiftr u 8) 255; Z.land u 255].

Definition write_int (n : Z) : M response unit := body_write (htonl (i32 n)).
Definition write_long (n : Z) : M response unit := body_write (htonq (i64 n)).
Definition write_short (n : Z) : M response unit := body_write (htons (i16 n)).

(** [s.size()] *)
Definition size_of (s : list Z) : Z := Z.of_nat (length s).

Definition write_string (s : sstring) : M response unit :=
  assert (size_of s <? int16_max) ;;
  write_short (size_of s) ;;
  body_write s.

Definition write_long_string (s : sstring) : M response unit :=
  assert (size_of s <? int32_max) ;;
  write_int (size_of s) ;;
  body_write s.

(** [for (auto&& s : l) f(s)] *)
Fixpoint for_each {S A} (l : list A) (f : A -> M S unit) : M S unit :=
  match l with
  | [] => ret tt
  | x :: l' => f x ;; for_each l' f
  end.

Definition write_string_list (string_list : list sstring) : M response unit :=
  assert (Z.of_nat (length string_list) <? int16_max) ;;
  write_short (Z.of_nat (length string_list)) ;;
  for_each string_list write_string.

Definition write_bytes (b : list Z) : M response unit :=
  assert (size_of b <? int32_max) ;;
  write_int (size_of b) ;;
  body_write b.

Definition write_short_bytes (b : list Z) : M response unit :=
  assert (size_of b <? int16_max) ;;
  write_short (size_of b) ;;
  body_write b.

Definition write_consistency (c : db.consistency_level) : M response unit :=
  write_short (consistency_to_wire c).

(** [string_map] is the [std::map] in iteration order. *)
Definition write_string_map (string_map : list (sstring * sstring))
  : M response unit :=
  assert (Z.of_nat (length string_map) <? int16_max) ;;
  write_short (Z.of_nat (length string_map)) ;;
  for_each string_map (fun s => write_string (fst s) ;; write_string (snd s)).

(** [version] is a [uint8_t], [length] a [size_t]. *)
Definition make_frame (version : Z) (length : Z) : M response sstring :=
  fun r =>
    match version with
    | 0x01 | 0x02 =>
        (Ok ([u8 (Z.lor version 0x80); 0x00; u8 (_stream r);
              u8 (opcode_code (_opcode r))] ++ htonl length), r)
    | 0x03 | 0x04 =>
        (Ok ([u8 (Z.lor version 0x80); 0x00] ++ htons (_stream r)
             ++ [u8 (opcode_code (_opcode r))] ++ htonl length), r)
    | _ => (Abort, r)
    end.

Definition make_message (version : Z) : M response (list Z) :=
  fun r =>
    let body := _body r in
    (frame <- make_frame version (size_of body) ;;
     ret (frame ++ body)) r.

(** ** [std::multimap<sstring, sstring>]

    A multimap is the sequence of its elements in iteration order, which
    the container keeps ordered by key; an iterator is a position in that
    sequence and [end()] is its length. *)

(** [operator<] on [sstring]: bytewise lexicographic comparison. *)
Fixpoint sstring_lt (a b : sstring) : bool :=
  match a, b with
  | _, [] => false
  | [], _ :: _ => true
  | x :: a', y :: b' =>
      if x <? y then true else if y <? x then false else sstring_lt a' b'
  end.

Abbreviation multimap := (list (sstring * sstring)).

(** Position of the first element that satisfies [p], or the length. *)
Fixpoint find_index {A} (p : A -> bool) (l : list A) : nat :=
  match l with
  | [] => O
  | x :: l' => if p x then O else S (find_index p l')
  end.

(** First element whose key is greater than [key]. *)
Definition upper_bound (key : sstring) (m : multimap) : nat :=
  find_index (fun e => sstring_lt key (fst e)) m.

(** First element whose key is not less than [key]. *)
Definition lower_bound (key : sstring) (m : multimap) : nat :=
  find_index (fun e => negb (sstring_lt (fst e) key)) m.

Definition equal_range (key : sstring) (m : multimap) : nat * nat :=
  (lower_bound key m, upper_bound key m).

(** [insert]: the new element goes after the elements of equal key. *)
Definition mm_insert (e : sstring * sstring) (m : multimap) : multimap :=
  let i := upper_bound (fst e) m in take i m ++ e :: drop i m.

(** The invariant of the container: keys never decrease. *)
Definition mm_sorted (m : multimap) : Prop :=
  StronglySorted (fun a b => sstring_lt (fst b) (fst a) = false) m.

(** The first loop of [write_string_multimap]:
    [for (it = begin(); it != end(); it = upper_bound(it->first))].
    [None] when [fuel] iterations do not reach [end()]. *)
Fixpoint collect_keys (fuel : nat) (m : multimap) (it : nat)
    (keys : list sstring) : option (list sstring) :=
  match fuel with
  | O => None
  | S fuel' =>
      match m !! it with
      | None => Some keys
      | Some e => collect_keys fuel' m (upper_bound (fst e) m) (keys ++ [fst e])
      end
  end.

(** [for (it = range.first; it != range.second; ++it)
       values.push_back(it->second)] *)
Definition range_values (range : nat * nat) (m : multimap) : list sstring :=
  map snd (take (snd range - fst range) (drop (fst range) m)).

(** The loop over the keys needs at most one iteration per element of a
    key-ordered multimap, so [S (length string_map)] iterations are given;
    they can run out only on a sequence that no [std::multimap] holds. *)
Definition write_string_multimap (string_map : multimap) : M response unit :=
  match collect_keys (S (length string_map)) string_map O [] with
  | None => fail Undefined
  | Some keys =>
      assert (Z.of_nat (length keys) <? int16_max) ;;
      write_short (Z.of_nat (length keys)) ;;
      for_each keys (fun key =>
        let range := equal_range key string_map in
        let values := range_values range string_map in
        write_string key ;;
        write_string_list values)
  end.

(** ** Frame headers *)

Module cql_binary_frame_v3.

Record t : Type := mk {
  version : Z;   (* uint8_t *)
  flags : Z;     (* uint8_t *)
  stream : Z;    (* net::packed<uint16_t> *)
  opcode : Z;    (* uint8_t *)
  length : Z     (* net::packed<uint32_t> *)
}.

End cql_binary_frame_v3.

Abbreviation frame := cql_binary_frame_v3.t.

(** The value of a big-endian field of two, respectively four, bytes. *)
Definition ntohs (b0 b1 : Z) : Z := Z.lor (Z.shiftl (u8 b0) 8) (u8 b1).

Definition ntohl (b0 b1 b2 b3 : Z) : Z :=
  Z.lor (Z.lor (Z.lor (Z.shiftl (u8 b0) 24) (Z.shiftl (u8 b1) 16))
               (Z.shiftl (u8 b2) 8)) (u8 b3).

(** The bytes of [buf] seen as a [cql_binary_frame_v1] and passed through
    [net::ntoh], then copied field by field into a [cql_binary_frame_v3]. *)
Definition ntoh_v1 (buf : temporary_buffer) : option frame :=
  match buf with
  | [b0; b1; b2; b3; b4; b5; b6; b7] =>
      Some (cql_binary_frame_v3.mk (u8 b0) (u8 b1) (u8 b2) (u8 b3)
              (ntohl b4 b5 b6 b7))
  | _ => None
  end.

(** The bytes of [buf] seen as a [cql_binary_frame_v3] and passed through
    [net::ntoh]. *)
Definition ntoh_v3 (buf : temporary_buffer) : option frame :=
  match buf with
  | [b0; b1; b2; b3; b4; b5; b6; b7; b8] =>
      Some (cql_binary_frame_v3.mk (u8 b0) (u8 b1) (ntohs b2 b3) (u8 b4)
              (ntohl b5 b6 b7 b8))
  | _ => None
  end.

(** ** The connection, [cql_server::connection] *)

Record connection : Type := mk_connection {
  _version : Z;         (* uint8_t, 0 until the first byte is read *)
  _read_buf : list Z;   (* bytes of the peer not read yet, up to its close *)
  _eof : bool;          (* _read_buf.eof() *)
  _write_buf : list Z   (* bytes written and flushed *)
}.

(** A connection as [connection(server, fd, addr)] builds it, on a socket
    that will deliver [input] and then end. *)
Definition new_connection (input : list Z) : connection :=
  mk_connection 0 input false [].

(** [_read_buf.read_exactly(n)]: [n] bytes, or the bytes that are left
    when the stream ends first, which also raises [eof()]. *)
Definition read_exactly (n : Z) : M connection temporary_buffer :=
  fun c =>
    let k := Z.to_nat n in
    (Ok (take k (_read_buf c)),
     mk_connection (_version c) (drop k (_read_buf c))
       (_eof c || (size_of (_read_buf c) <? n)) (_write_buf c)).

(** [_write_buf.write(msg)] followed by [_write_buf.flush()] *)
Definition write_flush (msg : list Z) : M connection unit :=
  fun c =>
    (Ok tt, mk_connection (_version c) (_read_buf c) (_eof c)
              (_write_buf c ++ msg)).

Definition get_version : M connection Z := fun c => (Ok (_version c), c).

Definition set_version (v : Z) : M connection unit :=
  fun c => (Ok tt, mk_connection v (_read_buf c) (_eof c) (_write_buf c)).

(** Runs a computation on an object of its own (a buffer, a response);
    the connection is not touched, a failure propagates. *)
Definition run_in {S T A} (m : M T A) (t : T) : M S (A * T) :=
  fun s =>
    match m t with
    | (Ok a, t') => (Ok (a, t'), s)
    | (Throw e, _) => (Throw e, s)
    | (Abort, _) => (Abort, s)
    | (Undefined, _) => (Undefined, s)
    end.

Definition frame_size : M connection Z :=
  v <- get_version ;;
  if v <? 3 then ret 8 else ret 9.

Definition parse_frame (buf : temporary_buffer) : M connection frame :=
  fs <- frame_size ;;
  if negb (size_of buf =? fs) then throw cql_frame_error else
  v <- get_version ;;
  v3 <- match v with
        | 1 | 2 =>
            match ntoh_v1 buf with Some f => ret f | None => fail Undefined end
        | 3 | 4 =>
            match ntoh_v3 buf with Some f => ret f | None => fail Undefined end
        | _ => fail Abort
        end ;;
  if negb (cql_binary_frame_v3.version v3 =? v)
  then throw bad_cql_protocol_version
  else ret v3.

(** In the first branch [full] has [frame_size()] bytes of which only
    [1 + tail.size()] are written; when the stream ended inside the
    header the others are read by [parse_frame] as they are. *)
Definition read_frame : M connection (option frame) :=
  v <- get_version ;;
  if v =? 0 then
    buf <- read_exactly 1 ;;
    match buf with
    | [] => ret None
    | b :: _ =>
        set_version (u8 b) ;;
        v <- get_version ;;
        if (v <? 1) || (4 <? v) then throw bad_cql_protocol_version else
        fs <- frame_size ;;
        tail <- read_exactly (fs - 1) ;;
        if size_of tail <? fs - 1 then fail Undefined else
        f <- parse_frame (v :: tail) ;;
        ret (Some f)
    end
  else
    fs <- frame_size ;;
    buf <- read_exactly fs ;;
    match buf with
    | [] => ret None
    | _ :: _ => f <- parse_frame buf ;; ret (Some f)
    end.

Definition write_response (response : response) : M connection unit :=
  v <- get_version ;;
  r <- run_in (make_message v) response ;;
  write_flush (fst r).

Definition write_error (stream : Z) (err : cql_binary_error) (msg : sstring)
  : M connection unit :=
  let response := new_response stream ERROR in
  r <- run_in (write_int (error_code err) ;; write_string msg) response ;;
  write_response (snd r).

Definition write_ready (stream : Z) : M connection unit :=
  let response := new_response stream READY in
  write_response response.

(** The options of [write_supported], inserted in the order of the source. *)
Definition supported_opts : multimap :=
  mm_insert (lit "COMPRESSION", lit "snappy")
    (mm_insert (lit "CQL_VERSION", lit "3.2.0")
      (mm_insert (lit "CQL_VERSION", lit "3.0.0") [])).

Definition write_supported (stream : Z) : M connection unit :=
  let opts := supported_opts in
  let response := new_response stream SUPPORTED in
  r <- run_in (write_string_multimap opts) response ;;
  write_response (snd r).

Section Connection.

(** The CQL lexer and parser are outside this layer: [parser_query q]
    tells whether [parser.query()] returns a statement for the text [q]. *)
Variable parser_query : sstring -> bool.

Definition process_startup (stream : Z) (buf : temporary_buffer)
  : M connection unit :=
  string_map <- run_in read_string_map buf ;;
  write_ready stream.

Definition process_auth_response (stream : Z) (buf : temporary_buffer)
  : M connection unit :=
  assert false ;;
  ret tt.

Definition process_options (stream : Z) (buf : temporary_buffer)
  : M connection unit :=
  write_supported stream.

Definition process_query (stream : Z) (buf : temporary_buffer)
  : M connection unit :=
  query <- run_in read_long_string buf ;;
  let stmt := parser_query (fst query) in
  assert stmt ;;
  ret tt.

Definition process_prepare (stream : Z) (buf : temporary_buffer)
  : M connection unit :=
  assert false ;;
  ret tt.

Definition process_execute (stream : Z) (buf : temporary_buffer)
  : M connection unit :=
  assert false ;;
  ret tt.

Definition process_batch (stream : Z) (buf : temporary_buffer)
  : M connection unit :=
  assert false ;;
  ret tt.

Definition process_register (stream : Z) (buf : temporary_buffer)
  : M connection unit :=
  write_ready stream.

(** The continuation given to [_read_buf.read_exactly(f.length).then]:
    the body has been read into [buf]. *)
Definition process_request_body (f : frame) (buf : temporary_buffer)
  : M connection unit :=
  assert (Z.land (cql_binary_frame_v3.flags f) 0x01 =? 0) ;;
  let stream := cql_binary_frame_v3.stream f in
  match cql_binary_frame_v3.opcode f with
  | 1 => process_startup stream buf
  | 15 => process_auth_response stream buf
  | 5 => process_options stream buf
  | 7 => process_query stream buf
  | 9 => process_prepare stream buf
  | 10 => process_execute stream buf
  | 13 => process_batch stream buf
  | 11 => process_register stream buf
  | _ => assert false
  end.

Definition process_request : M connection unit :=
  maybe_frame <- read_frame ;;
  match maybe_frame with
  | None => ret tt
  | Some f =>
      buf <- read_exactly (cql_binary_frame_v3.length f) ;;
      process_request_body f buf
  end.

(** [do_until([this] { return _read_buf.eof(); },
              [this] { return process_request(); })]
    with at most [fuel] requests; [None] when they do not suffice. *)
Fixpoint process_loop (fuel : nat) (c : connection)
  : option (outcome unit * connection) :=
  if _eof c then Some (Ok tt, c) else
  match fuel with
  | O => None
  | S fuel' =>
      match process_request c with
      | (Ok _, c') => process_loop fuel' c'
      | failure => Some failure
      end
  end.

(** Every request that returns without raising [eof()] has consumed a
    frame header, so one request per unread byte and one more suffice. *)
Definition process (c : connection) : option (outcome unit * connection) :=
  process_loop (S (length (_read_buf c))) c.

End Connection.

(** ** Notions used in the statements *)

(** Network byte order in the words of the wire format: the [n] bytes of
    [x], most significant byte first. *)
Fixpoint big_endian (n : nat) (x : Z) : list Z :=
  match n with
  | O => []
  | S n' => (x / 256 ^ Z.of_nat n') mod 256 :: big_endian n' x
  end.

Definition outcome_map {A B} (f : A -> B) (o : outcome A) : outcome B :=
  match o with
  | Ok a => Ok (f a)
  | Throw e => Throw e
  | Abort => Abort
  | Undefined => Undefined
  end.

(** [parse_frame] on a connection whose version is [v]: it reads no other
    field of the connection and changes none. *)
Definition parse_header (v : Z) (buf : temporary_buffer) : outcome frame :=
  fst (parse_frame buf (mk_connection v [] false [])).

Definition header_size (v : Z) : Z := if v <? 3 then 8 else 9.

(** [encode_header] of the specification is [make_frame] on a response
    for stream [s] and opcode [op]. *)
Definition encode_header (v s : Z) (op : cql_binary_opcode) (n : Z)
  : outcome sstring :=
  fst (make_frame v n (new_response s op)).

(** [decode_header] of the specification is [read_frame] on a connection
    whose version is [locked] (0 while none is negotiated) and whose
    input is [bytes]. *)
Definition decode_header (locked : Z) (bytes : list Z) : outcome (option frame) :=
  fst (read_frame (mk_connection locked bytes false [])).

(** The canonical header: the stream is taken as the handlers pass it to
    the response, as an [int16_t]. *)
Definition canonical (f : frame) : Z * Z * Z * Z :=
  (cql_binary_frame_v3.version f, i16 (cql_binary_frame_v3.stream f),
   cql_binary_frame_v3.opcode f, cql_binary_frame_v3.length f).

(** Stream ids that the header of version [v] carries unchanged: one
    unsigned byte for versions 1 and 2, an [int16_t] for 3 and 4. *)
Definition stream_fits (v s : Z) : Prop :=
  if v <? 3 then 0 <= s < 256 else -32768 <= s < 32768.

(** [m] never changes the field (or any view) [f] of the connection. *)
Definition keeps {X A} (f : connection -> X) (m : M connection A) : Prop :=
  forall c, f (snd (m c)) = f c.

(** [m] writes nothing unless it returns normally. *)
Definition quiet {A} (m : M connection A) : Prop :=
  forall c, (forall a, fst (m c) <> Ok a) ->
            _write_buf (snd (m c)) = _write_buf c.

(** The fields of a header of version [v], without any check. *)
Definition header_fields (v : Z) (hdr : temporary_buffer) : option frame :=
  if v <? 3 then ntoh_v1 hdr else ntoh_v3 hdr.

(** The read operations of the wire-type reader. *)
Inductive wire_read : Type :=
| rd_byte | rd_i16 | rd_i32 | rd_i64 | rd_short_string | rd_long_string
| rd_string_map | rd_consistency_level.

(** The reader of the source behind each operation, its value dropped. *)
Definition run_read (op : wire_read) : M temporary_buffer unit :=
  match op with
  | rd_byte => read_byte ;; ret tt
  | rd_i16 => read_short ;; ret tt
  | rd_i32 => read_int ;; ret tt
  | rd_i64 => read_long ;; ret tt
  | rd_short_string => read_string ;; ret tt
  | rd_long_string => read_long_string ;; ret tt
  | rd_string_map => read_string_map ;; ret tt
  | rd_consistency_level => read_consistency ;; ret tt
  end.

(** The bytes an operation needs before it can know anything else: the
    whole value of a fixed-width type, the length or count of the others. *)
Definition prefix_width (op : wire_read) : Z :=
  match op with
  | rd_byte => 1
  | rd_i16 => 2
  | rd_i32 => 4
  | rd_i64 => 8
  | rd_short_string => 2
  | rd_long_string => 4
  | rd_string_map => 2
  | rd_consistency_level => 2
  end.

(** [m] never throws. *)
Definition no_throw {S A} (m : M S A) : Prop :=
  forall s e, fst (m s) <> Throw e.

(** [m] throws nothing but the [std::overflow_error] of [sstring]. *)
Definition overflow_only {S A} (m : M S A) : Prop :=
  forall s e, fst (m s) = Throw e -> e = overflow_error.

(** When [m] returns, it has consumed a prefix of at least [w] bytes. *)
Definition advances_by {A} (w : Z) (m : M temporary_buffer A) : Prop :=
  forall buf a rest,
    m buf = (Ok a, rest) -> exists used, buf = used ++ rest /\ w <= size_of used.

(** The wire format of a short string and of a string map, in the words
    of the protocol: a two-byte length and the bytes; a two-byte count
    and, for each entry, the key and the value as short strings. *)
Definition wire_short_string (s : sstring) : list Z :=
  big_endian 2 (size_of s) ++ s.

Definition wire_string_map (l : list (sstring * sstring)) : list Z :=
  big_endian 2 (Z.of_nat (length l))
  ++ flat_map (fun p => wire_short_string (fst p) ++ wire_short_string (snd p)) l.

(** The value of the first, respectively last, entry of [l] with key [k]. *)
Fixpoint assoc_first (k : sstring) (l : list (sstring * sstring))
  : option sstring :=
  match l with
  | [] => None
  | p :: l' => if decide (fst p = k) then Some (snd p) else assoc_first k l'
  end.

Definition assoc_last (k : sstring) (l : list (sstring * sstring))
  : option sstring :=
  assoc_first k (rev l).

(** Lengths and counts that a non-negative [int16_t] holds. *)
Definition fits_int16 (l : list (sstring * sstring)) : Prop :=
  Z.of_nat (length l) < 32768 /\
  Forall (fun p => size_of (fst p) < 32768 /\ size_of (snd p) < 32768) l.

(** The distinct elements of [l] in the order in which they are first
    seen: the head, then the first-seen elements of the tail without it. *)
Fixpoint first_seen (l : list sstring) : list sstring :=
  match l with
  | [] => []
  | k :: l' => k :: filter (fun x => x <> k) (first_seen l')
  end.

(** All the values that [m] holds under the key [k], in their order. *)
Definition values_of (k : sstring) (m : multimap) : list sstring :=
  map snd (filter (fun e => fst e = k) m).

(** Each distinct key once, in first-seen order, with all its values. *)
Definition grouped (m : multimap) : list (sstring * list sstring) :=
  map (fun k => (k, values_of k m)) (first_seen (map fst m)).

(** The wire format of a string list and of a string multimap, in the
    words of the protocol: a two-byte count and the strings; a two-byte
    key count and, per key, the key and the list of its values. *)
Definition wire_string_list (l : list sstring) : list Z :=
  big_endian 2 (Z.of_nat (length l)) ++ flat_map wire_short_string l.

Definition wire_string_multimap (g : list (sstring * list sstring)) : list Z :=
  big_endian 2 (Z.of_nat (length g))
  ++ flat_map (fun e => wire_short_string (fst e) ++ wire_string_list (snd e)) g.

(** The response [r] with [bs] appended to its body. *)
Definition append_body (r : response) (bs : list Z) : response :=
  mk_response (_stream r) (_opcode r) (_body r ++ bs).

(** Counts and lengths that pass the assertions of the writer. *)
Definition mm_fits (m : multimap) : Prop :=
  Z.of_nat (length m) < int16_max /\
  Forall (fun e => size_of (fst e) < int16_max /\ size_of (snd e) < int16_max) m.

(** The input of [c'] is a suffix no longer than that of [c], and [eof()]
    stays raised once it is. *)
Definition progress (c c' : connection) : Prop :=
  (length (_read_buf c') <= length (_read_buf c))%nat /\
  (_eof c = true -> _eof c' = true).

(** [m] only consumes input. *)
Definition advancing {A} (m : M connection A) : Prop :=
  forall c, progress c (snd (m c)).

(** The stream id of a header of version [v] as it stands on the wire:
    the byte, or the two bytes, after the flags. *)
Definition stream_bytes (v : Z) (hdr : list Z) : list Z :=
  map u8 (take (if v <? 3 then 1%nat else 2%nat) (drop 2 hdr)).

(** The response frame of opcode [op] and body [body] to the request whose
    header is [hdr], in the words of the protocol: the version with bit
    0x80, flags 0, the stream id of the request, the opcode, the length of
    the body in four bytes, the body. *)
Definition reply (v : Z) (hdr : list Z) (op : cql_binary_opcode)
    (body : list Z) : list Z :=
  [v + 128; 0] ++ stream_bytes v hdr ++ [opcode_code op]
  ++ big_endian 4 (size_of body) ++ body.

(** The body of SUPPORTED: the options of [write_supported], by key. *)
Definition supported_body : list Z :=
  wire_string_multimap
    [(lit "COMPRESSION", [lit "snappy"]);
     (lit "CQL_VERSION", [lit "3.0.0"; lit "3.2.0"])].

(** What [read_exactly n] leaves of a connection whose input is [rest]. *)
Definition after_read (v : Z) (n : Z) (rest : list Z) (eof : bool)
    (out : list Z) : connection :=
  mk_connection v (drop (Z.to_nat n) rest) (eof || (size_of rest <? n)) out.

(** [out] is a frame that [make_message] assembles, for version [v], from
    a READY or a SUPPORTED response. *)
Definition answer (v : Z) (out : list Z) : Prop :=
  exists r, (_opcode r = READY \/ _opcode r = SUPPORTED) /\
            fst (make_message v r) = Ok out.

(** [m] writes nothing, or returns normally having written one answer. *)
Definition emits {A} (m : M connection A) : Prop :=
  forall c,
    _write_buf (snd (m c)) = _write_buf c \/
    exists a out,
      fst (m c) = Ok a /\
      _write_buf (snd (m c)) = _write_buf c ++ out /\
      answer (_version (snd (m c))) out.

(** A request that the server answers whatever its body: OPTIONS or
    REGISTER, with the bytes of its stream id and its body. *)
Record simple_request : Type := mk_simple_request {
  rq_options : bool;        (* OPTIONS when true, REGISTER when false *)
  rq_stream : list Z;
  rq_body : list Z
}.

(** The header of the request in version [v], in the words of the
    protocol: version, flags 0, stream id, opcode, length of the body. *)
Definition request_header (v : Z) (rq : simple_request) : list Z :=
  [v; 0] ++ rq_stream rq
  ++ [opcode_code (if rq_options rq then OPTIONS else REGISTER)]
  ++ big_endian 4 (size_of (rq_body rq)).

Definition request_bytes (v : Z) (rq : simple_request) : list Z :=
  request_header v rq ++ rq_body rq.

(** The stream id has the width of version [v]; the length of the body
    fits its four bytes. *)
Definition request_ok (v : Z) (rq : simple_request) : Prop :=
  size_of (rq_stream rq) = (if v <? 3 then 1 else 2) /\
  size_of (rq_body rq) < 2^32.

(** The frame that answers the request. *)
Definition answer_bytes (v : Z) (rq : simple_request) : list Z :=
  if rq_options rq
  then reply v (request_header v rq) SUPPORTED supported_body
  else reply v (request_header v rq) READY [].

(** * Properties *)

(** ** Arithmetic of the conversions *)

Lemma land_255 x : Z.land x 255 = x mod 256.
Proof. change 255 with (Z.ones 8). rewrite Z.land_ones by lia. reflexivity. Qed.

Lemma shiftr_div x k : 0 <= k -> Z.shiftr x k = x / 2^k.
Proof. intros. apply Z.shiftr_div_pow2; lia. Qed.

Lemma shiftl_mul x k : 0 <= k -> Z.shiftl x k = x * 2^k.
Proof. intros. apply Z.shiftl_mul_pow2; lia. Qed.

Ltac list_eq_tac :=
  repeat match goal with
         | |- _ :: _ = _ :: _ => apply (f_equal2 (@cons Z))
         end;
  try reflexivity; Z.div_mod_to_equations; lia.

Lemma htons_big_endian x : htons x = big_endian 2 x.
Proof.
  unfold htons, u16. cbn [big_endian]. rewrite land_255, shiftr_div by lia.
  change (2^16) with 65536. change (2^8) with 256.
  change (256 ^ Z.of_nat 1) with 256. change (256 ^ Z.of_nat 0) with 1.
  list_eq_tac.
Qed.

Lemma htonl_big_endian x : htonl x = big_endian 4 x.
Proof.
  unfold htonl, u32. cbn [big_endian]. rewrite !land_255, !shiftr_div by lia.
  change (2^32) with 4294967296. change (2^24) with 16777216.
  change (2^16) with 65536. change (2^8) with 256.
  change (256 ^ Z.of_nat 3) with 16777216. change (256 ^ Z.of_nat 2) with 65536.
  change (256 ^ Z.of_nat 1) with 256. change (256 ^ Z.of_nat 0) with 1.
  list_eq_tac.
Qed.

(** ** Equations of the readers *)

Lemma trim_front_ok n buf :
  n <= size_of buf -> trim_front n buf = (Ok tt, drop (Z.to_nat n) buf).
Proof.
  unfold trim_front, size_of. intros H.
  destruct (Z.ltb_spec (Z.of_nat (length buf)) n); [lia | reflexivity].
Qed.

Lemma trim_front_short n buf :
  size_of buf < n -> trim_front n buf = (Undefined, buf).
Proof.
  unfold trim_front, size_of. intros H.
  destruct (Z.ltb_spec (Z.of_nat (length buf)) n); [reflexivity | lia].
Qed.

Lemma u32_fits n : 0 <= n < 4294967296 -> (u32 n =? n) = true.
Proof.
  intros H. apply Z.eqb_eq. unfold u32. change (2^32) with 4294967296.
  apply Z.mod_small. assumption.
Qed.

Lemma u32_overflows n : 4294967296 <= n -> (u32 n =? n) = false.
Proof.
  intros H. apply Z.eqb_neq. unfold u32. change (2^32) with 4294967296.
  pose proof (Z.mod_pos_bound n 4294967296). lia.
Qed.

Lemma sstring_from_ok n buf :
  0 <= n < 4294967296 -> n <= size_of buf ->
  sstring_from n buf = (Ok (take (Z.to_nat n) buf), buf).
Proof.
  unfold sstring_from, size_of. intros Hn H. rewrite (u32_fits n Hn).
  cbn [negb]. destruct (Z.ltb_spec (Z.of_nat (length buf)) n); [lia | reflexivity].
Qed.

Lemma sstring_from_short n buf :
  0 <= n < 4294967296 -> size_of buf < n ->
  sstring_from n buf = (Undefined, buf).
Proof.
  unfold sstring_from, size_of. intros Hn H. rewrite (u32_fits n Hn).
  cbn [negb]. destruct (Z.ltb_spec (Z.of_nat (length buf)) n); [reflexivity | lia].
Qed.

Lemma sstring_from_overflow n buf :
  4294967296 <= n -> sstring_from n buf = (Throw overflow_error, buf).
Proof.
  unfold sstring_from. intros Hn. rewrite (u32_overflows n Hn). reflexivity.
Qed.

Lemma size_of_cons b buf : size_of (b :: buf) = 1 + size_of buf.
Proof. unfold size_of. cbn [length]. lia. Qed.

Lemma size_of_app a b : size_of (a ++ b) = size_of a + size_of b.
Proof. unfold size_of. rewrite length_app. lia. Qed.

Lemma size_of_nonneg buf : 0 <= size_of buf.
Proof. unfold size_of. lia. Qed.

Lemma read_byte_cons b rest : read_byte (b :: rest) = (Ok (i8 (u8 b)), rest).
Proof.
  unfold read_byte, bind, byte_at. cbn [lookup list_lookup].
  rewrite trim_front_ok by (rewrite size_of_cons; pose proof (size_of_nonneg rest); lia).
  reflexivity.
Qed.

Lemma read_short_cons b0 b1 rest :
  read_short (b0 :: b1 :: rest) = (Ok (i16 (u16 (ntohs b0 b1))), rest).
Proof.
  unfold read_short, bind, byte_at. cbn [lookup list_lookup].
  rewrite trim_front_ok
    by (rewrite !size_of_cons; pose proof (size_of_nonneg rest); lia).
  reflexivity.
Qed.

Lemma read_int_cons b0 b1 b2 b3 rest :
  read_int (b0 :: b1 :: b2 :: b3 :: rest) = (Ok (i32 (ntohl b0 b1 b2 b3)), rest).
Proof.
  unfold read_int, bind, byte_at. cbn [lookup list_lookup].
  rewrite trim_front_ok
    by (rewrite !size_of_cons; pose proof (size_of_nonneg rest); lia).
  reflexivity.
Qed.

(** ** Consistency levels *)

Lemma wire_to_consistency_range v :
  ~ (0 <= v <= 10) -> wire_to_consistency v = Abort.
Proof.
  intros Hv. destruct v as [|p|p]; [lia| |reflexivity].
  do 4 (destruct p as [p|p|]; try lia; try reflexivity).
Qed.

Lemma wire_to_consistency_inv v c :
  wire_to_consistency v = Ok c -> consistency_to_wire c = v.
Proof.
  intros H. destruct (decide (0 <= v <= 10)) as [Hv|Hv].
  - assert (v = 0 \/ v = 1 \/ v = 2 \/ v = 3 \/ v = 4 \/ v = 5 \/ v = 6
            \/ v = 7 \/ v = 8 \/ v = 9 \/ v = 10) as Hc by lia.
    repeat destruct Hc as [->|Hc]; try subst v;
      simpl in H; inversion H; reflexivity.
  - rewrite wire_to_consistency_range in H by assumption. discriminate.
Qed.

(** C6, as the code has it. The eleven consistency levels and their wire
    codes 0x0000 (ANY) to 0x000A (LOCAL_ONE) are in bijection: decoding
    the code of a level gives the level back, a code that decodes to a
    level is the code of that level, and the two bytes written for a level
    are read back as it. A code outside the table, such as 0x9999, never
    yields a level, default or other: decoding it ends in the [assert(0)]
    of the [default] branch, which ends the process; no error is raised. *)
Theorem consistency_wire_bijection :
  (forall c, wire_to_consistency (consistency_to_wire c) = Ok c) /\
  (forall v c, wire_to_consistency v = Ok c -> consistency_to_wire c = v) /\
  (forall c, c ∈ db.all_levels) /\
  map consistency_to_wire db.all_levels = [0; 1; 2; 3; 4; 5; 6; 7; 8; 9; 10] /\
  (forall c rest,
      read_consistency (htons (consistency_to_wire c) ++ rest) = (Ok c, rest)) /\
  (forall v, ~ (0 <= v <= 10) ->
      wire_to_consistency v = Abort /\
      forall c, wire_to_consistency v <> Ok c) /\
  (forall rest, read_consistency ([0x99; 0x99] ++ rest) = (Abort, rest)).
Proof.
  split; [|split; [|split; [|split; [|split; [|split]]]]].
  - intros []; reflexivity.
  - apply wire_to_consistency_inv.
  - intros []; unfold db.all_levels; set_solver.
  - reflexivity.
  - intros c rest. unfold read_consistency, bind.
    destruct c; cbn [consistency_to_wire]; vm_compute htons;
      cbn [app]; rewrite read_short_cons; reflexivity.
  - intros v Hv. rewrite wire_to_consistency_range by assumption.
    split; [reflexivity | discriminate].
  - intros rest. unfold read_consistency, bind. cbn [app].
    rewrite read_short_cons. reflexivity.
Qed.

Lemma consistency_wire_bijection_witness :
  wire_to_consistency (i16 0x9999) = Abort /\
  consistency_to_wire db.QUORUM = 4.
Proof.
  destruct consistency_wire_bijection as (_ & Hinv & _ & _ & _ & Hout & _).
  split.
  - apply (Hout (i16 0x9999)). vm_compute. intros [H _]. apply H. reflexivity.
  - apply (Hinv 4 db.QUORUM). reflexivity.
Defined.

(** C6 as stated fails in its last part: the bytes 99 99 are read as the
    [int16_t] -26215, and decoding it ends in the failed assertion of the
    [default] branch; no decode error, nor any other error, is raised. *)
Lemma unmapped_consistency_counterexample :
  i16 0x9999 = -26215 /\
  wire_to_consistency (i16 0x9999) = Abort /\
  read_consistency [0x99; 0x99] = (Abort, []) /\
  ~ (exists e, wire_to_consistency (i16 0x9999) = Throw e) /\
  ~ (exists e, fst (read_consistency [0x99; 0x99]) = Throw e).
Proof.
  split; [reflexivity|]. split; [reflexivity|]. split; [reflexivity|].
  split; intros [e H]; vm_compute in H; discriminate.
Qed.

(** ** Response frames *)

Ltac case_version v :=
  let H := fresh "Hv" in
  assert (v = 1 \/ v = 2 \/ v = 3 \/ v = 4) as H by lia;
  destruct H as [-> | [-> | [-> | ->]]].

Lemma make_frame_ok r version length :
  1 <= version <= 4 ->
  exists frame,
    make_frame version length r = (Ok frame, r) /\
    size_of frame = (if version <? 3 then 8 else 9) /\
    frame !! 0%nat = Some (version + 128) /\
    frame !! 1%nat = Some 0.
Proof.
  intros Hv. case_version version; (eexists; split; [reflexivity|]);
    repeat split; reflexivity.
Qed.

Lemma make_message_ok r version :
  1 <= version <= 4 ->
  exists frame,
    make_frame version (size_of (_body r)) r = (Ok frame, r) /\
    make_message version r = (Ok (frame ++ _body r), r).
Proof.
  intros Hv. destruct (make_frame_ok r version (size_of (_body r)) Hv)
    as (frame & Hf & _).
  exists frame. split; [assumption|].
  unfold make_message, bind. rewrite Hf. reflexivity.
Qed.

Lemma write_response_ok r c :
  1 <= _version c <= 4 ->
  exists frame,
    make_frame (_version c) (size_of (_body r)) r = (Ok frame, r) /\
    write_response r c =
      (Ok tt, mk_connection (_version c) (_read_buf c) (_eof c)
                (_write_buf c ++ frame ++ _body r)).
Proof.
  intros Hv. destruct (make_message_ok r (_version c) Hv) as (frame & Hf & Hm).
  exists frame. split; [assumption|].
  unfold write_response, bind, get_version, run_in. rewrite Hm. reflexivity.
Qed.

(** C9. For every version in 1..4, every stream, opcode and body, the
    header that [make_frame] builds, and with it every message that
    [make_message] assembles and [write_response] sends, carries 0x00 in
    its flags byte (the second byte of the header). *)
Theorem response_flags_zero (r : response) (version length : Z) :
  1 <= version <= 4 ->
  (exists frame,
      make_frame version length r = (Ok frame, r) /\
      frame !! 1%nat = Some 0x00) /\
  (exists msg,
      make_message version r = (Ok msg, r) /\
      msg !! 1%nat = Some 0x00) /\
  (forall c, _version c = version ->
      exists msg,
        write_response r c =
          (Ok tt, mk_connection (_version c) (_read_buf c) (_eof c)
                    (_write_buf c ++ msg)) /\
        msg !! 1%nat = Some 0x00).
Proof.
  intros Hv.
  assert (forall frame len (tl : list Z),
             make_frame version len r = (Ok frame, r) ->
             (frame ++ tl) !! 1%nat = Some 0) as Hbyte.
  { intros frame len tl Hf.
    destruct (make_frame_ok r version len Hv) as (frame' & Hf' & Hsz & _ & H1).
    rewrite Hf in Hf'. inversion Hf'; subst frame'.
    rewrite lookup_app_l; [assumption|].
    apply lookup_lt_Some in H1. assumption. }
  split; [|split].
  - destruct (make_frame_ok r version length Hv) as (frame & Hf & _ & _ & H1).
    exists frame. split; assumption.
  - destruct (make_message_ok r version Hv) as (frame & Hf & Hm).
    exists (frame ++ _body r). split; [assumption|]. eapply Hbyte, Hf.
  - intros c Hc. subst version.
    destruct (write_response_ok r c Hv) as (frame & Hf & Hw).
    exists (frame ++ _body r). split; [assumption|]. eapply Hbyte, Hf.
Qed.

Lemma response_flags_zero_witness :
  exists msg,
    make_message 3 (new_response 7 SUPPORTED) = (Ok msg, new_response 7 SUPPORTED)
    /\ msg !! 1%nat = Some 0.
Proof.
  apply (response_flags_zero (new_response 7 SUPPORTED) 3 0). lia.
Defined.

(** ** ERROR responses *)

Lemma write_string_ok s r :
  size_of s < int16_max ->
  write_string s r =
    (Ok tt, mk_response (_stream r) (_opcode r)
              (_body r ++ big_endian 2 (size_of s) ++ s)).
Proof.
  intros Hs. unfold write_string, bind, assert.
  destruct (Z.ltb_spec (size_of s) int16_max); [|lia].
  unfold ret, write_short, body_write. cbn [_stream _opcode _body].
  rewrite htons_big_endian.
  assert (i16 (size_of s) = size_of s) as ->.
  { unfold i16, signed. unfold int16_max in *. pose proof (size_of_nonneg s).
    change (2 ^ (16 - 1)) with 32768. change (2 ^ 16) with 65536.
    rewrite Z.mod_small; lia. }
  rewrite <- app_assoc. reflexivity.
Qed.

Lemma write_string_abort s r :
  int16_max <= size_of s -> write_string s r = (Abort, r).
Proof.
  intros Hs. unfold write_string, bind, assert.
  destruct (Z.ltb_spec (size_of s) int16_max); [lia | reflexivity].
Qed.

Lemma error_code_i32 err : i32 (error_code err) = error_code err.
Proof. destruct err; reflexivity. Qed.

(** C10. The body of the ERROR response that [write_error] builds and
    sends is the error code as four bytes in network byte order followed
    by the message as a short string (its length as two bytes in network
    byte order, then its bytes), in that order and with nothing else; the
    frame sent is the header for that body followed by it. A message of
    32767 bytes or more fails the assertion of [write_string] and no
    frame is sent. *)
Theorem write_error_body (stream : Z) (err : cql_binary_error) (msg : sstring)
    (c : connection) :
  1 <= _version c <= 4 ->
  (size_of msg < int16_max ->
   let body := big_endian 4 (error_code err)
               ++ (big_endian 2 (size_of msg) ++ msg) in
   (write_int (error_code err) ;; write_string msg) (new_response stream ERROR)
     = (Ok tt, mk_response (i16 stream) ERROR body) /\
   exists header,
     make_frame (_version c) (size_of body) (mk_response (i16 stream) ERROR body)
       = (Ok header, mk_response (i16 stream) ERROR body) /\
     write_error stream err msg c =
       (Ok tt, mk_connection (_version c) (_read_buf c) (_eof c)
                 (_write_buf c ++ header ++ body))) /\
  (int16_max <= size_of msg -> write_error stream err msg c = (Abort, c)).
Proof.
  intros Hv. split.
  - intros Hs body.
    assert ((write_int (error_code err) ;; write_string msg)
              (new_response stream ERROR)
            = (Ok tt, mk_response (i16 stream) ERROR body)) as Hbody.
    { unfold bind, write_int, body_write, new_response.
      cbn [_stream _opcode _body app].
      rewrite write_string_ok by assumption. cbn [_stream _opcode _body].
      rewrite error_code_i32, htonl_big_endian. reflexivity. }
    split; [exact Hbody|].
    destruct (write_response_ok (mk_response (i16 stream) ERROR body) c Hv)
      as (header & Hf & Hw).
    exists header. split; [exact Hf|].
    unfold write_error. unfold bind at 1. unfold run_in.
    rewrite Hbody. cbn [snd]. exact Hw.
  - intros Hs. unfold write_error. unfold bind at 1. unfold run_in.
    unfold bind, write_int, body_write.
    rewrite write_string_abort by assumption. reflexivity.
Qed.

Lemma write_error_body_witness :
  write_error 5 SERVER_ERROR (lit "not implemented")
    (mk_connection 3 [] false []) =
  (Ok tt, mk_connection 3 [] false
            ([131; 0; 0; 5; 0; 0; 0; 0; 21]
             ++ [0; 0; 0; 0] ++ [0; 15] ++ lit "not implemented")).
Proof.
  destruct (write_error_body 5 SERVER_ERROR (lit "not implemented")
              (mk_connection 3 [] false [])) as [H _]; [simpl; lia|].
  destruct H as (_ & header & Hf & Hw); [vm_compute; reflexivity|].
  vm_compute in Hf. inversion Hf; subst header. exact Hw.
Defined.

Lemma lor_shiftl_add hi lo k :
  0 <= k -> 0 <= lo < 2^k -> Z.lor (Z.shiftl hi k) lo = hi * 2^k + lo.
Proof.
  intros Hk Hlo.
  assert (Z.land (Z.shiftl hi k) lo = 0) as Hland.
  { apply Z.bits_inj'. intros n Hn. rewrite Z.land_spec, Z.bits_0.
    destruct (Z.lt_ge_cases n k) as [Hlt|Hge].
    - rewrite Z.shiftl_spec_low by assumption. reflexivity.
    - destruct (Z.eq_dec lo 0) as [->|Hne].
      + rewrite Z.bits_0. apply andb_false_r.
      + rewrite (Z.bits_above_log2 lo n); [apply andb_false_r|lia|].
        apply Z.lt_le_trans with k; [|assumption].
        apply Z.log2_lt_pow2; lia. }
  rewrite <- Z.lxor_lor, <- Z.add_nocarry_lxor by assumption.
  rewrite Z.shiftl_mul_pow2 by assumption. reflexivity.
Qed.

Lemma u8_range x : 0 <= u8 x < 256.
Proof. unfold u8. change (2^8) with 256. apply Z.mod_pos_bound. lia. Qed.

Lemma lor_mul_add hi lo k m :
  0 <= k -> m = 2^k -> 0 <= lo < m -> Z.lor (hi * m) lo = hi * m + lo.
Proof.
  intros Hk -> Hlo. rewrite <- Z.shiftl_mul_pow2 by assumption.
  rewrite lor_shiftl_add by assumption.
  rewrite Z.shiftl_mul_pow2 by assumption. reflexivity.
Qed.

Lemma ntohs_eq b0 b1 : ntohs b0 b1 = u8 b0 * 256 + u8 b1.
Proof.
  unfold ntohs. pose proof (u8_range b1).
  rewrite Z.shiftl_mul_pow2 by lia. change (2^8) with 256.
  apply (lor_mul_add _ _ 8); [lia | reflexivity | lia].
Qed.

Lemma ntohl_eq b0 b1 b2 b3 :
  ntohl b0 b1 b2 b3 = u8 b0 * 16777216 + u8 b1 * 65536 + u8 b2 * 256 + u8 b3.
Proof.
  unfold ntohl.
  pose proof (u8_range b0). pose proof (u8_range b1).
  pose proof (u8_range b2). pose proof (u8_range b3).
  rewrite !Z.shiftl_mul_pow2 by lia.
  change (2^24) with 16777216. change (2^16) with 65536. change (2^8) with 256.
  rewrite (lor_mul_add (u8 b0) (u8 b1 * 65536) 24 16777216)
    by (reflexivity || lia).
  replace (u8 b0 * 16777216 + u8 b1 * 65536)
    with ((u8 b0 * 256 + u8 b1) * 65536) by lia.
  rewrite (lor_mul_add (u8 b0 * 256 + u8 b1) (u8 b2 * 256) 16 65536)
    by (reflexivity || lia).
  replace ((u8 b0 * 256 + u8 b1) * 65536 + u8 b2 * 256)
    with (((u8 b0 * 256 + u8 b1) * 256 + u8 b2) * 256) by lia.
  rewrite (lor_mul_add _ (u8 b3) 8 256) by (reflexivity || lia).
  lia.
Qed.

Lemma htons_inv n :
  exists a b, htons n = [a; b] /\ ntohs a b = u16 n.
Proof.
  rewrite htons_big_endian. cbn [big_endian]. do 2 eexists.
  split; [reflexivity|]. rewrite ntohs_eq. unfold u8, u16.
  change (2^8) with 256. change (2^16) with 65536.
  change (256 ^ Z.of_nat 1) with 256. change (256 ^ Z.of_nat 0) with 1.
  Z.div_mod_to_equations. lia.
Qed.

Lemma htonl_inv n :
  exists a b c d, htonl n = [a; b; c; d] /\ ntohl a b c d = u32 n.
Proof.
  rewrite htonl_big_endian. cbn [big_endian]. do 4 eexists.
  split; [reflexivity|]. rewrite ntohl_eq. unfold u8, u32.
  change (2^8) with 256. change (2^32) with 4294967296.
  change (256 ^ Z.of_nat 3) with 16777216. change (256 ^ Z.of_nat 2) with 65536.
  change (256 ^ Z.of_nat 1) with 256. change (256 ^ Z.of_nat 0) with 1.
  Z.div_mod_to_equations. lia.
Qed.

(** ** Decoding a frame header *)

Lemma parse_frame_pure buf c :
  parse_frame buf c = (parse_header (_version c) buf, c).
Proof.
  destruct c as [v i e o].
  cbv beta iota delta [parse_header parse_frame bind frame_size get_version
                       throw fail ret _version fst].
  destruct (v <? 3); cbv beta iota.
  all: match goal with |- context [size_of ?b =? ?k] =>
         destruct (size_of b =? k) end; cbn [negb]; [|reflexivity..].
  all: destruct v as [|p|p]; try reflexivity.
  all: do 3 (try destruct p as [p|p|]; try reflexivity).
  all: match goal with
       | |- context [ntoh_v1 ?b] => destruct (ntoh_v1 b) as [f|]
       | |- context [ntoh_v3 ?b] => destruct (ntoh_v3 b) as [f|]
       end; cbv beta iota; try reflexivity.
  all: match goal with |- context [negb ?x] =>
         destruct x; cbv beta iota delta [negb] end; reflexivity.
Qed.

Lemma parse_header_v1 v b0 b1 b2 b3 b4 b5 b6 b7 :
  v = 1 \/ v = 2 ->
  parse_header v [b0; b1; b2; b3; b4; b5; b6; b7] =
    if u8 b0 =? v
    then Ok (cql_binary_frame_v3.mk (u8 b0) (u8 b1) (u8 b2) (u8 b3)
               (ntohl b4 b5 b6 b7))
    else Throw bad_cql_protocol_version.
Proof.
  intros [-> | ->];
    cbv beta iota delta [parse_header parse_frame bind frame_size get_version
                         throw fail ret _version fst ntoh_v1];
    cbn -[u8 ntohl ntohs Z.eqb size_of];
    change (size_of [b0; b1; b2; b3; b4; b5; b6; b7] =? 8) with true;
    cbn -[u8 ntohl Z.eqb];
    (destruct (u8 b0 =? _); reflexivity).
Qed.

Lemma parse_header_v3 v b0 b1 b2 b3 b4 b5 b6 b7 b8 :
  v = 3 \/ v = 4 ->
  parse_header v [b0; b1; b2; b3; b4; b5; b6; b7; b8] =
    if u8 b0 =? v
    then Ok (cql_binary_frame_v3.mk (u8 b0) (u8 b1) (ntohs b2 b3) (u8 b4)
               (ntohl b5 b6 b7 b8))
    else Throw bad_cql_protocol_version.
Proof.
  intros [-> | ->];
    cbv beta iota delta [parse_header parse_frame bind frame_size get_version
                         throw fail ret _version fst ntoh_v3];
    cbn -[u8 ntohl ntohs Z.eqb size_of];
    change (size_of [b0; b1; b2; b3; b4; b5; b6; b7; b8] =? 9) with true;
    cbn -[u8 ntohl ntohs Z.eqb];
    (destruct (u8 b0 =? _); reflexivity).
Qed.

Lemma parse_header_size v buf :
  size_of buf <> header_size v -> parse_header v buf = Throw cql_frame_error.
Proof.
  intros H.
  cbv beta iota delta [parse_header parse_frame bind frame_size get_version
                       throw fail ret _version fst].
  unfold header_size in H. destruct (v <? 3); cbv beta iota;
    match goal with |- context [size_of ?b =? ?k] =>
      destruct (Z.eqb_spec (size_of b) k); [contradiction | reflexivity]
    end.
Qed.

(** ** Stepping through the monad *)

Lemma bind_ok {S A B} (m : M S A) (k : A -> M S B) s a s' :
  m s = (Ok a, s') -> bind m k s = k a s'.
Proof. unfold bind. intros ->. reflexivity. Qed.

Lemma bind_throw {S A B} (m : M S A) (k : A -> M S B) s e s' :
  m s = (Throw e, s') -> bind m k s = (Throw e, s').
Proof. unfold bind. intros ->. reflexivity. Qed.

Lemma bind_abort {S A B} (m : M S A) (k : A -> M S B) s s' :
  m s = (Abort, s') -> bind m k s = (Abort, s').
Proof. unfold bind. intros ->. reflexivity. Qed.

Lemma bind_undefined {S A B} (m : M S A) (k : A -> M S B) s s' :
  m s = (Undefined, s') -> bind m k s = (Undefined, s').
Proof. unfold bind. intros ->. reflexivity. Qed.

Lemma bind_map_ret {S A B} (m : M S A) (f : A -> B) s :
  bind m (fun a => ret (f a)) s = (outcome_map f (fst (m s)), snd (m s)).
Proof. unfold bind, ret. destruct (m s) as [[a|e| |] s']; reflexivity. Qed.

Lemma read_exactly_app n pre rest c :
  _read_buf c = pre ++ rest -> size_of pre = n ->
  read_exactly n c =
    (Ok pre, mk_connection (_version c) rest (_eof c) (_write_buf c)).
Proof.
  intros Hbuf Hn. unfold read_exactly. rewrite Hbuf.
  assert (Z.to_nat n = length pre) as -> by (unfold size_of in Hn; lia).
  rewrite take_app_length, drop_app_length.
  destruct (Z.ltb_spec (size_of (pre ++ rest)) n) as [Hlt|_].
  - rewrite size_of_app in Hlt. pose proof (size_of_nonneg rest). lia.
  - rewrite orb_false_r. reflexivity.
Qed.

Lemma header_size_cases v : header_size v = 8 \/ header_size v = 9.
Proof. unfold header_size. destruct (v <? 3); auto. Qed.

Lemma frame_size_eq c : frame_size c = (Ok (header_size (_version c)), c).
Proof.
  unfold frame_size, header_size, bind, get_version, ret.
  destruct (_version c <? 3); reflexivity.
Qed.

Lemma read_frame_established c hdr rest :
  1 <= _version c <= 4 ->
  _read_buf c = hdr ++ rest ->
  size_of hdr = header_size (_version c) ->
  read_frame c =
    (outcome_map Some (parse_header (_version c) hdr),
     mk_connection (_version c) rest (_eof c) (_write_buf c)).
Proof.
  intros Hv Hbuf Hsz. unfold read_frame.
  rewrite (bind_ok _ _ c (_version c) c) by reflexivity.
  destruct (Z.eqb_spec (_version c) 0) as [H0|_]; [lia|].
  rewrite (bind_ok _ _ _ _ _ (frame_size_eq c)).
  rewrite (bind_ok _ _ _ _ _ (read_exactly_app _ hdr rest c Hbuf Hsz)).
  destruct hdr as [|b hdr].
  { destruct (header_size_cases (_version c)) as [E|E];
      rewrite E in Hsz; discriminate. }
  rewrite bind_map_ret, parse_frame_pure. reflexivity.
Qed.

Lemma read_frame_first c b tl rest :
  _version c = 0 ->
  _read_buf c = b :: tl ++ rest ->
  1 <= u8 b <= 4 ->
  size_of tl = header_size (u8 b) - 1 ->
  read_frame c =
    (outcome_map Some (parse_header (u8 b) (u8 b :: tl)),
     mk_connection (u8 b) rest (_eof c) (_write_buf c)).
Proof.
  intros H0 Hbuf Hv Hsz. unfold read_frame.
  rewrite (bind_ok _ _ c (_version c) c) by reflexivity.
  rewrite H0. change (0 =? 0) with true. cbv beta iota.
  rewrite (bind_ok _ _ _ _ _
             (read_exactly_app 1 [b] (tl ++ rest) c Hbuf eq_refl)).
  set (c1 := mk_connection (_version c) (tl ++ rest) (_eof c) (_write_buf c)).
  set (c2 := mk_connection (u8 b) (tl ++ rest) (_eof c) (_write_buf c)).
  rewrite (bind_ok _ _ c1 tt c2) by reflexivity.
  rewrite (bind_ok _ _ c2 (u8 b) c2) by reflexivity.
  destruct (Z.ltb_spec (u8 b) 1); [lia|].
  destruct (Z.ltb_spec 4 (u8 b)); [lia|]. cbn [orb].
  rewrite (bind_ok _ _ _ _ _ (frame_size_eq c2)). cbn [_version c2].
  rewrite (bind_ok _ _ _ _ _
             (read_exactly_app (header_size (u8 b) - 1) tl rest c2
                eq_refl Hsz)).
  cbn [_version _eof _write_buf c2].
  destruct (Z.ltb_spec (size_of tl) (header_size (u8 b) - 1)); [lia|].
  rewrite bind_map_ret, parse_frame_pure. reflexivity.
Qed.

Lemma read_frame_first_bad c b rest :
  _version c = 0 ->
  _read_buf c = b :: rest ->
  ~ (1 <= u8 b <= 4) ->
  read_frame c =
    (Throw bad_cql_protocol_version,
     mk_connection (u8 b) rest (_eof c) (_write_buf c)).
Proof.
  intros H0 Hbuf Hv. unfold read_frame.
  rewrite (bind_ok _ _ c (_version c) c) by reflexivity.
  rewrite H0. change (0 =? 0) with true. cbv beta iota.
  rewrite (bind_ok _ _ _ _ _ (read_exactly_app 1 [b] rest c Hbuf eq_refl)).
  set (c1 := mk_connection (_version c) rest (_eof c) (_write_buf c)).
  set (c2 := mk_connection (u8 b) rest (_eof c) (_write_buf c)).
  rewrite (bind_ok _ _ c1 tt c2) by reflexivity.
  rewrite (bind_ok _ _ c2 (u8 b) c2) by reflexivity.
  destruct (Z.ltb_spec (u8 b) 1); [reflexivity|].
  destruct (Z.ltb_spec 4 (u8 b)); [reflexivity|]. lia.
Qed.

(** ** Round trip of the frame header *)

Lemma opcode_code_u8 op : u8 (u8 (opcode_code op)) = opcode_code op.
Proof. destruct op; reflexivity. Qed.

Lemma u8_small x : 0 <= x < 256 -> u8 x = x.
Proof. intros. unfold u8. change (2^8) with 256. apply Z.mod_small. lia. Qed.

Lemma u32_small x : 0 <= x < 2^32 -> u32 x = x.
Proof. intros. unfold u32. apply Z.mod_small. lia. Qed.

Lemma i16_small x : -32768 <= x < 32768 -> i16 x = x.
Proof.
  intros. unfold i16, signed. change (2 ^ (16 - 1)) with 32768.
  change (2 ^ 16) with 65536. rewrite Z.mod_small; lia.
Qed.

Lemma i16_u16 x : i16 (u16 x) = i16 x.
Proof.
  unfold i16, u16, signed. change (2 ^ (16 - 1)) with 32768.
  change (2 ^ 16) with 65536. Z.div_mod_to_equations. lia.
Qed.

Lemma decode_header_established v hdr :
  1 <= v <= 4 -> size_of hdr = header_size v ->
  decode_header v hdr = outcome_map Some (parse_header v hdr).
Proof.
  intros Hv Hsz. unfold decode_header.
  rewrite (read_frame_established _ hdr []); cbn [_version _read_buf];
    [reflexivity | assumption | symmetry; apply app_nil_r | assumption].
Qed.

Lemma decode_header_first b tl :
  1 <= u8 b <= 4 -> size_of tl = header_size (u8 b) - 1 ->
  decode_header 0 (b :: tl) = outcome_map Some (parse_header (u8 b) (u8 b :: tl)).
Proof.
  intros Hv Hsz. unfold decode_header.
  rewrite (read_frame_first _ b tl []); cbn [_version _read_buf];
    [reflexivity | reflexivity | rewrite app_nil_r; reflexivity
    | assumption | assumption].
Qed.

Lemma decode_header_first_bad b tl :
  ~ (1 <= u8 b <= 4) ->
  decode_header 0 (b :: tl) = Throw bad_cql_protocol_version.
Proof.
  intros Hv. unfold decode_header.
  rewrite (read_frame_first_bad _ b tl); cbn [_version _read_buf];
    [reflexivity | reflexivity | reflexivity | assumption].
Qed.

(** C1, as the code has it. For every version [v] in 1..4, every stream
    id that the header of that version carries unchanged, every opcode
    and every body length below 2^32, [make_frame] yields a header of the
    size of the version whose first byte is [v] with bit 0x80 set, the
    mark of a response. The decoder of the server, which reads requests,
    rejects that header with [bad_cql_protocol_version], on a connection
    locked to [v] as on a fresh one. With the response bit cleared, the
    same bytes decode, on both, to the header (v, s, op, n) with flags 0. *)
Theorem header_roundtrip_modulo_response_bit
    (v s : Z) (op : cql_binary_opcode) (n : Z) :
  1 <= v <= 4 -> stream_fits v s -> 0 <= n < 2^32 ->
  exists tl,
    encode_header v s op n = Ok (v + 128 :: tl) /\
    size_of (v + 128 :: tl) = header_size v /\
    decode_header v (v + 128 :: tl) = Throw bad_cql_protocol_version /\
    decode_header 0 (v + 128 :: tl) = Throw bad_cql_protocol_version /\
    exists f,
      decode_header v (v :: tl) = Ok (Some f) /\
      decode_header 0 (v :: tl) = Ok (Some f) /\
      canonical f = (v, s, opcode_code op, n) /\
      cql_binary_frame_v3.flags f = 0.
Proof.
  intros Hv Hs Hn.
  destruct (htonl_inv n) as (l0 & l1 & l2 & l3 & Hl & Hlen).
  rewrite (u32_small n Hn) in Hlen.
  destruct (htons_inv (i16 s)) as (s0 & s1 & Hst & Hstream).
  unfold encode_header, make_frame, new_response. cbn [_stream _opcode fst].
  case_version v; unfold stream_fits in Hs; cbn in Hs;
    rewrite ?Hst, Hl; cbn [app];
    (eexists; split; [reflexivity|]; split; [reflexivity|]);
    rewrite !decode_header_established by (reflexivity || lia);
    match goal with
    | |- context [decode_header 0 (?k + 128 :: _)] =>
        let y := eval vm_compute in (u8 (k + 128)) in
        rewrite decode_header_first_bad by (change (u8 (k + 128)) with y; lia);
        rewrite decode_header_first
          by (change (u8 k) with k; first [lia | reflexivity]);
        change (u8 k) with k;
        rewrite ?parse_header_v1, ?parse_header_v3 by auto;
        change (u8 (k + 128) =? k) with false;
        change (u8 k =? k) with true
    end;
    cbn [outcome_map]; (split; [reflexivity|]); (split; [reflexivity|]);
    (eexists; split; [reflexivity|]; split; [reflexivity|]);
    (split; [|reflexivity]);
    unfold canonical; cbn [cql_binary_frame_v3.version
      cql_binary_frame_v3.stream cql_binary_frame_v3.opcode
      cql_binary_frame_v3.length];
    rewrite opcode_code_u8, Hlen.
  - rewrite (i16_small s), !(u8_small s), (i16_small s) by lia. reflexivity.
  - rewrite (i16_small s), !(u8_small s), (i16_small s) by lia. reflexivity.
  - rewrite Hstream, i16_u16, !(i16_small s) by lia. reflexivity.
  - rewrite Hstream, i16_u16, !(i16_small s) by lia. reflexivity.
Qed.

Lemma header_roundtrip_modulo_response_bit_witness :
  exists tl,
    encode_header 3 (-2) QUERY 70000 = Ok (3 + 128 :: tl) /\
    exists f,
      decode_header 3 (3 :: tl) = Ok (Some f) /\
      canonical f = (3, -2, 7, 70000).
Proof.
  destruct (header_roundtrip_modulo_response_bit 3 (-2) QUERY 70000)
    as (tl & He & _ & _ & _ & f & Hd & _ & Hc & _);
    [lia | unfold stream_fits; simpl; lia | lia |].
  exists tl. split; [exact He|]. exists f. split; [exact Hd | exact Hc].
Defined.

(** C1 as stated fails: the header that [make_frame] builds for version 1,
    stream 0, opcode READY and an empty body is 81 00 00 02 00 00 00 00,
    and the decoder rejects it, whether the connection is locked to
    version 1 or has no version yet; it yields no header at all. *)
Lemma header_roundtrip_counterexample :
  encode_header 1 0 READY 0 = Ok [129; 0; 0; 2; 0; 0; 0; 0] /\
  decode_header 1 [129; 0; 0; 2; 0; 0; 0; 0] = Throw bad_cql_protocol_version /\
  decode_header 0 [129; 0; 0; 2; 0; 0; 0; 0] = Throw bad_cql_protocol_version /\
  ~ (exists hdr f,
        encode_header 1 0 READY 0 = Ok hdr /\
        (decode_header 1 hdr = Ok (Some f) \/ decode_header 0 hdr = Ok (Some f)) /\
        canonical f = (1, 0, opcode_code READY, 0)).
Proof.
  assert (encode_header 1 0 READY 0 = Ok [129; 0; 0; 2; 0; 0; 0; 0]) as He
    by reflexivity.
  assert (decode_header 1 [129; 0; 0; 2; 0; 0; 0; 0]
          = Throw bad_cql_protocol_version) as H1 by reflexivity.
  assert (decode_header 0 [129; 0; 0; 2; 0; 0; 0; 0]
          = Throw bad_cql_protocol_version) as H0 by reflexivity.
  repeat split; try assumption.
  intros (hdr & f & Hh & Hd & _). rewrite He in Hh. inversion Hh; subst hdr.
  rewrite H1, H0 in Hd. destruct Hd; discriminate.
Qed.

(** ** What a request leaves unchanged *)

Lemma keeps_bind {X A B} (f : connection -> X) (m : M connection A)
    (k : A -> M connection B) :
  keeps f m -> (forall a, keeps f (k a)) -> keeps f (bind m k).
Proof.
  intros Hm Hk c. unfold bind. specialize (Hm c).
  destruct (m c) as [[a|e| |] c1]; cbn [snd] in *; try assumption.
  rewrite Hk. assumption.
Qed.

Lemma keeps_ret {X A} (f : connection -> X) (a : A) : keeps f (ret a).
Proof. intros c. reflexivity. Qed.

Lemma keeps_fail {X A} (f : connection -> X) (o : outcome A) : keeps f (fail o).
Proof. intros c. reflexivity. Qed.

Lemma keeps_throw {X A} (f : connection -> X) e : keeps f (@throw _ A e).
Proof. intros c. reflexivity. Qed.

Lemma keeps_assert {X} (f : connection -> X) b : keeps f (assert b).
Proof. intros c. destruct b; reflexivity. Qed.

Lemma keeps_run_in {X T A} (f : connection -> X) (m : M T A) t :
  keeps f (run_in m t).
Proof. intros c. unfold run_in. destruct (m t) as [[a|e| |] t']; reflexivity. Qed.

Lemma keeps_get_version {X} (f : connection -> X) : keeps f get_version.
Proof. intros c. reflexivity. Qed.

Lemma keeps_frame_size {X} (f : connection -> X) : keeps f frame_size.
Proof. intros c. rewrite frame_size_eq. reflexivity. Qed.

Lemma keeps_parse_frame {X} (f : connection -> X) buf : keeps f (parse_frame buf).
Proof. intros c. rewrite parse_frame_pure. reflexivity. Qed.

Lemma keeps_if {X A} (f : connection -> X) (b : bool) (m1 m2 : M connection A) :
  keeps f m1 -> keeps f m2 -> keeps f (if b then m1 else m2).
Proof. destruct b; auto. Qed.

Lemma quiet_of_keeps {A} (m : M connection A) : keeps _write_buf m -> quiet m.
Proof. intros H c _. apply H. Qed.

Lemma quiet_bind {A B} (m : M connection A) (k : A -> M connection B) :
  keeps _write_buf m -> (forall a, quiet (k a)) -> quiet (bind m k).
Proof.
  intros Hm Hk c. unfold bind. specialize (Hm c).
  destruct (m c) as [[a|e| |] c1]; cbn [snd fst] in *; intros Hf;
    try assumption.
  rewrite Hk; assumption.
Qed.

Lemma quiet_write_flush msg : quiet (write_flush msg).
Proof. intros c Hf. exfalso. apply (Hf tt). reflexivity. Qed.

Lemma quiet_write_response r : quiet (write_response r).
Proof.
  unfold write_response.
  apply quiet_bind; [apply keeps_get_version|]. intros v.
  apply quiet_bind; [apply keeps_run_in|]. intros m. apply quiet_write_flush.
Qed.

Lemma quiet_write_ready stream : quiet (write_ready stream).
Proof. apply quiet_write_response. Qed.

Lemma quiet_write_supported stream : quiet (write_supported stream).
Proof.
  unfold write_supported. apply quiet_bind; [apply keeps_run_in|].
  intros r. apply quiet_write_response.
Qed.

Lemma keeps_write_flush_version msg : keeps _version (write_flush msg).
Proof. intros c. reflexivity. Qed.

Lemma keeps_write_response_version r : keeps _version (write_response r).
Proof.
  unfold write_response.
  apply keeps_bind; [apply keeps_get_version|]. intros v.
  apply keeps_bind; [apply keeps_run_in|]. intros m.
  apply keeps_write_flush_version.
Qed.

Lemma keeps_read_exactly_version n : keeps _version (read_exactly n).
Proof. intros c. reflexivity. Qed.

Lemma keeps_read_exactly_output n : keeps _write_buf (read_exactly n).
Proof. intros c. reflexivity. Qed.

Lemma keeps_set_version_output v : keeps _write_buf (set_version v).
Proof. intros c. reflexivity. Qed.

Create HintDb keeps.
#[local] Hint Resolve keeps_ret keeps_fail keeps_throw keeps_assert
  keeps_run_in keeps_get_version keeps_frame_size keeps_parse_frame
  keeps_write_response_version keeps_write_flush_version
  keeps_read_exactly_version
  keeps_read_exactly_output keeps_set_version_output
  quiet_write_flush quiet_write_response quiet_write_ready
  quiet_write_supported : keeps.

Ltac keeps_tac :=
  repeat first
    [ solve [auto with keeps]
    | apply keeps_bind; [|intros ?]
    | apply keeps_if
    | match goal with
      | |- keeps _ (match ?x with _ => _ end) => destruct x
      end ].

Lemma keeps_read_frame_output : keeps _write_buf read_frame.
Proof. unfold read_frame. keeps_tac. Qed.

Section Requests.

Variable parser_query : sstring -> bool.

Ltac case_opcode x :=
  destruct x as [|p|p];
  [ | do 4 (try destruct p as [p|p|]) | ].

Lemma quiet_process_request_body f buf :
  quiet (process_request_body parser_query f buf).
Proof.
  unfold process_request_body.
  apply quiet_bind; [auto with keeps|]. intros _. cbv zeta.
  case_opcode (cql_binary_frame_v3.opcode f);
    unfold process_query, process_batch, process_options, process_prepare,
      process_register, process_auth_response, process_execute,
      process_startup;
    first [ solve [auto with keeps]
          | solve [apply quiet_of_keeps; keeps_tac]
          | solve [apply quiet_bind; auto with keeps] ].
Qed.

Lemma quiet_process_request : quiet (process_request parser_query).
Proof.
  unfold process_request.
  apply quiet_bind; [apply keeps_read_frame_output|]. intros [f|].
  2: { apply quiet_of_keeps. auto with keeps. }
  apply quiet_bind; [auto with keeps|]. intros buf.
  apply quiet_process_request_body.
Qed.

Lemma keeps_process_request_body_version f buf :
  keeps _version (process_request_body parser_query f buf).
Proof.
  unfold process_request_body.
  apply keeps_bind; [auto with keeps|]. intros _. cbv zeta.
  case_opcode (cql_binary_frame_v3.opcode f);
    unfold process_query, process_batch, process_options, process_prepare,
      process_register, process_auth_response, process_execute,
      process_startup, write_supported, write_ready;
    keeps_tac.
Qed.

Lemma process_request_version c :
  _version (snd (process_request parser_query c)) = _version (snd (read_frame c)).
Proof.
  unfold process_request, bind at 1.
  destruct (read_frame c) as [[[f|]|e| |] c1]; cbn [snd]; try reflexivity.
  match goal with |- _version (snd (?m c1)) = _ =>
    assert (keeps _version m) as Hk end.
  { apply keeps_bind; [auto with keeps|]. intros buf.
    apply keeps_process_request_body_version. }
  apply Hk.
Qed.

Lemma read_frame_version c :
  _version (snd (read_frame c)) =
    if _version c =? 0
    then match _read_buf c with [] => 0 | b :: _ => u8 b end
    else _version c.
Proof.
  unfold read_frame. rewrite (bind_ok _ _ c (_version c) c) by reflexivity.
  destruct (Z.eqb_spec (_version c) 0) as [H0|Hne].
  - unfold bind at 1, read_exactly at 1. change (Z.to_nat 1) with 1%nat.
    destruct (_read_buf c) as [|b rest]; cbn [take snd _version].
    + assumption.
    + unfold bind at 1, set_version at 1. cbn [_version].
      match goal with |- _version (snd (?m ?c2)) = _ =>
        assert (keeps _version m) as Hk by keeps_tac; rewrite Hk end.
      reflexivity.
  - match goal with |- _version (snd (?m c)) = _ =>
      assert (keeps _version m) as Hk by keeps_tac; apply Hk end.
Qed.

Lemma process_loop_version fuel c o c' :
  _version c <> 0 ->
  process_loop parser_query fuel c = Some (o, c') ->
  _version c' = _version c.
Proof.
  revert c. induction fuel as [|fuel IH]; intros c Hv; cbn [process_loop];
    destruct (_eof c); try congruence.
  pose proof (process_request_version c) as Hreq.
  rewrite read_frame_version in Hreq.
  destruct (Z.eqb_spec (_version c) 0); [contradiction|].
  destruct (process_request parser_query c) as [[[]|e| |] c1];
    cbn [snd] in Hreq; intros H.
  - rewrite <- Hreq. apply IH; [congruence | assumption].
  - congruence.
  - congruence.
  - congruence.
Qed.

Lemma process_request_first_ok b rest c a c' :
  _version c = 0 -> _read_buf c = b :: rest ->
  process_request parser_query c = (Ok a, c') -> 1 <= u8 b <= 4.
Proof.
  intros H0 Hbuf Hreq.
  destruct (decide (1 <= u8 b <= 4)) as [|Hbad]; [assumption|].
  unfold process_request in Hreq.
  rewrite (bind_throw _ _ _ _ _ (read_frame_first_bad c b rest H0 Hbuf Hbad))
    in Hreq.
  discriminate.
Qed.

Lemma parse_header_mismatch v b tl :
  1 <= v <= 4 -> size_of (b :: tl) = header_size v -> u8 b <> v ->
  parse_header v (b :: tl) = Throw bad_cql_protocol_version.
Proof.
  intros Hv Hsz Hb. unfold header_size, size_of in Hsz.
  case_version v; cbn [Z.ltb Z.compare Pos.compare Pos.compare_cont] in Hsz;
    cbn [length] in Hsz;
    repeat (destruct tl as [|? tl]; cbn [length] in Hsz; try lia);
    rewrite ?parse_header_v1, ?parse_header_v3 by auto;
    match goal with |- context [u8 b =? ?k] =>
      destruct (Z.eqb_spec (u8 b) k); [contradiction | reflexivity]
    end.
Qed.

(** C2. The first byte read on a connection becomes its version and the
    version never changes afterwards: whatever the input and however many
    requests are processed, the connection ends with the version taken
    from the first byte (or with none when no byte arrived), and a request
    processed on a connection that has a version leaves it as it is. On a
    connection locked to a version in 1..4, a complete frame header whose
    version byte differs is rejected with [bad_cql_protocol_version]:
    [read_frame] throws it, the request and the loop of the connection end
    with it, and nothing has been written. *)
Theorem version_locked_mismatch_fatal :
  (forall input fuel o c',
      process_loop parser_query fuel (new_connection input) = Some (o, c') ->
      _version c' = match input with [] => 0 | b :: _ => u8 b end) /\
  (forall c, _version c <> 0 ->
      _version (snd (process_request parser_query c)) = _version c) /\
  (forall c b tl rest,
      1 <= _version c <= 4 -> _eof c = false ->
      _read_buf c = (b :: tl) ++ rest ->
      size_of (b :: tl) = header_size (_version c) ->
      u8 b <> _version c ->
      let c' := mk_connection (_version c) rest false (_write_buf c) in
      read_frame c = (Throw bad_cql_protocol_version, c') /\
      process_request parser_query c = (Throw bad_cql_protocol_version, c') /\
      process parser_query c = Some (Throw bad_cql_protocol_version, c')).
Proof.
  split; [|split].
  - intros input fuel o c' Hloop.
    destruct fuel as [|fuel]; [discriminate|]. cbn [process_loop] in Hloop.
    cbn [new_connection _eof] in Hloop.
    pose proof (process_request_version (new_connection input)) as Hreq.
    rewrite read_frame_version in Hreq. cbn [new_connection _version _read_buf] in Hreq.
    change (0 =? 0) with true in Hreq. cbv beta iota in Hreq.
    destruct (process_request parser_query (new_connection input))
      as [[[]|e| |] c1] eqn:E; cbn [snd] in Hreq; try congruence.
    destruct input as [|b rest].
    + (* no byte at all: the request raises eof and the loop stops *)
      assert (_eof c1 = true) as Heof.
      { vm_compute in E. inversion E. reflexivity. }
      destruct fuel; cbn [process_loop] in Hloop; rewrite Heof in Hloop;
        congruence.
    + pose proof (process_request_first_ok b rest (new_connection (b :: rest))
                    _ _ eq_refl eq_refl E).
      rewrite <- Hreq. apply (process_loop_version fuel c1 o c'); [lia|assumption].
  - intros c Hv. rewrite process_request_version, read_frame_version.
    destruct (Z.eqb_spec (_version c) 0); [contradiction | reflexivity].
  - intros c b tl rest Hv Heof Hbuf Hsz Hb c'.
    assert (read_frame c = (Throw bad_cql_protocol_version, c')) as Hrf.
    { rewrite (read_frame_established c (b :: tl) rest Hv Hbuf Hsz).
      rewrite parse_header_mismatch by assumption. rewrite Heof. reflexivity. }
    assert (process_request parser_query c
            = (Throw bad_cql_protocol_version, c')) as Hreq.
    { unfold process_request. apply bind_throw. exact Hrf. }
    repeat split; try assumption.
    unfold process. cbn [process_loop]. rewrite Heof, Hreq. reflexivity.
Qed.

End Requests.

Lemma version_locked_mismatch_fatal_witness :
  let c := mk_connection 3 [4; 0; 0; 7; 5; 0; 0; 0; 0; 1; 2] false [9] in
  process (fun _ => true) c =
    Some (Throw bad_cql_protocol_version, mk_connection 3 [1; 2] false [9]).
Proof.
  intros c.
  destruct (version_locked_mismatch_fatal (fun _ => true)) as (_ & _ & H).
  apply (H c 4 [0; 0; 7; 5; 0; 0; 0; 0] [1; 2]);
    [simpl; lia | reflexivity | reflexivity | reflexivity
    | vm_compute; discriminate].
Defined.

(** ** Frames as the connection reads them *)

Lemma u8_u8 x : u8 (u8 x) = u8 x.
Proof. apply u8_small, u8_range. Qed.

Lemma header_fields_u8 v b tl :
  header_fields v (u8 b :: tl) = header_fields v (b :: tl).
Proof.
  unfold header_fields, ntoh_v1, ntoh_v3.
  destruct (v <? 3); do 9 (try destruct tl as [|? tl]); try reflexivity;
    rewrite u8_u8; reflexivity.
Qed.

Lemma header_fields_head v a b l f :
  header_fields v (a :: b :: l) = Some f ->
  cql_binary_frame_v3.version f = u8 a /\ cql_binary_frame_v3.flags f = u8 b.
Proof.
  unfold header_fields, ntoh_v1, ntoh_v3.
  destruct (v <? 3); do 8 (try destruct l as [|? l]); intros H;
    try discriminate; inversion H; split; reflexivity.
Qed.

Lemma header_fields_size v hdr f :
  header_fields v hdr = Some f -> size_of hdr = header_size v.
Proof.
  unfold header_fields, header_size, ntoh_v1, ntoh_v3.
  destruct (v <? 3); do 10 (try destruct hdr as [|? hdr]); intros H;
    try discriminate; reflexivity.
Qed.

Lemma parse_header_fields v hdr :
  1 <= v <= 4 -> size_of hdr = header_size v ->
  exists f,
    header_fields v hdr = Some f /\
    parse_header v hdr =
      if cql_binary_frame_v3.version f =? v then Ok f
      else Throw bad_cql_protocol_version.
Proof.
  intros Hv Hsz. unfold header_size, size_of in Hsz. unfold header_fields.
  case_version v; cbn [Z.ltb Z.compare Pos.compare Pos.compare_cont] in *;
    repeat (destruct hdr as [|? hdr]; cbn [length] in Hsz; try lia);
    rewrite ?parse_header_v1, ?parse_header_v3 by auto;
    (eexists; split; [reflexivity|]); reflexivity.
Qed.

Lemma parse_header_bad_version v buf f :
  ~ (1 <= v <= 4) -> parse_header v buf <> Ok f.
Proof.
  intros Hv.
  cbv beta iota delta [parse_header parse_frame bind frame_size get_version
                       throw fail ret _version fst].
  destruct (v <? 3); cbv beta iota;
    match goal with |- context [size_of ?b =? ?k] =>
      destruct (size_of b =? k) end; cbn [negb]; try discriminate.
  all: destruct v as [|p|p]; try discriminate.
  all: do 3 (try destruct p as [p|p|]; try discriminate); lia.
Qed.

Lemma parse_header_inv v buf f :
  parse_header v buf = Ok f ->
  1 <= v <= 4 /\ header_fields v buf = Some f /\
  cql_binary_frame_v3.version f = v.
Proof.
  intros H.
  destruct (decide (1 <= v <= 4)) as [Hv|Hv];
    [|exfalso; exact (parse_header_bad_version v buf f Hv H)].
  destruct (decide (size_of buf = header_size v)) as [Hsz|Hsz];
    [|rewrite parse_header_size in H by assumption; discriminate].
  destruct (parse_header_fields v buf Hv Hsz) as (f' & Hf & Hp).
  rewrite Hp in H.
  destruct (Z.eqb_spec (cql_binary_frame_v3.version f') v); [|discriminate].
  inversion H; subst f'. auto.
Qed.

(** A complete header of version [v], read on a connection that is
    locked to [v] or has no version yet. *)
Lemma read_frame_frame c v b0 tl rest f :
  1 <= v <= 4 -> _version c = 0 \/ _version c = v ->
  _read_buf c = (b0 :: tl) ++ rest ->
  u8 b0 = v ->
  header_fields v (b0 :: tl) = Some f ->
  read_frame c =
    (Ok (Some f), mk_connection v rest (_eof c) (_write_buf c)).
Proof.
  intros Hv Hc Hbuf Hb Hf.
  pose proof (header_fields_size _ _ _ Hf) as Hsz.
  assert (cql_binary_frame_v3.version f = v) as Hfv.
  { destruct tl as [|b1 tl];
      [unfold header_size, size_of in Hsz; cbn [length] in Hsz;
       destruct (v <? 3); lia|].
    destruct (header_fields_head _ _ _ _ _ Hf) as [-> _]. exact Hb. }
  destruct Hc as [H0|Hc].
  - rewrite (read_frame_first c b0 tl rest H0 Hbuf); rewrite ?Hb;
      [|lia|rewrite size_of_cons in Hsz; lia].
    destruct (parse_header_fields v (v :: tl) Hv) as (f' & Hf' & Hp).
    { rewrite size_of_cons in *. lia. }
    rewrite <- Hb, header_fields_u8, Hb, Hf in Hf'. inversion Hf'; subst f'.
    rewrite Hp, Hfv, Z.eqb_refl. reflexivity.
  - rewrite (read_frame_established c (b0 :: tl) rest); rewrite ?Hc;
      [|lia|assumption|assumption].
    destruct (parse_header_fields v (b0 :: tl) Hv Hsz) as (f' & Hf' & Hp).
    rewrite Hf in Hf'. inversion Hf'; subst f'.
    rewrite Hp, Hfv, Z.eqb_refl. reflexivity.
Qed.

(** Whenever [read_frame] returns with at least two bytes of input in
    front of it, it returns a frame, and the flags of that frame are the
    second byte. *)
Lemma read_frame_ok_inv c b0 b1 rest mf c1 :
  _read_buf c = b0 :: b1 :: rest ->
  read_frame c = (Ok mf, c1) ->
  exists f, mf = Some f /\ cql_binary_frame_v3.flags f = u8 b1.
Proof.
  intros Hbuf H. unfold read_frame in H.
  rewrite (bind_ok _ _ c (_version c) c) in H by reflexivity.
  destruct (Z.eqb_spec (_version c) 0) as [H0|Hne].
  - rewrite (bind_ok _ _ _ _ _
               (read_exactly_app 1 [b0] (b1 :: rest) c Hbuf eq_refl)) in H.
    set (c1' := mk_connection (_version c) (b1 :: rest) (_eof c) (_write_buf c)) in H.
    set (c2 := mk_connection (u8 b0) (b1 :: rest) (_eof c) (_write_buf c)) in H.
    rewrite (bind_ok _ _ c1' tt c2) in H by reflexivity.
    rewrite (bind_ok _ _ c2 (u8 b0) c2) in H by reflexivity.
    destruct ((u8 b0 <? 1) || (4 <? u8 b0)); [discriminate|].
    rewrite (bind_ok _ _ _ _ _ (frame_size_eq c2)) in H.
    unfold bind at 1, read_exactly at 1 in H. cbn [_version _read_buf c2] in H.
    destruct (size_of (take (Z.to_nat (header_size (u8 b0) - 1)) (b1 :: rest))
              <? header_size (u8 b0) - 1); [discriminate|].
    rewrite bind_map_ret, parse_frame_pure in H. cbn [fst snd _version] in H.
    destruct (parse_header (u8 b0) _) as [f|e| |] eqn:P; try discriminate.
    exists f. split; [inversion H; reflexivity|].
    apply parse_header_inv in P. destruct P as (_ & Hf & _).
    destruct (header_size_cases (u8 b0)) as [E|E]; rewrite E in Hf;
      change (Z.to_nat (8 - 1)) with 7%nat in Hf;
      change (Z.to_nat (9 - 1)) with 8%nat in Hf;
      cbn [take] in Hf;
      apply header_fields_head in Hf; apply Hf.
  - rewrite (bind_ok _ _ _ _ _ (frame_size_eq c)) in H.
    unfold bind at 1, read_exactly at 1 in H. rewrite Hbuf in H.
    destruct (header_size_cases (_version c)) as [E|E]; rewrite E in H;
      change (Z.to_nat 8) with 8%nat in H; change (Z.to_nat 9) with 9%nat in H;
      cbn [take] in H;
      rewrite bind_map_ret, parse_frame_pure in H; cbn [fst snd _version] in H;
      (destruct (parse_header (_version c) _) as [f|e| |] eqn:P;
       try discriminate);
      exists f; (split; [inversion H; reflexivity|]);
      apply parse_header_inv in P; destruct P as (_ & Hf & _);
      apply header_fields_head in Hf; apply Hf.
Qed.

Section Dispatch.

Variable parser_query : sstring -> bool.

(** A complete frame: header of version [v], then the body the header
    announces. The connection reads both and runs the continuation. *)
Lemma process_request_frame c v b0 tl body rest f :
  1 <= v <= 4 -> _version c = 0 \/ _version c = v ->
  _read_buf c = (b0 :: tl) ++ body ++ rest ->
  u8 b0 = v ->
  header_fields v (b0 :: tl) = Some f ->
  size_of body = cql_binary_frame_v3.length f ->
  process_request parser_query c =
    process_request_body parser_query f body
      (mk_connection v rest (_eof c) (_write_buf c)).
Proof.
  intros Hv Hc Hbuf Hb Hf Hlen. unfold process_request.
  rewrite (bind_ok _ _ _ _ _
             (read_frame_frame c v b0 tl (body ++ rest) f Hv Hc Hbuf Hb Hf)).
  rewrite (bind_ok _ _ _ _ _
             (read_exactly_app _ body rest
                (mk_connection v (body ++ rest) (_eof c) (_write_buf c))
                eq_refl Hlen)).
  reflexivity.
Qed.

Lemma process_failure c o c' :
  _eof c = false ->
  process_request parser_query c = (o, c') ->
  (forall a, o <> Ok a) ->
  process parser_query c = Some (o, c').
Proof.
  intros Heof Hreq Ho. unfold process. cbn [process_loop].
  rewrite Heof, Hreq. destruct o as [[]| | |]; try reflexivity.
  exfalso. apply (Ho tt). reflexivity.
Qed.

(** C7, as the code has it. A frame with a complete header of the
    version of the connection (or the first on the connection) whose
    flags byte has bit 0x01 set reaches no handler: the body that the
    header announces is read, or what is left of the input, and the
    assertion on the flags fails. That ends the whole process and not
    only this connection: no exception is raised to the connection, no
    response is written for the frame, and nothing after it is read. *)
Theorem compression_flag_aborts c v b0 tl rest f :
  1 <= v <= 4 -> _version c = 0 \/ _version c = v ->
  _eof c = false ->
  _read_buf c = (b0 :: tl) ++ rest ->
  u8 b0 = v ->
  header_fields v (b0 :: tl) = Some f ->
  Z.land (cql_binary_frame_v3.flags f) 0x01 <> 0 ->
  let c' := after_read v (cql_binary_frame_v3.length f) rest false
              (_write_buf c) in
  process_request parser_query c = (Abort, c') /\
  process parser_query c = Some (Abort, c').
Proof.
  intros Hv Hc Heof Hbuf Hb Hf Hflag c'.
  assert (process_request parser_query c = (Abort, c')) as Hreq.
  { unfold process_request.
    rewrite (bind_ok _ _ _ _ _
               (read_frame_frame c v b0 tl rest f Hv Hc Hbuf Hb Hf)).
    unfold bind at 1, read_exactly at 1.
    cbn [_version _read_buf _eof _write_buf].
    unfold process_request_body. unfold bind at 1, assert.
    destruct (Z.eqb_spec (Z.land (cql_binary_frame_v3.flags f) 1) 0);
      [contradiction|].
    unfold fail, c', after_read. rewrite Heof. reflexivity. }
  split; [exact Hreq|].
  apply process_failure; [assumption..|discriminate].
Qed.

(** C4, as the code has it. A complete frame without the compression flag
    whose opcode is AUTH_RESPONSE, PREPARE, EXECUTE or BATCH reaches a
    handler that consists of [assert(0)]: after the body has been read the
    request ends in the failed assertion, which ends the process. No
    response is written, neither an ERROR frame nor any other, and the
    bytes that follow the frame are never read. *)
Theorem unimplemented_opcode_aborts c v b0 tl body rest f :
  1 <= v <= 4 -> _version c = 0 \/ _version c = v ->
  _eof c = false ->
  _read_buf c = (b0 :: tl) ++ body ++ rest ->
  u8 b0 = v ->
  header_fields v (b0 :: tl) = Some f ->
  size_of body = cql_binary_frame_v3.length f ->
  Z.land (cql_binary_frame_v3.flags f) 0x01 = 0 ->
  cql_binary_frame_v3.opcode f ∈
    map opcode_code [AUTH_RESPONSE; PREPARE; EXECUTE; BATCH] ->
  let c' := mk_connection v rest false (_write_buf c) in
  process_request parser_query c = (Abort, c') /\
  process parser_query c = Some (Abort, c').
Proof.
  intros Hv Hc Heof Hbuf Hb Hf Hlen Hflag Hop c'.
  assert (process_request parser_query c = (Abort, c')) as Hreq.
  { rewrite (process_request_frame c v b0 tl body rest f) by assumption.
    unfold process_request_body. unfold bind at 1, assert.
    rewrite Hflag. change (0 =? 0) with true. cbv beta iota zeta.
    unfold ret at 1. cbv beta iota. rewrite Heof. fold c'.
    cbn [map opcode_code] in Hop.
    repeat (apply elem_of_cons in Hop; destruct Hop as [->|Hop]);
      [reflexivity .. | apply elem_of_nil in Hop; contradiction]. }
  split; [exact Hreq|].
  apply process_failure; [assumption..|discriminate].
Qed.

End Dispatch.

Lemma compression_flag_aborts_witness :
  process (fun _ => true)
    (mk_connection 3 [3; 1; 0; 7; 5; 0; 0; 0; 0] false [])
  = Some (Abort, mk_connection 3 [] false []).
Proof.
  destruct (compression_flag_aborts (fun _ => true)
              (mk_connection 3 [3; 1; 0; 7; 5; 0; 0; 0; 0] false [])
              3 3 [1; 0; 7; 5; 0; 0; 0; 0] []
              (cql_binary_frame_v3.mk 3 1 7 5 0))
    as [_ H];
    [lia | right; reflexivity | reflexivity | reflexivity | reflexivity
    | reflexivity | vm_compute; discriminate |].
  exact H.
Defined.

(** C7 as stated fails: an OPTIONS frame of version 3 with the
    compression flag set raises no protocol error on its connection. The
    request ends in the failed assertion on the flags, which ends the
    process, while a frame that the server does refuse with a protocol
    error, the same frame with version byte 5, ends in
    [bad_cql_protocol_version]. *)
Lemma compression_flag_counterexample :
  process (fun _ => true) (new_connection [3; 1; 0; 7; 5; 0; 0; 0; 0])
  = Some (Abort, mk_connection 3 [] false []) /\
  ~ (exists e c',
        process (fun _ => true) (new_connection [3; 1; 0; 7; 5; 0; 0; 0; 0])
        = Some (Throw e, c')) /\
  process (fun _ => true) (new_connection [5; 1; 0; 7; 5; 0; 0; 0; 0])
  = Some (Throw bad_cql_protocol_version,
          mk_connection 5 [1; 0; 7; 5; 0; 0; 0; 0] false []).
Proof.
  split; [reflexivity|]. split; [|reflexivity].
  intros (e & c' & H). vm_compute in H. discriminate.
Qed.

Lemma unimplemented_opcode_aborts_witness :
  process (fun _ => true)
    (new_connection ([3; 0; 0; 7; 10; 0; 0; 0; 0] ++ [3; 0; 0; 8; 5; 0; 0; 0; 0]))
  = Some (Abort, mk_connection 3 [3; 0; 0; 8; 5; 0; 0; 0; 0] false []).
Proof.
  apply (unimplemented_opcode_aborts (fun _ => true)
           (new_connection ([3; 0; 0; 7; 10; 0; 0; 0; 0]
                            ++ [3; 0; 0; 8; 5; 0; 0; 0; 0]))
           3 3 [0; 0; 7; 10; 0; 0; 0; 0] [] [3; 0; 0; 8; 5; 0; 0; 0; 0]
           (cql_binary_frame_v3.mk 3 0 7 10 0));
    [lia | left; reflexivity | reflexivity | reflexivity | reflexivity
    | reflexivity | reflexivity | reflexivity | vm_compute; set_solver].
Defined.

(** C4 as stated fails: on a connection that receives an EXECUTE frame
    (version 3, stream 7, empty body) followed by an OPTIONS frame, the
    loop ends in the failed assertion of [process_execute] with nothing
    written and the OPTIONS frame unread, whereas the ERROR frame that
    [write_error] would send for stream 7 is not empty. *)
Lemma unimplemented_opcode_counterexample :
  process (fun _ => true)
    (new_connection ([3; 0; 0; 7; 10; 0; 0; 0; 0] ++ [3; 0; 0; 8; 5; 0; 0; 0; 0]))
  = Some (Abort, mk_connection 3 [3; 0; 0; 8; 5; 0; 0; 0; 0] false []) /\
  _write_buf (snd (write_error 7 SERVER_ERROR (lit "not implemented")
                     (mk_connection 3 [3; 0; 0; 8; 5; 0; 0; 0; 0] false [])))
  = [131; 0; 0; 7; 0; 0; 0; 0; 21; 0; 0; 0; 0; 0; 15]
    ++ lit "not implemented" /\
  ~ (exists c',
        process_request (fun _ => true)
          (new_connection ([3; 0; 0; 7; 10; 0; 0; 0; 0]
                           ++ [3; 0; 0; 8; 5; 0; 0; 0; 0])) = (Ok tt, c')).
Proof.
  split; [reflexivity|]. split; [reflexivity|].
  intros [c' H]. vm_compute in H. discriminate.
Qed.

(** ** The readers and the end of the buffer *)

Lemma no_throw_bind {S A B} (m : M S A) (k : A -> M S B) :
  no_throw m -> (forall a, no_throw (k a)) -> no_throw (bind m k).
Proof.
  intros Hm Hk s e. unfold bind. specialize (Hm s).
  destruct (m s) as [[a|e'| |] s1]; cbn [fst] in *; try discriminate.
  - apply Hk.
  - intros H. apply (Hm e'). reflexivity.
Qed.

Lemma no_throw_ret {S A} (a : A) : no_throw (@ret S A a).
Proof. intros s e. discriminate. Qed.

Lemma no_throw_assert {S} b : no_throw (@assert S b).
Proof. intros s e. destruct b; discriminate. Qed.

Lemma no_throw_byte_at i : no_throw (byte_at i).
Proof. intros s e. unfold byte_at. destruct (s !! i); discriminate. Qed.

Lemma no_throw_trim_front n : no_throw (trim_front n).
Proof. intros s e. unfold trim_front. destruct (_ <? _); discriminate. Qed.

Lemma no_throw_wire_to_consistency {S} v :
  no_throw (@fail S _ (wire_to_consistency v)).
Proof.
  intros s e. unfold fail. cbn [fst].
  destruct (decide (0 <= v <= 10)) as [Hv|Hv].
  - assert (v = 0 \/ v = 1 \/ v = 2 \/ v = 3 \/ v = 4 \/ v = 5 \/ v = 6
            \/ v = 7 \/ v = 8 \/ v = 9 \/ v = 10) as Hc by lia.
    repeat destruct Hc as [->|Hc]; try subst v; discriminate.
  - rewrite wire_to_consistency_range by assumption. discriminate.
Qed.

Create HintDb readers.
#[local] Hint Resolve no_throw_ret no_throw_assert no_throw_byte_at
  no_throw_trim_front no_throw_wire_to_consistency : readers.

Ltac no_throw_tac :=
  repeat first
    [ solve [auto with readers]
    | apply no_throw_bind; [|intros ?] ].

Lemma no_throw_read_byte : no_throw read_byte.
Proof. unfold read_byte. no_throw_tac. Qed.

Lemma no_throw_read_short : no_throw read_short.
Proof. unfold read_short. no_throw_tac. Qed.

Lemma no_throw_read_int : no_throw read_int.
Proof. unfold read_int. no_throw_tac. Qed.

Lemma no_throw_read_long : no_throw read_long.
Proof. unfold read_long. no_throw_tac. Qed.

#[local] Hint Resolve no_throw_read_byte no_throw_read_short
  no_throw_read_int no_throw_read_long : readers.

Lemma no_throw_read_consistency : no_throw read_consistency.
Proof. unfold read_consistency. no_throw_tac. Qed.

#[local] Hint Resolve no_throw_read_consistency : readers.

Lemma overflow_only_of_no_throw {S A} (m : M S A) :
  no_throw m -> overflow_only m.
Proof. intros H s e He. exfalso. exact (H s e He). Qed.

Lemma overflow_only_bind {S A B} (m : M S A) (k : A -> M S B) :
  overflow_only m -> (forall a, overflow_only (k a)) ->
  overflow_only (bind m k).
Proof.
  intros Hm Hk s e. unfold bind. specialize (Hm s).
  destruct (m s) as [[a|e'| |] s1]; cbn [fst] in *; try discriminate.
  - apply Hk.
  - intros H. inversion H; subst e'. apply Hm. reflexivity.
Qed.

Lemma overflow_only_sstring_from n : overflow_only (sstring_from n).
Proof.
  intros s e. unfold sstring_from.
  destruct (negb _); [intros H; inversion H; reflexivity|].
  destruct (_ <? _); discriminate.
Qed.

Ltac overflow_only_tac :=
  repeat first
    [ solve [apply overflow_only_of_no_throw; auto with readers]
    | apply overflow_only_sstring_from
    | apply overflow_only_bind; [|intros ?] ].

Lemma overflow_only_read_string : overflow_only read_string.
Proof. unfold read_string. overflow_only_tac. Qed.

Lemma overflow_only_read_long_string : overflow_only read_long_string.
Proof. unfold read_long_string. overflow_only_tac. Qed.

Lemma overflow_only_read_string_map_loop k m :
  overflow_only (read_string_map_loop k m).
Proof.
  revert m. induction k as [|k IH]; intros m; cbn [read_string_map_loop].
  - apply overflow_only_of_no_throw. auto with readers.
  - apply overflow_only_bind; [apply overflow_only_read_string|]. intros key.
    apply overflow_only_bind; [apply overflow_only_read_string|]. intros val.
    apply IH.
Qed.

Lemma overflow_only_read_string_map : overflow_only read_string_map.
Proof.
  unfold read_string_map.
  apply overflow_only_bind;
    [apply overflow_only_of_no_throw; auto with readers|].
  intros n. apply overflow_only_read_string_map_loop.
Qed.

Lemma no_throw_fixed_width op :
  op ∉ [rd_short_string; rd_long_string; rd_string_map] ->
  no_throw (run_read op).
Proof.
  intros Hop. destruct op; cbn [run_read]; try solve [no_throw_tac];
    exfalso; apply Hop; repeat constructor.
Qed.

Lemma overflow_only_run_read op : overflow_only (run_read op).
Proof.
  destruct op; cbn [run_read];
    (apply overflow_only_bind;
     [| intros ?; apply overflow_only_of_no_throw; auto with readers]);
    first [ apply overflow_only_read_string
          | apply overflow_only_read_long_string
          | apply overflow_only_read_string_map
          | apply overflow_only_of_no_throw; auto with readers ].
Qed.

Lemma advances_weaken {A} w w' (m : M temporary_buffer A) :
  advances_by w m -> w' <= w -> advances_by w' m.
Proof.
  intros Hm Hw buf a rest H. destruct (Hm buf a rest H) as (used & Hu & Hs).
  exists used. split; [assumption | lia].
Qed.

Lemma advances_bind {A B} w1 w2 (m : M temporary_buffer A)
    (k : A -> M temporary_buffer B) :
  advances_by w1 m -> (forall a, advances_by w2 (k a)) ->
  advances_by (w1 + w2) (bind m k).
Proof.
  intros Hm Hk buf b rest H. unfold bind in H.
  destruct (m buf) as [[a|e| |] buf1] eqn:E; try discriminate.
  destruct (Hm buf a buf1 E) as (u1 & -> & H1).
  destruct (Hk a buf1 b rest H) as (u2 & -> & H2).
  exists (u1 ++ u2). split; [apply app_assoc|]. rewrite size_of_app. lia.
Qed.

Lemma advances_ret {A} (a : A) : advances_by 0 (ret a).
Proof. intros buf a' rest H. inversion H. exists []. split; [reflexivity|]. reflexivity. Qed.

Lemma advances_fail {A} (o : outcome A) : advances_by 0 (fail o).
Proof. intros buf a' rest H. inversion H. exists []. split; reflexivity. Qed.

Lemma advances_assert b : advances_by 0 (assert b).
Proof.
  intros buf a' rest H. destruct b; inversion H.
  exists []. split; reflexivity.
Qed.

Lemma advances_byte_at i : advances_by 0 (byte_at i).
Proof.
  intros buf a rest H. unfold byte_at in H.
  destruct (buf !! i); inversion H. exists []. split; reflexivity.
Qed.

Lemma advances_sstring_from n : advances_by 0 (sstring_from n).
Proof.
  intros buf a rest H. unfold sstring_from in H.
  destruct (negb _); [discriminate|].
  destruct (_ <? _); inversion H. exists []. split; reflexivity.
Qed.

Lemma advances_trim_front n : advances_by n (trim_front n).
Proof.
  intros buf a rest H. unfold trim_front in H.
  destruct (Z.ltb_spec (Z.of_nat (length buf)) n); inversion H.
  exists (take (Z.to_nat n) buf). split; [symmetry; apply take_drop|].
  unfold size_of. rewrite length_take. lia.
Qed.

#[local] Hint Resolve advances_ret advances_fail advances_assert
  advances_byte_at advances_sstring_from advances_trim_front : readers.

Ltac advances_tac :=
  eapply advances_weaken;
  [ repeat first
      [ solve [auto with readers]
      | eapply advances_bind; [|intros ?] ]
  | cbn; lia ].

Lemma advances_read_byte : advances_by 1 read_byte.
Proof. unfold read_byte. advances_tac. Qed.

Lemma advances_read_short : advances_by 2 read_short.
Proof. unfold read_short. advances_tac. Qed.

Lemma advances_read_int : advances_by 4 read_int.
Proof. unfold read_int. advances_tac. Qed.

Lemma advances_read_long : advances_by 8 read_long.
Proof. unfold read_long. advances_tac. Qed.

#[local] Hint Resolve advances_read_byte advances_read_short
  advances_read_int advances_read_long : readers.

Lemma advances_read_string : advances_by 2 read_string.
Proof.
  unfold read_string.
  apply (advances_bind 2 0); [auto with readers|]. intros n.
  apply (advances_bind 0 0); [auto with readers|]. intros s.
  apply (advances_bind 0 0); [auto with readers|]. intros _.
  apply (advances_weaken (size_t n + 0)).
  - apply advances_bind; [auto with readers|]. intros _. auto with readers.
  - unfold size_t, u64. pose proof (Z.mod_pos_bound n (2^64)). lia.
Qed.

Lemma advances_read_long_string : advances_by 4 read_long_string.
Proof.
  unfold read_long_string.
  apply (advances_bind 4 0); [auto with readers|]. intros n.
  apply (advances_bind 0 0); [auto with readers|]. intros s.
  apply (advances_weaken (size_t n + 0)).
  - apply advances_bind; [auto with readers|]. intros _. auto with readers.
  - unfold size_t, u64. pose proof (Z.mod_pos_bound n (2^64)). lia.
Qed.

Lemma advances_read_consistency : advances_by 2 read_consistency.
Proof. unfold read_consistency. advances_tac. Qed.

#[local] Hint Resolve advances_read_string advances_read_long_string
  advances_read_consistency : readers.

Lemma advances_read_string_map_loop k m :
  advances_by 0 (read_string_map_loop k m).
Proof.
  revert m. induction k as [|k IH]; intros m; cbn [read_string_map_loop].
  - auto with readers.
  - apply (advances_weaken (2 + (2 + 0))); [|lia].
    apply advances_bind; [auto with readers|]. intros key.
    apply advances_bind; [auto with readers|]. intros val. apply IH.
Qed.

Lemma advances_read_string_map : advances_by 2 read_string_map.
Proof.
  unfold read_string_map. apply (advances_bind 2 0); [auto with readers|].
  intros n. apply advances_read_string_map_loop.
Qed.

#[local] Hint Resolve advances_read_string_map : readers.

Lemma advances_run_read op : advances_by (prefix_width op) (run_read op).
Proof. destruct op; cbn [run_read prefix_width]; advances_tac. Qed.

Lemma run_read_short_prefix op buf :
  size_of buf < prefix_width op -> run_read op buf = (Undefined, buf).
Proof.
  intros H. unfold size_of in H.
  destruct op; cbn [prefix_width] in H;
    do 8 (try destruct buf as [|? buf]; cbn [length] in H; try lia);
    reflexivity.
Qed.

Lemma i16_range x : - 32768 <= i16 x < 32768.
Proof.
  unfold i16, signed. change (2 ^ (16 - 1)) with 32768.
  change (2 ^ 16) with 65536. Z.div_mod_to_equations. lia.
Qed.

Lemma i32_range x : - 2147483648 <= i32 x < 2147483648.
Proof.
  unfold i32, signed. change (2 ^ (32 - 1)) with 2147483648.
  change (2 ^ 32) with 4294967296. Z.div_mod_to_equations. lia.
Qed.

Lemma size_t_nonneg n : 0 <= n < 4294967296 -> size_t n = n.
Proof.
  intros H. unfold size_t, u64. change (2^64) with 18446744073709551616.
  apply Z.mod_small. lia.
Qed.

Lemma size_t_negative n :
  - 4294967296 <= n < 0 -> size_t n = 18446744073709551616 + n.
Proof.
  intros H. unfold size_t, u64. change (2^64) with 18446744073709551616.
  Z.div_mod_to_equations. lia.
Qed.

Lemma read_string_short_body b0 b1 rest :
  0 <= i16 (u16 (ntohs b0 b1)) ->
  size_of rest < i16 (u16 (ntohs b0 b1)) ->
  read_string (b0 :: b1 :: rest) = (Undefined, rest).
Proof.
  intros H0 H. unfold read_string.
  rewrite (bind_ok _ _ _ _ _ (read_short_cons b0 b1 rest)).
  pose proof (i16_range (u16 (ntohs b0 b1))) as Hr.
  apply bind_undefined. rewrite size_t_nonneg by lia.
  apply sstring_from_short; [lia | assumption].
Qed.

Lemma read_long_string_short_body b0 b1 b2 b3 rest :
  0 <= i32 (ntohl b0 b1 b2 b3) ->
  size_of rest < i32 (ntohl b0 b1 b2 b3) ->
  read_long_string (b0 :: b1 :: b2 :: b3 :: rest) = (Undefined, rest).
Proof.
  intros H0 H. unfold read_long_string.
  rewrite (bind_ok _ _ _ _ _ (read_int_cons b0 b1 b2 b3 rest)).
  pose proof (i32_range (ntohl b0 b1 b2 b3)) as Hr.
  apply bind_undefined. rewrite size_t_nonneg by lia.
  apply sstring_from_short; [lia | assumption].
Qed.

Lemma read_string_negative b0 b1 rest :
  i16 (u16 (ntohs b0 b1)) < 0 ->
  read_string (b0 :: b1 :: rest) = (Throw overflow_error, rest).
Proof.
  intros H. unfold read_string.
  rewrite (bind_ok _ _ _ _ _ (read_short_cons b0 b1 rest)).
  pose proof (i16_range (u16 (ntohs b0 b1))) as Hr.
  apply bind_throw. rewrite size_t_negative by lia.
  apply sstring_from_overflow. lia.
Qed.

Lemma read_long_string_negative b0 b1 b2 b3 rest :
  i32 (ntohl b0 b1 b2 b3) < 0 ->
  read_long_string (b0 :: b1 :: b2 :: b3 :: rest)
    = (Throw overflow_error, rest).
Proof.
  intros H. unfold read_long_string.
  rewrite (bind_ok _ _ _ _ _ (read_int_cons b0 b1 b2 b3 rest)).
  pose proof (i32_range (ntohl b0 b1 b2 b3)) as Hr.
  apply bind_throw. rewrite size_t_negative by lia.
  apply sstring_from_overflow. lia.
Qed.

(** C3, as the code has it. No read operation checks the bytes that
    remain, and there is no truncation error. When the buffer is shorter
    than the fixed width of the value, or than the length or count in
    front of a string or map, and when a string announces a length of
    zero or more that exceeds the bytes that remain, the operation reads
    past the end of the buffer. The only error a read can raise is the
    [std::overflow_error] of the string constructor, and only the string
    and map reads can raise it: it is raised when the announced length of
    a string is negative, whatever bytes remain, and so is no check of
    the remaining length. *)
Theorem reads_are_unchecked :
  (forall op buf e,
      fst (run_read op buf) = Throw e ->
      e = overflow_error /\
      op ∈ [rd_short_string; rd_long_string; rd_string_map]) /\
  (forall op buf,
      size_of buf < prefix_width op -> run_read op buf = (Undefined, buf)) /\
  (forall b0 b1 rest,
      0 <= i16 (u16 (ntohs b0 b1)) ->
      size_of rest < i16 (u16 (ntohs b0 b1)) ->
      read_string (b0 :: b1 :: rest) = (Undefined, rest)) /\
  (forall b0 b1 b2 b3 rest,
      0 <= i32 (ntohl b0 b1 b2 b3) ->
      size_of rest < i32 (ntohl b0 b1 b2 b3) ->
      read_long_string (b0 :: b1 :: b2 :: b3 :: rest) = (Undefined, rest)) /\
  (forall b0 b1 rest,
      i16 (u16 (ntohs b0 b1)) < 0 ->
      read_string (b0 :: b1 :: rest) = (Throw overflow_error, rest)) /\
  (forall b0 b1 b2 b3 rest,
      i32 (ntohl b0 b1 b2 b3) < 0 ->
      read_long_string (b0 :: b1 :: b2 :: b3 :: rest)
        = (Throw overflow_error, rest)).
Proof.
  split; [|split; [|split; [|split; [|split]]]].
  - intros op buf e He. split; [exact (overflow_only_run_read op buf e He)|].
    destruct op; try solve [repeat constructor]; exfalso;
      refine (no_throw_fixed_width _ _ buf e He); intros Hin;
      repeat (apply elem_of_cons in Hin; destruct Hin as [Hin|Hin];
              [discriminate|]);
      apply elem_of_nil in Hin; exact Hin.
  - apply run_read_short_prefix.
  - apply read_string_short_body.
  - apply read_long_string_short_body.
  - apply read_string_negative.
  - apply read_long_string_negative.
Qed.

Lemma reads_are_unchecked_witness :
  run_read rd_i32 [0; 0; 0] = (Undefined, [0; 0; 0]) /\
  read_string [0; 5; 65] = (Undefined, [65]) /\
  read_string [128; 0; 65; 66] = (Throw overflow_error, [65; 66]).
Proof.
  destruct reads_are_unchecked as (_ & Hshort & Hstr & _ & Hneg & _).
  split; [|split].
  - apply (Hshort rd_i32 [0; 0; 0]). vm_compute. reflexivity.
  - apply (Hstr 0 5 [65]); vm_compute; [discriminate | reflexivity].
  - apply (Hneg 128 0 [65; 66]). vm_compute. reflexivity.
Defined.

(** C3 as stated fails: [read_int] on a buffer of three bytes, and
    [read_string] on a string that announces five bytes and holds one,
    read past the end of the buffer; neither throws an error. *)
Lemma truncated_read_counterexample :
  read_int [0; 0; 0] = (Undefined, [0; 0; 0]) /\
  read_string [0; 5; 65] = (Undefined, [65]) /\
  ~ (exists e, fst (read_int [0; 0; 0]) = Throw e) /\
  ~ (exists e, fst (read_string [0; 5; 65]) = Throw e).
Proof.
  split; [reflexivity|]. split; [reflexivity|].
  split; intros [e H]; vm_compute in H; discriminate.
Qed.

(** ** Decoding a string map *)

Lemma read_short_big_endian n rest :
  0 <= n < 32768 -> read_short (big_endian 2 n ++ rest) = (Ok n, rest).
Proof.
  intros Hn. destruct (htons_inv n) as (a & b & Hh & Hv).
  rewrite <- htons_big_endian, Hh. cbn [app]. rewrite read_short_cons, Hv.
  unfold u16. rewrite Z.mod_mod by (change (2^16) with 65536; lia).
  fold (u16 n). rewrite i16_u16, i16_small by lia. reflexivity.
Qed.

Lemma size_t_small n : 0 <= n < 2^64 -> size_t n = n.
Proof. intros. unfold size_t, u64. apply Z.mod_small. assumption. Qed.

Lemma read_string_wire s rest :
  size_of s < 32768 ->
  read_string (wire_short_string s ++ rest) = (Ok s, rest).
Proof.
  intros Hs. pose proof (size_of_nonneg s) as H0.
  unfold read_string, wire_short_string. rewrite <- app_assoc.
  rewrite (bind_ok _ _ _ _ _ (read_short_big_endian (size_of s) (s ++ rest)
                                (conj H0 Hs))).
  rewrite size_t_small by (change (2^64) with 18446744073709551616; lia).
  assert (Z.to_nat (size_of s) = length s) as Hlen by (unfold size_of; lia).
  assert (size_of s <= size_of (s ++ rest)) as Hle
    by (rewrite size_of_app; pose proof (size_of_nonneg rest); lia).
  rewrite (bind_ok _ _ _ _ _ (sstring_from_ok (size_of s) (s ++ rest) ltac:(lia) Hle)).
  rewrite Hlen, take_app_length.
  unfold bind at 1, assert. destruct (Z.leb_spec 0 (size_of s)); [|lia].
  unfold ret at 1. cbv beta iota.
  rewrite (bind_ok _ _ _ _ _ (trim_front_ok (size_of s) (s ++ rest) Hle)).
  rewrite Hlen, drop_app_length. reflexivity.
Qed.

Lemma read_string_map_loop_wire l m0 rest :
  Forall (fun p => size_of (fst p) < 32768 /\ size_of (snd p) < 32768) l ->
  read_string_map_loop (length l) m0
    (flat_map (fun p => wire_short_string (fst p) ++ wire_short_string (snd p)) l
     ++ rest)
  = (Ok (foldl (fun m p => emplace (fst p) (snd p) m) m0 l), rest).
Proof.
  intros Hl. revert m0. induction Hl as [|[key val] l [Hk Hv] Hl IH]; intros m0.
  - reflexivity.
  - cbn [length read_string_map_loop flat_map foldl fst snd] in *.
    rewrite <- !app_assoc.
    rewrite (bind_ok _ _ _ _ _ (read_string_wire key _ Hk)).
    rewrite (bind_ok _ _ _ _ _ (read_string_wire val _ Hv)).
    apply IH.
Qed.

Lemma lookup_foldl_emplace (l : list (sstring * sstring))
    (m0 : gmap sstring sstring) (k : sstring) :
  foldl (fun m p => emplace (fst p) (snd p) m) m0 l !! k =
    match m0 !! k with
    | Some v => Some v
    | None => assoc_first k l
    end.
Proof.
  revert m0. induction l as [|[key val] l IH]; intros m0; cbn [foldl assoc_first fst snd].
  - destruct (m0 !! k); reflexivity.
  - rewrite IH. unfold emplace.
    destruct (decide (key = k)) as [->|Hne].
    + destruct (m0 !! k) as [v|] eqn:E; [rewrite E; reflexivity|].
      rewrite lookup_insert_eq. reflexivity.
    + destruct (m0 !! key) eqn:E; [reflexivity|].
      rewrite lookup_insert_ne by assumption. reflexivity.
Qed.

Lemma lookup_list_to_map_first (l : list (sstring * sstring)) (k : sstring) :
  (list_to_map l : gmap sstring sstring) !! k = assoc_first k l.
Proof.
  induction l as [|[key val] l IH]; cbn [list_to_map foldr assoc_first fst snd].
  - apply lookup_empty.
  - cbn. destruct (decide (key = k)) as [->|Hne].
    + apply lookup_insert_eq.
    + rewrite lookup_insert_ne by assumption. exact IH.
Qed.

(** C5, as the code has it. A string map whose count and string lengths
    fit a non-negative [int16_t] decodes to a mapping that binds every key
    of the input, and only those, exactly once; a key that occurs more
    than once is bound to the value of its first occurrence, because
    [emplace] leaves an existing entry alone. *)
Theorem read_string_map_first_wins (l : list (sstring * sstring)) (rest : list Z) :
  fits_int16 l ->
  exists m : gmap sstring sstring,
    read_string_map (wire_string_map l ++ rest) = (Ok m, rest) /\
    m = list_to_map l /\
    (forall k, m !! k = assoc_first k l) /\
    (forall k, is_Some (m !! k) <-> k ∈ map fst l).
Proof.
  intros [Hn Hl].
  exists (foldl (fun m p => emplace (fst p) (snd p) m) ∅ l).
  assert (forall k,
             foldl (fun m p => emplace (fst p) (snd p) m)
               (∅ : gmap sstring sstring) l !! k = assoc_first k l) as Hlook.
  { intros k. rewrite lookup_foldl_emplace, lookup_empty. reflexivity. }
  split; [|split; [|split]].
  - unfold read_string_map, wire_string_map. rewrite <- app_assoc.
    rewrite (bind_ok _ _ _ _ _ (read_short_big_endian _ _ (conj (Zle_0_nat _) Hn))).
    rewrite Nat2Z.id. apply read_string_map_loop_wire. assumption.
  - apply map_eq. intros k. rewrite Hlook, lookup_list_to_map_first. reflexivity.
  - exact Hlook.
  - intros k. rewrite Hlook. clear. induction l as [|[key val] l IH];
      cbn [assoc_first map fst snd].
    + split; [intros [v H]; discriminate | intros H; inversion H].
    + destruct (decide (key = k)) as [->|Hne].
      * split; [intros _; apply list_elem_of_here | intros _; eauto].
      * rewrite IH. split; [intros H; apply list_elem_of_further; exact H|].
        intros H. apply elem_of_cons in H. destruct H as [->|H];
          [contradiction | exact H].
Qed.

Lemma read_string_map_first_wins_witness :
  exists m : gmap sstring sstring,
    read_string_map
      (wire_string_map [(lit "a", lit "1"); (lit "b", lit "2"); (lit "a", lit "3")])
    = (Ok m, []) /\
    m !! lit "a" = Some (lit "1").
Proof.
  destruct (read_string_map_first_wins
              [(lit "a", lit "1"); (lit "b", lit "2"); (lit "a", lit "3")] [])
    as (m & Hr & _ & Hl & _).
  - split; [vm_compute; reflexivity|].
    repeat constructor; vm_compute; reflexivity.
  - exists m. rewrite app_nil_r in Hr. split; [exact Hr|]. apply Hl.
Defined.

(** C5 as stated fails: in the string map with the two entries a => 1
    and a => 2, in that order, the later occurrence of the key a has the
    value 2, and the decoded mapping binds a to 1. *)
Lemma string_map_duplicate_counterexample :
  wire_string_map [(lit "a", lit "1"); (lit "a", lit "2")]
  = [0; 2; 0; 1; 97; 0; 1; 49; 0; 1; 97; 0; 1; 50] /\
  assoc_last (lit "a") [(lit "a", lit "1"); (lit "a", lit "2")] = Some (lit "2") /\
  exists m : gmap sstring sstring,
    read_string_map [0; 2; 0; 1; 97; 0; 1; 49; 0; 1; 97; 0; 1; 50] = (Ok m, []) /\
    m !! lit "a" = Some (lit "1") /\
    m !! lit "a" <> assoc_last (lit "a") [(lit "a", lit "1"); (lit "a", lit "2")].
Proof.
  split; [reflexivity|]. split; [reflexivity|].
  eexists. split; [reflexivity|]. split; [reflexivity|]. discriminate.
Qed.

(** ** The order of the keys of a multimap *)

Lemma sstring_lt_irrefl a : sstring_lt a a = false.
Proof.
  induction a as [|x a IH]; cbn [sstring_lt]; [reflexivity|].
  destruct (Z.ltb_spec x x); [lia | assumption].
Qed.

Lemma sstring_lt_trans a b c :
  sstring_lt a b = true -> sstring_lt b c = true -> sstring_lt a c = true.
Proof.
  revert b c. induction a as [|x a IH]; intros [|y b] [|z c];
    cbn [sstring_lt]; try congruence.
  destruct (Z.ltb_spec x y), (Z.ltb_spec y z), (Z.ltb_spec x z),
    (Z.ltb_spec y x), (Z.ltb_spec z y), (Z.ltb_spec z x);
    try lia; try congruence.
  apply IH.
Qed.

Lemma sstring_lt_total a b :
  sstring_lt a b = false -> sstring_lt b a = false -> a = b.
Proof.
  revert b. induction a as [|x a IH]; intros [|y b]; cbn [sstring_lt];
    try congruence.
  destruct (Z.ltb_spec x y), (Z.ltb_spec y x); try lia; try congruence.
  intros H1 H2. assert (x = y) as -> by lia. f_equal. apply IH; assumption.
Qed.

Lemma sstring_lt_asym a b : sstring_lt a b = true -> sstring_lt b a = false.
Proof.
  intros H. destruct (sstring_lt b a) eqn:E; [|reflexivity].
  pose proof (sstring_lt_trans _ _ _ H E) as Hc.
  rewrite sstring_lt_irrefl in Hc. discriminate.
Qed.

Lemma sstring_lt_le_trans a b c :
  sstring_lt a b = true -> sstring_lt c b = false -> sstring_lt a c = true.
Proof.
  intros Hab Hcb. destruct (sstring_lt b c) eqn:E.
  - eapply sstring_lt_trans; eassumption.
  - rewrite <- (sstring_lt_total b c E Hcb). assumption.
Qed.

Lemma sstring_lt_neq a b : sstring_lt a b = true -> a <> b.
Proof. intros H ->. rewrite sstring_lt_irrefl in H. discriminate. Qed.

(** ** Positions in a key-ordered multimap *)

Lemma find_index_skip {A} (p : A -> bool) pre suf :
  Forall (fun x => p x = false) pre ->
  find_index p (pre ++ suf) = (length pre + find_index p suf)%nat.
Proof.
  induction 1 as [|x pre Hx _ IH]; cbn [app find_index length]; [reflexivity|].
  rewrite Hx, IH. reflexivity.
Qed.

Lemma find_index_all {A} (p : A -> bool) l :
  Forall (fun x => p x = false) l -> find_index p l = length l.
Proof.
  intros H. rewrite <- (app_nil_r l) at 1. rewrite find_index_skip by assumption.
  cbn. lia.
Qed.

Lemma find_index_stop {A} (p : A -> bool) l :
  match l with [] => True | x :: _ => p x = true end ->
  find_index p l = O.
Proof. destruct l as [|x l]; cbn; [reflexivity|]. intros ->. reflexivity. Qed.

Lemma mm_sorted_cons e m :
  mm_sorted (e :: m) <->
  Forall (fun x => sstring_lt (fst x) (fst e) = false) m /\ mm_sorted m.
Proof.
  unfold mm_sorted. split.
  - intros H. inversion H; subst. split; assumption.
  - intros [H1 H2]. constructor; assumption.
Qed.

(** A key-ordered multimap is, for any key, the elements below the key,
    then the elements of the key, then the elements above it. *)
Lemma mm_sorted_split k m :
  mm_sorted m ->
  exists below same above,
    m = below ++ same ++ above /\
    Forall (fun x => sstring_lt (fst x) k = true) below /\
    Forall (fun x => fst x = k) same /\
    Forall (fun x => sstring_lt k (fst x) = true) above.
Proof.
  induction m as [|e m IH]; intros Hs.
  - exists [], [], []. repeat split; constructor.
  - apply mm_sorted_cons in Hs. destruct Hs as [Hle Hs].
    destruct (IH Hs) as (below & same & above & -> & Hb & Hsm & Ha).
    destruct (sstring_lt (fst e) k) eqn:E1.
    { exists (e :: below), same, above. repeat split; try assumption.
      constructor; assumption. }
    assert (below = []) as ->.
    { destruct below as [|x below]; [reflexivity|]. exfalso.
      apply Forall_cons in Hb. destruct Hb as [Hx _].
      apply Forall_cons in Hle. destruct Hle as [Hxe _].
      pose proof (sstring_lt_le_trans _ _ _ Hx E1) as Hc. congruence. }
    destruct (sstring_lt k (fst e)) eqn:E2.
    + assert (same = []) as ->.
      { destruct same as [|x same]; [reflexivity|]. exfalso.
        apply Forall_cons in Hsm. destruct Hsm as [Hx _].
        apply Forall_cons in Hle. destruct Hle as [Hxe _].
        cbn [app] in Hxe. rewrite Hx in Hxe. congruence. }
      exists [], [], (e :: above). repeat split; try constructor; assumption.
    + exists [], (e :: same), above. repeat split; try assumption.
      constructor; [|assumption]. apply sstring_lt_total; assumption.
Qed.

Lemma upper_bound_split k below same above :
  Forall (fun x => sstring_lt (fst x) k = true) below ->
  Forall (fun x => fst x = k) same ->
  Forall (fun x => sstring_lt k (fst x) = true) above ->
  upper_bound k (below ++ same ++ above) = (length below + length same)%nat.
Proof.
  intros Hb Hs Ha. unfold upper_bound.
  rewrite find_index_skip.
  2: { eapply Forall_impl; [exact Hb|]. intros x Hx. cbn beta.
       apply sstring_lt_asym. assumption. }
  rewrite find_index_skip.
  2: { eapply Forall_impl; [exact Hs|]. intros x Hx. cbn beta in *.
       rewrite Hx. apply sstring_lt_irrefl. }
  rewrite find_index_stop; [lia|].
  destruct above as [|x above]; [exact I|].
  apply Forall_cons in Ha. apply Ha.
Qed.

Lemma lower_bound_split k below same above :
  Forall (fun x => sstring_lt (fst x) k = true) below ->
  Forall (fun x => fst x = k) same ->
  Forall (fun x => sstring_lt k (fst x) = true) above ->
  lower_bound k (below ++ same ++ above) = length below.
Proof.
  intros Hb Hs Ha. unfold lower_bound.
  rewrite find_index_skip.
  2: { eapply Forall_impl; [exact Hb|]. intros x Hx. cbn beta in *.
       rewrite Hx. reflexivity. }
  rewrite find_index_stop; [lia|].
  destruct same as [|x same].
  - destruct above as [|x above]; [exact I|]. cbn [app].
    apply Forall_cons in Ha. destruct Ha as [Hx _].
    rewrite (sstring_lt_asym _ _ Hx). reflexivity.
  - cbn [app]. apply Forall_cons in Hs. destruct Hs as [Hx _].
    rewrite Hx, sstring_lt_irrefl. reflexivity.
Qed.

(** ** Grouping a multimap by key *)

Lemma filter_all {A} (P : A -> Prop) `{forall x, Decision (P x)} (l : list A) :
  Forall P l -> filter P l = l.
Proof.
  induction 1 as [|x l Hx _ IH]; [reflexivity|].
  rewrite filter_cons_True by assumption. f_equal. assumption.
Qed.

Lemma filter_none {A} (P : A -> Prop) `{forall x, Decision (P x)} (l : list A) :
  Forall (fun x => ~ P x) l -> filter P l = [].
Proof.
  induction 1 as [|x l Hx _ IH]; [reflexivity|].
  rewrite filter_cons_False by assumption. assumption.
Qed.

Lemma filter_comm {A} (P Q : A -> Prop) `{forall x, Decision (P x)}
    `{forall x, Decision (Q x)} (l : list A) :
  filter P (filter Q l) = filter Q (filter P l).
Proof.
  rewrite !list_filter_filter. apply list_filter_iff. intros x. tauto.
Qed.

Lemma first_seen_elem x l : x ∈ first_seen l -> x ∈ l.
Proof.
  revert x. induction l as [|k l IH]; intros x; cbn [first_seen]; [auto|].
  rewrite !elem_of_cons, list_elem_of_filter. intros [->|[_ H]]; auto.
Qed.

Lemma first_seen_filter (P : sstring -> Prop) `{forall x, Decision (P x)} l :
  filter P (first_seen l) = first_seen (filter P l).
Proof.
  induction l as [|k l IH]; [reflexivity|]. cbn [first_seen].
  destruct (decide (P k)) as [Hk|Hk].
  - rewrite !filter_cons_True by assumption. cbn [first_seen].
    rewrite filter_comm, IH. reflexivity.
  - rewrite !filter_cons_False by assumption.
    rewrite filter_comm, IH. apply filter_all.
    apply Forall_forall. intros x Hx ->. apply first_seen_elem in Hx.
    apply list_elem_of_filter in Hx. tauto.
Qed.

Lemma first_seen_NoDup l : NoDup (first_seen l).
Proof.
  induction l as [|k l IH]; cbn [first_seen]; [constructor|].
  apply NoDup_cons. split.
  - rewrite list_elem_of_filter. tauto.
  - apply NoDup_filter. assumption.
Qed.

Lemma first_seen_elem_iff x l : x ∈ first_seen l <-> x ∈ l.
Proof.
  split; [apply first_seen_elem|].
  induction l as [|k l IH]; cbn [first_seen]; [auto|].
  rewrite !elem_of_cons, list_elem_of_filter.
  destruct (decide (x = k)); intros [?|?]; auto; contradiction.
Qed.

Lemma first_seen_length l : (length (first_seen l) <= length l)%nat.
Proof.
  induction l as [|k l IH]; cbn [first_seen length]; [lia|].
  pose proof (length_filter (fun x => x <> k) (first_seen l)). lia.
Qed.

Lemma range_values_sorted k m :
  mm_sorted m -> range_values (equal_range k m) m = values_of k m.
Proof.
  intros Hs.
  destruct (mm_sorted_split k m Hs) as (below & same & above & -> & Hb & Hsm & Ha).
  unfold range_values, equal_range, values_of. cbn [fst snd].
  rewrite upper_bound_split, lower_bound_split by assumption.
  rewrite drop_app_length.
  replace (length below + length same - length below)%nat with (length same)
    by lia.
  rewrite take_app_length. rewrite !filter_app.
  rewrite (filter_none _ below), (filter_all _ same), (filter_none _ above).
  - rewrite app_nil_r. reflexivity.
  - eapply Forall_impl; [exact Ha|]. intros x Hx. cbn beta in *.
    intros E. rewrite E, sstring_lt_irrefl in Hx. discriminate.
  - assumption.
  - eapply Forall_impl; [exact Hb|]. intros x Hx. cbn beta in *.
    intros E. rewrite E, sstring_lt_irrefl in Hx. discriminate.
Qed.

Lemma collect_keys_sorted fuel pre suf acc :
  mm_sorted suf ->
  (forall x y, x ∈ pre -> y ∈ suf -> sstring_lt (fst x) (fst y) = true) ->
  (length suf < fuel)%nat ->
  collect_keys fuel (pre ++ suf) (length pre) acc
  = Some (acc ++ first_seen (map fst suf)).
Proof.
  revert pre suf acc. induction fuel as [|fuel IH]; intros pre suf acc Hs Hlt Hf;
    [lia|]. cbn [collect_keys].
  destruct suf as [|e suf].
  - rewrite lookup_ge_None_2 by (rewrite app_nil_r; lia).
    rewrite app_nil_r. reflexivity.
  - rewrite list_lookup_middle by reflexivity.
    apply mm_sorted_cons in Hs. destruct Hs as [Hle Hs].
    destruct (mm_sorted_split (fst e) suf Hs)
      as (below & same & above & -> & Hb & Hsm & Ha).
    assert (below = []) as ->.
    { destruct below as [|x below]; [reflexivity|]. exfalso.
      apply Forall_cons in Hb. destruct Hb as [Hx _].
      apply Forall_cons in Hle. destruct Hle as [Hxe _]. congruence. }
    cbn [app] in *.
    assert (upper_bound (fst e) (pre ++ e :: same ++ above)
            = length (pre ++ e :: same)) as ->.
    { change (pre ++ e :: same ++ above) with (pre ++ (e :: same) ++ above).
      rewrite (upper_bound_split (fst e) pre (e :: same) above).
      - rewrite length_app. reflexivity.
      - apply Forall_forall. intros x Hx. apply Hlt; [assumption|].
        apply list_elem_of_here.
      - constructor; [reflexivity | assumption].
      - assumption. }
    replace (pre ++ e :: same ++ above) with ((pre ++ e :: same) ++ above)
      by (rewrite <- app_assoc; reflexivity).
    rewrite IH.
    + rewrite <- app_assoc. cbn [map first_seen app]. do 3 f_equal.
      rewrite first_seen_filter, map_app, filter_app.
      rewrite filter_none, filter_all; [reflexivity| |].
      * apply Forall_forall. intros x Hx. apply list_elem_of_fmap in Hx.
        destruct Hx as (y & -> & Hy).
        rewrite Forall_forall in Ha. apply Ha in Hy.
        intros E. rewrite E, sstring_lt_irrefl in Hy. discriminate.
      * apply Forall_forall. intros x Hx. apply list_elem_of_fmap in Hx.
        destruct Hx as (y & -> & Hy).
        rewrite Forall_forall in Hsm. apply Hsm in Hy. intros Hn. auto.
    + unfold mm_sorted in *. eapply StronglySorted_app_1_r. exact Hs.
    + intros x y Hx Hy. rewrite Forall_forall in Ha. pose proof (Ha y Hy) as Hky.
      apply elem_of_app in Hx. destruct Hx as [Hx|Hx].
      * eapply sstring_lt_trans; [|exact Hky]. apply Hlt; [assumption|].
        apply list_elem_of_here.
      * apply elem_of_cons in Hx. destruct Hx as [->|Hx]; [assumption|].
        rewrite Forall_forall in Hsm. rewrite (Hsm x Hx). assumption.
    + cbn [length] in Hf. rewrite length_app in Hf. lia.
Qed.

(** ** Writing a string multimap *)

Lemma append_body_nil r : append_body r [] = r.
Proof. destruct r. unfold append_body. cbn. rewrite app_nil_r. reflexivity. Qed.

Lemma append_body_app r a b :
  append_body (append_body r a) b = append_body r (a ++ b).
Proof. unfold append_body. cbn. rewrite app_assoc. reflexivity. Qed.

Lemma write_short_ok n r :
  0 <= n < 32768 -> write_short n r = (Ok tt, append_body r (big_endian 2 n)).
Proof.
  intros Hn. unfold write_short, body_write, append_body.
  rewrite i16_small by lia. rewrite htons_big_endian. reflexivity.
Qed.

Lemma write_string_append s r :
  size_of s < int16_max ->
  write_string s r = (Ok tt, append_body r (wire_short_string s)).
Proof. intros Hs. rewrite write_string_ok by assumption. reflexivity. Qed.

Lemma for_each_append {A} (l : list A) (f : A -> M response unit)
    (enc : A -> list Z) r :
  (forall x r', x ∈ l -> f x r' = (Ok tt, append_body r' (enc x))) ->
  for_each l f r = (Ok tt, append_body r (flat_map enc l)).
Proof.
  revert r. induction l as [|x l IH]; intros r Hf; cbn [for_each flat_map].
  - rewrite append_body_nil. reflexivity.
  - rewrite (bind_ok _ _ _ _ _ (Hf x r (list_elem_of_here _ _))).
    rewrite IH.
    + rewrite append_body_app. reflexivity.
    + intros y r' Hy. apply Hf. apply list_elem_of_further. assumption.
Qed.

Lemma write_string_list_ok l r :
  Z.of_nat (length l) < int16_max ->
  Forall (fun s => size_of s < int16_max) l ->
  write_string_list l r = (Ok tt, append_body r (wire_string_list l)).
Proof.
  intros Hn Hl. unfold write_string_list, wire_string_list.
  unfold bind at 1, assert.
  destruct (Z.ltb_spec (Z.of_nat (length l)) int16_max); [|lia].
  unfold ret at 1. cbv beta iota.
  assert (0 <= Z.of_nat (length l) < 32768) as Hr
    by (unfold int16_max in *; lia).
  rewrite (bind_ok _ _ _ _ _ (write_short_ok (Z.of_nat (length l)) r Hr)).
  rewrite (for_each_append l write_string wire_short_string).
  - rewrite append_body_app. reflexivity.
  - intros s r' Hs. apply write_string_append.
    rewrite Forall_forall in Hl. apply Hl. assumption.
Qed.

Lemma flat_map_map {A B C} (f : A -> B) (g : B -> list C) l :
  flat_map g (map f l) = flat_map (fun x => g (f x)) l.
Proof.
  induction l as [|x l IH]; cbn [map flat_map]; [reflexivity|].
  rewrite IH. reflexivity.
Qed.

Lemma values_of_elem k v m : v ∈ values_of k m <-> (k, v) ∈ m.
Proof.
  unfold values_of. rewrite list_elem_of_fmap. split.
  - intros ([k' v'] & -> & H). apply list_elem_of_filter in H.
    cbn [fst snd] in H. destruct H as [-> H]. exact H.
  - intros H. exists (k, v). split; [reflexivity|].
    apply list_elem_of_filter. split; [reflexivity | exact H].
Qed.

Lemma values_of_length k m : (length (values_of k m) <= length m)%nat.
Proof.
  unfold values_of. rewrite length_map. apply length_filter.
Qed.

(** C8. For every multimap, that is every key-ordered sequence of
    entries, whose counts and lengths pass the assertions of the writer,
    [write_string_multimap] appends the count of distinct keys and then,
    for each distinct key exactly once and in the order in which the keys
    are first seen in the multimap, the key followed by the list of all
    the values the multimap holds under it. Every entry of the multimap
    appears under its key, and nothing else does. *)
Theorem write_string_multimap_groups (m : multimap) (r : response) :
  mm_sorted m -> mm_fits m ->
  write_string_multimap m r
    = (Ok tt, append_body r (wire_string_multimap (grouped m))) /\
  map fst (grouped m) = first_seen (map fst m) /\
  NoDup (map fst (grouped m)) /\
  (forall k vs, (k, vs) ∈ grouped m -> vs = values_of k m) /\
  (forall k v, (k, v) ∈ m <-> exists vs, (k, vs) ∈ grouped m /\ v ∈ vs).
Proof.
  intros Hs [Hn Hl].
  assert (map fst (grouped m) = first_seen (map fst m)) as Hkeys.
  { unfold grouped. rewrite map_map. cbn [fst]. apply map_id. }
  assert (forall k vs, (k, vs) ∈ grouped m ->
                       vs = values_of k m /\ k ∈ map fst m) as Hgr.
  { intros k vs H. unfold grouped in H. apply list_elem_of_fmap in H.
    destruct H as (k' & E & Hk). inversion E; subst.
    split; [reflexivity|]. apply first_seen_elem. assumption. }
  split; [|split; [|split; [|split]]].
  - unfold write_string_multimap.
    pose proof (collect_keys_sorted (S (length m)) [] m [] Hs) as Hc.
    cbn [app length] in Hc. rewrite Hc;
      [|intros x y Hx; inversion Hx | lia].
    pose proof (first_seen_length (map fst m)) as Hlen.
    rewrite length_map in Hlen.
    unfold bind at 1, assert.
    destruct (Z.ltb_spec (Z.of_nat (length (first_seen (map fst m)))) int16_max);
      [|lia].
    unfold ret at 1. cbv beta iota.
    assert (0 <= Z.of_nat (length (first_seen (map fst m))) < 32768) as Hr
      by (unfold int16_max in *; lia).
    rewrite (bind_ok _ _ _ _ _ (write_short_ok _ r Hr)).
    rewrite (for_each_append _ _
               (fun key => wire_short_string key
                           ++ wire_string_list (values_of key m))).
    + rewrite append_body_app. unfold wire_string_multimap, grouped.
      rewrite length_map, flat_map_map. reflexivity.
    + intros key r' Hkey. cbv zeta. rewrite range_values_sorted by assumption.
      apply first_seen_elem, list_elem_of_fmap in Hkey.
      destruct Hkey as (e & -> & He).
      rewrite Forall_forall in Hl. destruct (Hl e He) as [Hk _].
      rewrite (bind_ok _ _ _ _ _ (write_string_append _ r' Hk)).
      rewrite write_string_list_ok.
      * rewrite append_body_app. reflexivity.
      * pose proof (values_of_length (fst e) m). lia.
      * apply Forall_forall. intros v Hv. apply values_of_elem in Hv.
        apply (Hl _ Hv).
  - exact Hkeys.
  - rewrite Hkeys. apply first_seen_NoDup.
  - intros k vs H. apply (Hgr k vs H).
  - intros k v. split.
    + intros H. exists (values_of k m). split; [|apply values_of_elem; exact H].
      unfold grouped. apply list_elem_of_fmap. exists k. split; [reflexivity|].
      apply first_seen_elem_iff, list_elem_of_fmap.
      exists (k, v). split; [reflexivity | exact H].
    + intros (vs & Hg & Hv). destruct (Hgr k vs Hg) as [-> _].
      apply values_of_elem. exact Hv.
Qed.

Lemma supported_opts_sorted : mm_sorted supported_opts.
Proof. unfold mm_sorted. vm_compute supported_opts. repeat constructor. Qed.

Lemma write_string_multimap_groups_witness :
  write_string_multimap supported_opts (new_response 0 SUPPORTED)
  = (Ok tt,
     append_body (new_response 0 SUPPORTED)
       (wire_string_multimap
          [(lit "COMPRESSION", [lit "snappy"]);
           (lit "CQL_VERSION", [lit "3.0.0"; lit "3.2.0"])])).
Proof.
  destruct (write_string_multimap_groups supported_opts
              (new_response 0 SUPPORTED)) as [H _].
  - exact supported_opts_sorted.
  - split; [vm_compute; reflexivity|].
    vm_compute supported_opts. repeat constructor; vm_compute; reflexivity.
  - exact H.
Defined.

(** [insert] keeps a multimap key-ordered, so every multimap that the
    program builds satisfies [mm_sorted]. *)
Lemma mm_insert_sorted e m : mm_sorted m -> mm_sorted (mm_insert e m).
Proof.
  intros Hs.
  destruct (mm_sorted_split (fst e) m Hs)
    as (below & same & above & -> & Hb & Hsm & Ha).
  unfold mm_insert. rewrite upper_bound_split by assumption.
  rewrite app_assoc, <- length_app, take_app_length, drop_app_length.
  unfold mm_sorted in *. rewrite app_assoc in Hs.
  apply StronglySorted_app in Hs. destruct Hs as (Hcross & Hl & Hr).
  rewrite Forall_forall in Hb, Hsm, Ha.
  apply StronglySorted_app. split; [|split].
  - intros x y Hx Hy. apply elem_of_cons in Hy. destruct Hy as [->|Hy].
    + apply elem_of_app in Hx. destruct Hx as [Hx|Hx].
      * apply sstring_lt_asym. apply Hb. assumption.
      * rewrite (Hsm x Hx). apply sstring_lt_irrefl.
    + apply Hcross; assumption.
  - assumption.
  - constructor; [assumption|]. apply Forall_forall. intros y Hy.
    apply sstring_lt_asym. apply Ha. assumption.
Qed.

(** ** The loop of a connection always ends *)

Lemma progress_refl c : progress c c.
Proof. split; [lia | auto]. Qed.

Lemma progress_trans c1 c2 c3 : progress c1 c2 -> progress c2 c3 -> progress c1 c3.
Proof. intros [H1 E1] [H2 E2]. split; [lia | auto]. Qed.

Lemma advancing_bind {A B} (m : M connection A) (k : A -> M connection B) :
  advancing m -> (forall a, advancing (k a)) -> advancing (bind m k).
Proof.
  intros Hm Hk c. unfold bind. specialize (Hm c).
  destruct (m c) as [[a|e| |] c1]; cbn [snd] in *; try assumption.
  eapply progress_trans; [exact Hm | apply Hk].
Qed.

Lemma advancing_of_keeps {A} (m : M connection A) :
  keeps _read_buf m -> keeps _eof m -> advancing m.
Proof. intros H1 H2 c. split; [rewrite H1; lia | rewrite H2; auto]. Qed.

Lemma advancing_read_exactly n : advancing (read_exactly n).
Proof.
  intros c. unfold read_exactly, progress. cbn [snd _read_buf _eof]. split.
  - rewrite length_drop. lia.
  - intros ->. reflexivity.
Qed.

Lemma advancing_simple {A} (m : M connection A) :
  (forall c, snd (m c) = c) -> advancing m.
Proof. intros H c. rewrite H. apply progress_refl. Qed.

Lemma advancing_if {A} (b : bool) (m1 m2 : M connection A) :
  advancing m1 -> advancing m2 -> advancing (if b then m1 else m2).
Proof. destruct b; auto. Qed.

Lemma advancing_set_version v : advancing (set_version v).
Proof. intros c. unfold set_version, progress. cbn. split; [lia | auto]. Qed.

Lemma advancing_write_flush msg : advancing (write_flush msg).
Proof. intros c. unfold write_flush, progress. cbn. split; [lia | auto]. Qed.

Lemma advancing_run_in {T A} (m : M T A) t : advancing (@run_in connection T A m t).
Proof.
  apply advancing_simple. intros c. unfold run_in.
  destruct (m t) as [[a|e| |] t']; reflexivity.
Qed.

Lemma advancing_assert b : advancing (assert b).
Proof. apply advancing_simple. intros c. destruct b; reflexivity. Qed.

Lemma advancing_ret {A} (a : A) : advancing (ret a).
Proof. apply advancing_simple. reflexivity. Qed.

Lemma advancing_fail {A} (o : outcome A) : advancing (fail o).
Proof. apply advancing_simple. reflexivity. Qed.

Lemma advancing_throw {A} e : advancing (@throw _ A e).
Proof. apply advancing_simple. reflexivity. Qed.

Lemma advancing_get_version : advancing get_version.
Proof. apply advancing_simple. reflexivity. Qed.

Lemma advancing_frame_size : advancing frame_size.
Proof. apply advancing_simple. intros c. rewrite frame_size_eq. reflexivity. Qed.

Lemma advancing_parse_frame buf : advancing (parse_frame buf).
Proof. apply advancing_simple. intros c. rewrite parse_frame_pure. reflexivity. Qed.

#[local] Hint Resolve advancing_read_exactly advancing_set_version
  advancing_write_flush advancing_run_in advancing_assert advancing_ret
  advancing_fail advancing_throw advancing_get_version advancing_frame_size
  advancing_parse_frame : keeps.

Ltac advancing_tac :=
  repeat first
    [ solve [auto with keeps]
    | apply advancing_bind; [|intros ?]
    | apply advancing_if
    | match goal with
      | |- advancing (match ?x with _ => _ end) => destruct x
      end ].

Lemma advancing_read_frame : advancing read_frame.
Proof. unfold read_frame. advancing_tac. Qed.

Lemma read_frame_consumes c a c1 :
  read_frame c = (Ok a, c1) -> _eof c1 = false ->
  (length (_read_buf c1) < length (_read_buf c))%nat.
Proof.
  intros H Heof.
  assert (forall n k (c' : connection) (o : outcome (option frame)),
             0 < n ->
             (forall buf, advancing (k buf)) ->
             (forall s, k [] s = (Ok None, s)) ->
             bind (read_exactly n) k c = (o, c') -> _eof c' = false ->
             (length (_read_buf c') < length (_read_buf c))%nat) as Hstep.
  { intros n k c' o Hn Hk Hnil Hb Hc'. unfold bind at 1, read_exactly at 1 in Hb.
    destruct (_read_buf c) as [|b rest] eqn:Hbuf.
    - rewrite take_nil, Hnil in Hb. inversion Hb; subst c'.
      cbn [_eof] in Hc'. unfold size_of in Hc'. cbn [length] in Hc'.
      destruct (Z.ltb_spec (Z.of_nat 0) n); [|lia].
      rewrite orb_true_r in Hc'. discriminate.
    - match type of Hb with k ?buf ?c2 = _ =>
        pose proof (Hk buf c2) as [Hlen _]; rewrite Hb in Hlen;
        cbn [snd _read_buf] in Hlen end.
      rewrite length_drop in Hlen. cbn [length] in *.
      assert (0 < Z.to_nat n)%nat by lia. lia. }
  unfold read_frame in H.
  rewrite (bind_ok _ _ c (_version c) c) in H by reflexivity.
  destruct (_version c =? 0).
  - eapply (Hstep 1); [lia | | | exact H | exact Heof].
    + intros buf. cbv beta. advancing_tac.
    + reflexivity.
  - rewrite (bind_ok _ _ _ _ _ (frame_size_eq c)) in H.
    eapply (Hstep (header_size (_version c)));
      [destruct (header_size_cases (_version c)); lia | | | exact H | exact Heof].
    + intros buf. cbv beta. advancing_tac.
    + reflexivity.
Qed.

Section Termination.

Variable parser_query : sstring -> bool.

Lemma advancing_process_request_body f buf :
  advancing (process_request_body parser_query f buf).
Proof.
  unfold process_request_body.
  apply advancing_bind; [auto with keeps|]. intros _. cbv zeta.
  destruct (cql_binary_frame_v3.opcode f) as [|p|p];
    [ | do 4 (try destruct p as [p|p|]) | ];
    unfold process_query, process_batch, process_options, process_prepare,
      process_register, process_auth_response, process_execute,
      process_startup, write_supported, write_ready, write_response;
    advancing_tac.
Qed.

Lemma process_request_consumes c a c' :
  process_request parser_query c = (Ok a, c') -> _eof c' = false ->
  (length (_read_buf c') < length (_read_buf c))%nat.
Proof.
  intros H Heof. unfold process_request, bind at 1 in H.
  destruct (read_frame c) as [[mf|e| |] c1] eqn:R; try discriminate.
  assert (progress c1 c') as [Hlen He].
  { destruct mf as [f|].
    - match type of H with ?m c1 = _ =>
        assert (advancing m) as Hadv end.
      { apply advancing_bind; [auto with keeps|]. intros buf.
        apply advancing_process_request_body. }
      specialize (Hadv c1). rewrite H in Hadv. exact Hadv.
    - inversion H. apply progress_refl. }
  assert (_eof c1 = false) as Heof1.
  { destruct (_eof c1); [|reflexivity]. rewrite He in Heof by reflexivity.
    discriminate. }
  pose proof (read_frame_consumes c mf c1 R Heof1). lia.
Qed.

Lemma process_loop_terminates fuel c :
  (length (_read_buf c) < fuel)%nat ->
  exists r, process_loop parser_query fuel c = Some r.
Proof.
  revert c. induction fuel as [|fuel IH]; intros c Hf; [lia|].
  cbn [process_loop]. destruct (_eof c); [eauto|].
  destruct (process_request parser_query c) as [[[]|e| |] c'] eqn:E; eauto.
  destruct (_eof c') eqn:Heof.
  - destruct fuel; cbn [process_loop]; rewrite Heof; eauto.
  - apply IH. pose proof (process_request_consumes c tt c' E Heof). lia.
Qed.

(** The fuel that [process] gives to the loop always suffices: on every
    connection the loop ends, normally or with a failure. *)
Lemma process_terminates c : exists r, process parser_query c = Some r.
Proof. apply process_loop_terminates. lia. Qed.

End Termination.

(** ** The scenarios of the protocol, run on the model *)

(** OPTIONS on a fresh connection, version 3, stream 7: the server sends
    SUPPORTED with COMPRESSION => snappy and CQL_VERSION => 3.0.0, 3.2.0,
    in the key order of the multimap, and stops at the end of the input. *)
Example options_scenario :
  process (fun _ => true) (new_connection [3; 0; 0; 7; 5; 0; 0; 0; 0])
  = Some (Ok tt,
          mk_connection 3 [] true
            ([131; 0; 0; 7; 6; 0; 0; 0; 54]
             ++ wire_string_multimap
                  [(lit "COMPRESSION", [lit "snappy"]);
                   (lit "CQL_VERSION", [lit "3.0.0"; lit "3.2.0"])])).
Proof. reflexivity. Qed.

(** STARTUP with the body CQL_VERSION => 3.0.0 on a fresh connection,
    version 2, stream 1: the server sends READY with an empty body. *)
Example startup_scenario :
  process (fun _ => true)
    (new_connection
       ([2; 0; 1; 1; 0; 0; 0; 22]
        ++ wire_string_map [(lit "CQL_VERSION", lit "3.0.0")]))
  = Some (Ok tt, mk_connection 2 [] true [130; 0; 1; 2; 0; 0; 0; 0]).
Proof. reflexivity. Qed.

(** A stream byte above 127 in a header of version 1 is read as an
    unsigned byte. *)
Example stream_byte_v1 :
  decode_header 1 [1; 0; 255; 5; 0; 0; 0; 0]
  = Ok (Some (cql_binary_frame_v3.mk 1 0 255 5 0)).
Proof. reflexivity. Qed.

(** * Further properties of the protocol layer *)

(** ** Fixed-width integers: what is written is read back *)

Lemma lor_chain_8 p0 p1 p2 p3 p4 p5 p6 p7 :
  0 <= p0 < 256 -> 0 <= p1 < 256 -> 0 <= p2 < 256 -> 0 <= p3 < 256 ->
  0 <= p4 < 256 -> 0 <= p5 < 256 -> 0 <= p6 < 256 -> 0 <= p7 < 256 ->
  Z.lor (Z.lor (Z.lor (Z.lor (Z.lor (Z.lor (Z.lor
    (Z.shiftl p0 56) (Z.shiftl p1 48)) (Z.shiftl p2 40)) (Z.shiftl p3 32))
    (Z.shiftl p4 24)) (Z.shiftl p5 16)) (Z.shiftl p6 8)) p7
  = ((((((p0 * 256 + p1) * 256 + p2) * 256 + p3) * 256 + p4) * 256 + p5)
       * 256 + p6) * 256 + p7.
Proof.
  intros H0 H1 H2 H3 H4 H5 H6 H7.
  rewrite !Z.shiftl_mul_pow2 by lia.
  change (2^56) with 72057594037927936.
  change (2^48) with 281474976710656.
  change (2^40) with 1099511627776.
  change (2^32) with 4294967296.
  change (2^24) with 16777216.
  change (2^16) with 65536.
  change (2^8) with 256.
  rewrite (lor_mul_add (p0) (p1 * 281474976710656) 56 72057594037927936) by (reflexivity || lia).
  replace ((p0) * 72057594037927936 + p1 * 281474976710656) with (((p0) * 256 + p1) * 281474976710656) by lia.
  rewrite (lor_mul_add ((p0) * 256 + p1) (p2 * 1099511627776) 48 281474976710656) by (reflexivity || lia).
  replace (((p0) * 256 + p1) * 281474976710656 + p2 * 1099511627776) with ((((p0) * 256 + p1) * 256 + p2) * 1099511627776) by lia.
  rewrite (lor_mul_add (((p0) * 256 + p1) * 256 + p2) (p3 * 4294967296) 40 1099511627776) by (reflexivity || lia).
  replace ((((p0) * 256 + p1) * 256 + p2) * 1099511627776 + p3 * 4294967296) with (((((p0) * 256 + p1) * 256 + p2) * 256 + p3) * 4294967296) by lia.
  rewrite (lor_mul_add ((((p0) * 256 + p1) * 256 + p2) * 256 + p3) (p4 * 16777216) 32 4294967296) by (reflexivity || lia).
  replace (((((p0) * 256 + p1) * 256 + p2) * 256 + p3) * 4294967296 + p4 * 16777216) with ((((((p0) * 256 + p1) * 256 + p2) * 256 + p3) * 256 + p4) * 16777216) by lia.
  rewrite (lor_mul_add (((((p0) * 256 + p1) * 256 + p2) * 256 + p3) * 256 + p4) (p5 * 65536) 24 16777216) by (reflexivity || lia).
  replace ((((((p0) * 256 + p1) * 256 + p2) * 256 + p3) * 256 + p4) * 16777216 + p5 * 65536) with (((((((p0) * 256 + p1) * 256 + p2) * 256 + p3) * 256 + p4) * 256 + p5) * 65536) by lia.
  rewrite (lor_mul_add ((((((p0) * 256 + p1) * 256 + p2) * 256 + p3) * 256 + p4) * 256 + p5) (p6 * 256) 16 65536) by (reflexivity || lia).
  replace (((((((p0) * 256 + p1) * 256 + p2) * 256 + p3) * 256 + p4) * 256 + p5) * 65536 + p6 * 256) with ((((((((p0) * 256 + p1) * 256 + p2) * 256 + p3) * 256 + p4) * 256 + p5) * 256 + p6) * 256) by lia.
  rewrite (lor_mul_add (((((((p0) * 256 + p1) * 256 + p2) * 256 + p3) * 256 + p4) * 256 + p5) * 256 + p6) (p7) 8 256) by (reflexivity || lia).
  lia.
Qed.

Lemma read_long_cons b0 b1 b2 b3 b4 b5 b6 b7 rest :
  exists n,
    read_long (b0 :: b1 :: b2 :: b3 :: b4 :: b5 :: b6 :: b7 :: rest)
      = (Ok (i64 n), rest) /\
    n = (((((((u8 b0 * 256 + u8 b1) * 256 + u8 b2) * 256 + u8 b3) * 256
             + u8 b4) * 256 + u8 b5) * 256 + u8 b6) * 256 + u8 b7).
Proof.
  eexists. split.
  - unfold read_long, bind, byte_at. cbn [lookup list_lookup].
    rewrite trim_front_ok
      by (rewrite !size_of_cons; pose proof (size_of_nonneg rest); lia).
    reflexivity.
  - apply lor_chain_8; apply u8_range.
Qed.

Lemma i32_u32 x : i32 (u32 x) = i32 x.
Proof.
  unfold i32, u32, signed. change (2 ^ (32 - 1)) with 2147483648.
  change (2 ^ 32) with 4294967296. Z.div_mod_to_equations. lia.
Qed.

Lemma i64_u64 x : i64 (u64 x) = i64 x.
Proof.
  unfold i64, u64, signed. change (2 ^ (64 - 1)) with 9223372036854775808.
  change (2 ^ 64) with 18446744073709551616. Z.div_mod_to_equations. lia.
Qed.

Lemma i16_idem x : i16 (i16 x) = i16 x.
Proof.
  unfold i16, signed. change (2 ^ (16 - 1)) with 32768.
  change (2 ^ 16) with 65536. Z.div_mod_to_equations. lia.
Qed.

Lemma i32_idem x : i32 (i32 x) = i32 x.
Proof.
  unfold i32, signed. change (2 ^ (32 - 1)) with 2147483648.
  change (2 ^ 32) with 4294967296. Z.div_mod_to_equations. lia.
Qed.

Lemma i64_idem x : i64 (i64 x) = i64 x.
Proof.
  unfold i64, signed. change (2 ^ (64 - 1)) with 9223372036854775808.
  change (2 ^ 64) with 18446744073709551616. Z.div_mod_to_equations. lia.
Qed.

Lemma i32_small x : - 2147483648 <= x < 2147483648 -> i32 x = x.
Proof.
  intros. unfold i32, signed. change (2 ^ (32 - 1)) with 2147483648.
  change (2 ^ 32) with 4294967296. rewrite Z.mod_small; lia.
Qed.

Lemma i64_small x :
  - 9223372036854775808 <= x < 9223372036854775808 -> i64 x = x.
Proof.
  intros. unfold i64, signed. change (2 ^ (64 - 1)) with 9223372036854775808.
  change (2 ^ 64) with 18446744073709551616. rewrite Z.mod_small; lia.
Qed.

Lemma read_short_htons n rest :
  read_short (htons n ++ rest) = (Ok (i16 n), rest).
Proof.
  destruct (htons_inv n) as (a & b & Hh & Hv). rewrite Hh. cbn [app].
  rewrite read_short_cons, Hv, !i16_u16. reflexivity.
Qed.

Lemma read_int_htonl n rest :
  read_int (htonl n ++ rest) = (Ok (i32 n), rest).
Proof.
  destruct (htonl_inv n) as (a & b & c & d & Hh & Hv). rewrite Hh. cbn [app].
  rewrite read_int_cons, Hv, i32_u32. reflexivity.
Qed.

Lemma read_long_htonq n rest :
  read_long (htonq n ++ rest) = (Ok (i64 n), rest).
Proof.
  unfold htonq. cbn [app].
  match goal with |- read_long (?a :: ?b :: ?c :: ?d :: ?e :: ?f :: ?g :: ?h :: _) = _ =>
    destruct (read_long_cons a b c d e f g h rest) as (v & Hr & Hv) end.
  rewrite Hr. do 2 f_equal. rewrite <- (i64_u64 n). f_equal. rewrite Hv.
  rewrite !land_255, !shiftr_div by lia. unfold u8, u64.
  change (2^8) with 256. change (2^64) with 18446744073709551616.
  change (2^56) with 72057594037927936. change (2^48) with 281474976710656.
  change (2^40) with 1099511627776. change (2^32) with 4294967296.
  change (2^24) with 16777216. change (2^16) with 65536.
  Z.div_mod_to_equations. lia.
Qed.

(** X1. Whatever [write_short], [write_int] and [write_long] are given,
    they append exactly two, four and eight bytes to the body and never
    fail, and [read_short], [read_int] and [read_long] read from those
    bytes the number that was written, wrapped to the signed width of the
    type, leaving what follows untouched. A number within the range of
    the type comes back unchanged. *)
Theorem integers_round_trip (n : Z) (r : response) (rest : list Z) :
  (exists bs,
      write_short n r = (Ok tt, append_body r bs) /\ size_of bs = 2 /\
      read_short (bs ++ rest) = (Ok (i16 n), rest)) /\
  (exists bs,
      write_int n r = (Ok tt, append_body r bs) /\ size_of bs = 4 /\
      read_int (bs ++ rest) = (Ok (i32 n), rest)) /\
  (exists bs,
      write_long n r = (Ok tt, append_body r bs) /\ size_of bs = 8 /\
      read_long (bs ++ rest) = (Ok (i64 n), rest)) /\
  (- 2^15 <= n < 2^15 -> i16 n = n) /\
  (- 2^31 <= n < 2^31 -> i32 n = n) /\
  (- 2^63 <= n < 2^63 -> i64 n = n).
Proof.
  split; [|split; [|split; [|split; [|split]]]].
  - exists (htons (i16 n)). split; [reflexivity|]. split; [reflexivity|].
    rewrite read_short_htons, i16_idem. reflexivity.
  - exists (htonl (i32 n)). split; [reflexivity|]. split; [reflexivity|].
    rewrite read_int_htonl, i32_idem. reflexivity.
  - exists (htonq (i64 n)). split; [reflexivity|]. split; [reflexivity|].
    rewrite read_long_htonq, i64_idem. reflexivity.
  - intros H. apply i16_small. change (2^15) with 32768 in H. lia.
  - intros H. apply i32_small. change (2^31) with 2147483648 in H. lia.
  - intros H. apply i64_small. change (2^63) with 9223372036854775808 in H. lia.
Qed.

Lemma integers_round_trip_witness :
  read_long (_body (snd (write_long (-2) (new_response 0 RESULT))) ++ [7])
  = (Ok (-2), [7]).
Proof.
  destruct (integers_round_trip (-2) (new_response 0 RESULT) [7])
    as (_ & _ & (bs & Hw & _ & Hr) & _ & _ & H64).
  rewrite Hw. cbn [snd append_body _body new_response app].
  rewrite Hr, H64; [reflexivity|].
  split; [apply Z.leb_le | apply Z.ltb_lt]; reflexivity.
Defined.

(** ** Strings: what is written is read back, and where that ends *)

Lemma write_long_string_ok s r :
  size_of s < int32_max ->
  write_long_string s r =
    (Ok tt, append_body r (big_endian 4 (size_of s) ++ s)).
Proof.
  intros Hs. unfold write_long_string, bind, assert.
  destruct (Z.ltb_spec (size_of s) int32_max); [|lia].
  unfold ret, write_int, body_write, append_body. cbn [_stream _opcode _body].
  rewrite htonl_big_endian.
  rewrite (i32_small (size_of s))
    by (unfold int32_max in *; pose proof (size_of_nonneg s); lia).
  rewrite <- app_assoc. reflexivity.
Qed.

Lemma write_long_string_abort s r :
  int32_max <= size_of s -> write_long_string s r = (Abort, r).
Proof.
  intros Hs. unfold write_long_string, bind, assert.
  destruct (Z.ltb_spec (size_of s) int32_max); [lia | reflexivity].
Qed.

Lemma read_long_string_wire s rest :
  size_of s < 2147483648 ->
  read_long_string (big_endian 4 (size_of s) ++ s ++ rest) = (Ok s, rest).
Proof.
  intros Hs. pose proof (size_of_nonneg s) as H0. unfold read_long_string.
  rewrite <- htonl_big_endian.
  rewrite (bind_ok _ _ _ _ _ (read_int_htonl (size_of s) (s ++ rest))).
  rewrite i32_small by lia.
  rewrite size_t_small by (change (2^64) with 18446744073709551616; lia).
  assert (Z.to_nat (size_of s) = length s) as Hlen by (unfold size_of; lia).
  assert (size_of s <= size_of (s ++ rest)) as Hle
    by (rewrite size_of_app; pose proof (size_of_nonneg rest); lia).
  rewrite (bind_ok _ _ _ _ _ (sstring_from_ok (size_of s) (s ++ rest) ltac:(lia) Hle)).
  rewrite Hlen, take_app_length.
  rewrite (bind_ok _ _ _ _ _ (trim_front_ok (size_of s) (s ++ rest) Hle)).
  rewrite Hlen, drop_app_length. reflexivity.
Qed.

(** X2. A string of fewer than 32767 bytes written by [write_string] is
    read back by [read_string] as the same string, with the bytes after
    it left in the buffer; the bytes written are the two-byte length and
    the string. A string of 32767 bytes or more is not written at all:
    the assertion of [write_string] fails and the body is unchanged. *)
Theorem short_string_round_trip (s : sstring) (r : response) (rest : list Z) :
  (size_of s < int16_max ->
   write_string s r = (Ok tt, append_body r (wire_short_string s)) /\
   read_string (wire_short_string s ++ rest) = (Ok s, rest)) /\
  (int16_max <= size_of s -> write_string s r = (Abort, r)).
Proof.
  split.
  - intros Hs. split; [apply write_string_append; assumption|].
    apply read_string_wire. unfold int16_max in Hs. lia.
  - apply write_string_abort.
Qed.

Lemma short_string_round_trip_witness :
  read_string
    (_body (snd (write_string (lit "snappy") (new_response 0 RESULT))) ++ [1; 2])
  = (Ok (lit "snappy"), [1; 2]).
Proof.
  destruct (short_string_round_trip (lit "snappy") (new_response 0 RESULT) [1; 2])
    as [H _].
  destruct H as [Hw Hr]; [vm_compute; reflexivity|].
  rewrite Hw. exact Hr.
Defined.

(** X3. A string of fewer than 2^31 - 1 bytes written by
    [write_long_string] is read back by [read_long_string] as the same
    string, with the bytes after it left in the buffer; the bytes written
    are the four-byte length and the string. A longer string fails the
    assertion of [write_long_string] and the body is unchanged. *)
Theorem long_string_round_trip (s : sstring) (r : response) (rest : list Z) :
  (size_of s < int32_max ->
   exists bs,
     write_long_string s r = (Ok tt, append_body r bs) /\
     bs = big_endian 4 (size_of s) ++ s /\
     read_long_string (bs ++ rest) = (Ok s, rest)) /\
  (int32_max <= size_of s -> write_long_string s r = (Abort, r)).
Proof.
  split.
  - intros Hs. eexists. split; [apply write_long_string_ok; assumption|].
    split; [reflexivity|]. rewrite <- app_assoc.
    apply read_long_string_wire. unfold int32_max in Hs. lia.
  - apply write_long_string_abort.
Qed.

Lemma long_string_round_trip_witness :
  read_long_string
    (_body (snd (write_long_string (lit "select 1") (new_response 0 RESULT))) ++ [9])
  = (Ok (lit "select 1"), [9]).
Proof.
  destruct (long_string_round_trip (lit "select 1") (new_response 0 RESULT) [9])
    as [H _].
  destruct H as (bs & Hw & _ & Hr); [vm_compute; reflexivity|].
  rewrite Hw. exact Hr.
Defined.

(** X4. Byte values are laid out as strings are. [write_bytes] appends
    the four-byte length and the bytes when there are fewer than
    2^31 - 1 of them, and [write_short_bytes] the two-byte length and the
    bytes when there are fewer than 32767; what [write_short_bytes] wrote
    is read back by [read_string]. At the limit and above, the assertion
    fails and the body is unchanged: a value of exactly 32767 bytes, whose
    length a signed two-byte integer holds, is refused. *)
Theorem bytes_outcome (b : list Z) (r : response) (rest : list Z) :
  (size_of b < int32_max ->
   write_bytes b r = (Ok tt, append_body r (big_endian 4 (size_of b) ++ b))) /\
  (int32_max <= size_of b -> write_bytes b r = (Abort, r)) /\
  (size_of b < int16_max ->
   write_short_bytes b r
     = (Ok tt, append_body r (big_endian 2 (size_of b) ++ b)) /\
   read_string ((big_endian 2 (size_of b) ++ b) ++ rest) = (Ok b, rest)) /\
  (int16_max <= size_of b -> write_short_bytes b r = (Abort, r)).
Proof.
  split; [|split; [|split]].
  - exact (write_long_string_ok b r).
  - exact (write_long_string_abort b r).
  - intros Hb. split; [exact (write_string_append b r Hb)|].
    apply (read_string_wire b rest). unfold int16_max in Hb. lia.
  - exact (write_string_abort b r).
Qed.

Lemma bytes_outcome_witness :
  write_short_bytes [1; 2; 3] (new_response 0 RESULT)
  = (Ok tt, mk_response 0 RESULT [0; 3; 1; 2; 3]) /\
  write_short_bytes (repeat 0 (Z.to_nat int16_max)) (new_response 0 RESULT)
  = (Abort, new_response 0 RESULT).
Proof.
  split.
  - destruct (bytes_outcome [1; 2; 3] (new_response 0 RESULT) [])
      as (_ & _ & H & _).
    destruct H as [Hw _]; [vm_compute; reflexivity|].
    rewrite Hw. reflexivity.
  - destruct (bytes_outcome (repeat 0 (Z.to_nat int16_max)) (new_response 0 RESULT) [])
      as (_ & _ & _ & H).
    apply H. unfold size_of. rewrite repeat_length. vm_compute. discriminate.
Defined.

Lemma i16_negative b0 b1 :
  128 <= u8 b0 -> - 32768 <= i16 (u16 (ntohs b0 b1)) < 0.
Proof.
  intros Hb. rewrite ntohs_eq. pose proof (u8_range b0). pose proof (u8_range b1).
  unfold i16, u16, signed. change (2 ^ (16 - 1)) with 32768.
  change (2 ^ 16) with 65536. Z.div_mod_to_equations. lia.
Qed.

Lemma read_string_map_negative_count b0 b1 rest :
  i16 (u16 (ntohs b0 b1)) <= 0 ->
  read_string_map (b0 :: b1 :: rest) = (Ok ∅, rest).
Proof.
  intros Hn. unfold read_string_map.
  rewrite (bind_ok _ _ _ _ _ (read_short_cons b0 b1 rest)).
  replace (Z.to_nat (i16 (u16 (ntohs b0 b1)))) with O by lia. reflexivity.
Qed.

Lemma read_string_map_bad_key n k0 k1 rest :
  1 <= n < 32768 -> 128 <= u8 k0 ->
  read_string_map (big_endian 2 n ++ k0 :: k1 :: rest)
    = (Throw overflow_error, rest).
Proof.
  intros Hn Hk. unfold read_string_map.
  rewrite (bind_ok _ _ _ _ _
             (read_short_big_endian n (k0 :: k1 :: rest) ltac:(lia))).
  destruct (Z.to_nat n) as [|k] eqn:E; [lia|]. cbn [read_string_map_loop].
  apply bind_throw. apply read_string_negative.
  pose proof (i16_negative k0 k1 Hk). lia.
Qed.

Lemma i32_negative b0 b1 b2 b3 :
  128 <= u8 b0 -> i32 (ntohl b0 b1 b2 b3) < 0.
Proof.
  intros Hb. rewrite ntohl_eq.
  pose proof (u8_range b0). pose proof (u8_range b1).
  pose proof (u8_range b2). pose proof (u8_range b3).
  unfold i32, signed. change (2 ^ (32 - 1)) with 2147483648.
  change (2 ^ 32) with 4294967296. Z.div_mod_to_equations. lia.
Qed.

(** X5. The readers take the length of a string and the count of a
    string map as signed integers. When the top bit of the two-byte
    length is set (32768 to 65535 on the wire), [read_string] returns no
    string: the negative length, converted to [size_t], does not fit the
    size type of [sstring], and the constructor throws
    [std::overflow_error] before a byte of the string is read, whatever
    follows in the buffer. [read_long_string] does the same when the top
    bit of its four-byte length is set. When the top bit of the count is
    set, [read_string_map] returns the empty mapping and leaves all the
    entries unread. *)
Theorem top_bit_lengths (b0 b1 : Z) (rest : list Z) :
  128 <= u8 b0 ->
  read_string (b0 :: b1 :: rest) = (Throw overflow_error, rest) /\
  (forall b2 b3,
      read_long_string (b0 :: b1 :: b2 :: b3 :: rest)
        = (Throw overflow_error, rest)) /\
  read_string_map (b0 :: b1 :: rest) = (Ok ∅, rest).
Proof.
  intros Hb. pose proof (i16_negative b0 b1 Hb) as Hn.
  split; [apply read_string_negative; lia|]. split.
  - intros b2 b3. apply read_long_string_negative.
    apply i32_negative. assumption.
  - apply read_string_map_negative_count. lia.
Qed.

Lemma top_bit_lengths_witness :
  read_string [128; 0; 65; 66] = (Throw overflow_error, [65; 66]) /\
  read_long_string [255; 255; 255; 255; 65] = (Throw overflow_error, [65]) /\
  read_string_map [255; 255; 0; 1; 97; 0; 1; 49] = (Ok ∅, [0; 1; 97; 0; 1; 49]).
Proof.
  split; [|split].
  - destruct (top_bit_lengths 128 0 [65; 66]) as (H & _ & _);
      [vm_compute; discriminate|].
    exact H.
  - destruct (top_bit_lengths 255 255 [65]) as (_ & H & _);
      [vm_compute; discriminate|].
    exact (H 255 255).
  - destruct (top_bit_lengths 255 255 [0; 1; 97; 0; 1; 49]) as (_ & _ & H);
      [vm_compute; discriminate|].
    exact H.
Defined.

(** ** String maps and string lists *)

Lemma write_string_map_ok (l : list (sstring * sstring)) r :
  mm_fits l ->
  write_string_map l r = (Ok tt, append_body r (wire_string_map l)).
Proof.
  intros [Hn Hl]. unfold write_string_map, wire_string_map.
  unfold bind at 1, assert.
  destruct (Z.ltb_spec (Z.of_nat (length l)) int16_max); [|lia].
  unfold ret at 1. cbv beta iota.
  assert (0 <= Z.of_nat (length l) < 32768) as Hr
    by (unfold int16_max in *; lia).
  rewrite (bind_ok _ _ _ _ _ (write_short_ok (Z.of_nat (length l)) r Hr)).
  rewrite (for_each_append l _
             (fun p => wire_short_string (fst p) ++ wire_short_string (snd p))).
  - rewrite append_body_app. reflexivity.
  - intros [k v] r' Hp. rewrite Forall_forall in Hl.
    destruct (Hl _ Hp) as [Hk Hv]. cbn [fst snd] in *.
    rewrite (bind_ok _ _ _ _ _ (write_string_append k r' Hk)).
    rewrite (write_string_append v _ Hv), append_body_app. reflexivity.
Qed.

Lemma read_string_map_wire (l : list (sstring * sstring)) rest :
  fits_int16 l ->
  read_string_map (wire_string_map l ++ rest) = (Ok (list_to_map l), rest).
Proof.
  intros [Hn Hl]. unfold read_string_map, wire_string_map.
  rewrite <- app_assoc.
  rewrite (bind_ok _ _ _ _ _
             (read_short_big_endian _ _ (conj (Zle_0_nat _) Hn))).
  rewrite Nat2Z.id, read_string_map_loop_wire by assumption.
  do 2 f_equal. apply map_eq. intros k.
  rewrite lookup_foldl_emplace, lookup_empty, lookup_list_to_map_first.
  reflexivity.
Qed.

Lemma assoc_first_NoDup (l : list (sstring * sstring)) k v :
  NoDup (map fst l) -> assoc_first k l = Some v <-> (k, v) ∈ l.
Proof.
  induction l as [|[k' v'] l IH]; cbn [map fst assoc_first snd]; intros Hnd.
  - split; [discriminate | intros H; inversion H].
  - apply NoDup_cons in Hnd. destruct Hnd as [Hk' Hnd].
    rewrite elem_of_cons. destruct (decide (k' = k)) as [->|Hne].
    + split.
      * intros H. inversion H. left. reflexivity.
      * intros [H|H]; [inversion H; reflexivity|]. exfalso. apply Hk'.
        apply list_elem_of_fmap. exists (k, v). split; [reflexivity | exact H].
    + rewrite IH by assumption. split; [auto|].
      intros [H|H]; [inversion H; congruence | exact H].
Qed.

(** X6. A map with distinct keys, as a [std::map] is, whose entry count
    and strings are below 32767, is written by [write_string_map] as its
    count and its entries, and [read_string_map] reads those bytes back
    as a mapping with exactly the entries that were written, leaving the
    bytes after them in the buffer. *)
Theorem string_map_round_trip (l : list (sstring * sstring)) (r : response)
    (rest : list Z) :
  NoDup (map fst l) -> mm_fits l ->
  exists (bs : list Z) (m : gmap sstring sstring),
    write_string_map l r = (Ok tt, append_body r bs) /\
    bs = wire_string_map l /\
    read_string_map (bs ++ rest) = (Ok m, rest) /\
    (forall k v, m !! k = Some v <-> (k, v) ∈ l).
Proof.
  intros Hnd Hfit. exists (wire_string_map l), (list_to_map l).
  split; [apply write_string_map_ok; assumption|]. split; [reflexivity|].
  split.
  - apply read_string_map_wire. destruct Hfit as [Hn Hl]. unfold int16_max in *.
    split; [lia|]. eapply Forall_impl; [exact Hl|]. cbn beta. lia.
  - intros k v. rewrite lookup_list_to_map_first. apply assoc_first_NoDup.
    assumption.
Qed.

Lemma string_map_round_trip_witness :
  exists m : gmap sstring sstring,
    read_string_map
      (_body (snd (write_string_map
                     [(lit "COMPRESSION", lit "snappy");
                      (lit "CQL_VERSION", lit "3.0.0")]
                     (new_response 0 RESULT))))
    = (Ok m, []) /\
    m !! lit "CQL_VERSION" = Some (lit "3.0.0").
Proof.
  destruct (string_map_round_trip
              [(lit "COMPRESSION", lit "snappy"); (lit "CQL_VERSION", lit "3.0.0")]
              (new_response 0 RESULT) [])
    as (bs & m & Hw & _ & Hr & Hl).
  - apply (bool_decide_unpack _). vm_compute. exact I.
  - split; [vm_compute; reflexivity|].
    repeat constructor; vm_compute; reflexivity.
  - exists m. rewrite Hw. cbn [snd append_body _body new_response app].
    rewrite app_nil_r in Hr. split; [exact Hr|]. apply Hl.
    apply (bool_decide_unpack _). vm_compute. exact I.
Defined.

Lemma for_each_write_string_abort l r :
  Exists (fun s => int16_max <= size_of s) l ->
  fst (for_each l write_string r) = Abort.
Proof.
  revert r. induction l as [|s l IH]; intros r H; [inversion H|].
  cbn [for_each]. destruct (Z.lt_ge_cases (size_of s) int16_max) as [Hs|Hs].
  - rewrite (bind_ok _ _ _ _ _ (write_string_append s r Hs)).
    apply IH. inversion H; subst; [lia | assumption].
  - rewrite (bind_abort _ _ _ _ (write_string_abort s r Hs)). reflexivity.
Qed.

(** X7. [write_string_list] succeeds exactly when the list has fewer than
    32767 strings and each has fewer than 32767 bytes; it then appends the
    two-byte count followed by each string as a short string, in order.
    Otherwise it ends in a failed assertion. *)
Theorem write_string_list_outcome (l : list sstring) (r : response) :
  (Z.of_nat (length l) < int16_max /\ Forall (fun s => size_of s < int16_max) l ->
   write_string_list l r = (Ok tt, append_body r (wire_string_list l))) /\
  (~ (Z.of_nat (length l) < int16_max /\
      Forall (fun s => size_of s < int16_max) l) ->
   fst (write_string_list l r) = Abort).
Proof.
  split.
  - intros [Hn Hl]. apply write_string_list_ok; assumption.
  - intros Hbad. unfold write_string_list. unfold bind at 1, assert.
    destruct (Z.ltb_spec (Z.of_nat (length l)) int16_max) as [Hn|Hn];
      [|reflexivity].
    unfold ret at 1. cbv beta iota.
    assert (0 <= Z.of_nat (length l) < 32768) as Hr
      by (unfold int16_max in *; lia).
    rewrite (bind_ok _ _ _ _ _ (write_short_ok (Z.of_nat (length l)) r Hr)).
    apply for_each_write_string_abort.
    destruct (Forall_Exists_dec (fun s => size_of s < int16_max)
                (fun s => int16_max <= size_of s)
                (fun s => Z_lt_le_dec (size_of s) int16_max) l) as [HF|HE];
      [|exact HE].
    exfalso. apply Hbad. split; assumption.
Qed.

Lemma write_string_list_outcome_witness :
  write_string_list [lit "3.0.0"; lit "3.2.0"] (new_response 0 SUPPORTED)
  = (Ok tt,
     append_body (new_response 0 SUPPORTED)
       ([0; 2] ++ ([0; 5] ++ lit "3.0.0") ++ ([0; 5] ++ lit "3.2.0"))).
Proof.
  destruct (write_string_list_outcome [lit "3.0.0"; lit "3.2.0"]
              (new_response 0 SUPPORTED)) as [H _].
  rewrite H; [reflexivity|].
  split; [vm_compute; reflexivity|]. repeat constructor; vm_compute; reflexivity.
Defined.

(** X8. Whatever level [write_consistency] is given, it appends two bytes
    and [read_consistency] reads that level back from them, leaving what
    follows in the buffer. *)
Theorem consistency_round_trip (c : db.consistency_level) (r : response)
    (rest : list Z) :
  exists bs,
    write_consistency c r = (Ok tt, append_body r bs) /\
    size_of bs = 2 /\
    read_consistency (bs ++ rest) = (Ok c, rest).
Proof.
  exists (htons (i16 (consistency_to_wire c))).
  split; [reflexivity|]. split; [reflexivity|].
  unfold read_consistency. rewrite (bind_ok _ _ _ _ _ (read_short_htons _ rest)).
  destruct c; reflexivity.
Qed.

(** ** The outcomes of [parse_frame] *)

Lemma parse_header_abort v buf :
  size_of buf = header_size v -> ~ (1 <= v <= 4) -> parse_header v buf = Abort.
Proof.
  intros Hsz Hv.
  cbv beta iota delta [parse_header parse_frame bind frame_size get_version
                       throw fail ret _version fst].
  unfold header_size in Hsz. destruct (v <? 3); cbv beta iota;
    rewrite Hsz; cbn [Z.eqb Pos.eqb negb].
  all: destruct v as [|p|p]; try reflexivity.
  all: do 3 (try destruct p as [p|p|]; try reflexivity); lia.
Qed.

(** X9. [parse_frame] never changes the connection and checks in this
    order. A buffer whose size is not the header size of the version of
    the connection is rejected with [cql_frame_error]. Otherwise, a
    connection whose version is outside 1..4 reaches [abort()]. Otherwise
    the fields are decoded in the layout of the version, and the header
    is returned when its version byte is the version of the connection
    and rejected with [bad_cql_protocol_version] when it is not. *)
Theorem parse_frame_outcomes (buf : temporary_buffer) (c : connection) :
  snd (parse_frame buf c) = c /\
  (size_of buf <> header_size (_version c) ->
   fst (parse_frame buf c) = Throw cql_frame_error) /\
  (size_of buf = header_size (_version c) -> ~ (1 <= _version c <= 4) ->
   fst (parse_frame buf c) = Abort) /\
  (size_of buf = header_size (_version c) -> 1 <= _version c <= 4 ->
   exists f,
     header_fields (_version c) buf = Some f /\
     fst (parse_frame buf c) =
       if cql_binary_frame_v3.version f =? _version c then Ok f
       else Throw bad_cql_protocol_version).
Proof.
  rewrite parse_frame_pure. cbn [fst snd].
  split; [reflexivity|]. split; [|split].
  - apply parse_header_size.
  - apply parse_header_abort.
  - intros Hsz Hv. apply parse_header_fields; assumption.
Qed.

Lemma parse_frame_outcomes_witness :
  fst (parse_frame [3; 0; 0; 1; 5; 0; 0; 0] (mk_connection 3 [] false []))
  = Throw cql_frame_error /\
  fst (parse_frame [3; 0; 0; 1; 5; 0; 0; 0; 0] (mk_connection 7 [] false []))
  = Abort /\
  fst (parse_frame [3; 0; 0; 1; 5; 0; 0; 0; 0] (mk_connection 3 [] false []))
  = Ok (cql_binary_frame_v3.mk 3 0 1 5 0).
Proof.
  split; [|split].
  - apply (parse_frame_outcomes [3; 0; 0; 1; 5; 0; 0; 0]
             (mk_connection 3 [] false [])). vm_compute. discriminate.
  - apply (parse_frame_outcomes [3; 0; 0; 1; 5; 0; 0; 0; 0]
             (mk_connection 7 [] false [])); [reflexivity|].
    cbn [_version]. lia.
  - destruct (parse_frame_outcomes [3; 0; 0; 1; 5; 0; 0; 0; 0]
                (mk_connection 3 [] false [])) as (_ & _ & _ & H).
    destruct H as (f & Hf & Hp); [reflexivity | cbn [_version]; lia |].
    vm_compute in Hf. inversion Hf; subst f. exact Hp.
Defined.

(** ** Requests that are answered *)

Lemma opcode_code_small op : u8 (opcode_code op) = opcode_code op.
Proof. destruct op; reflexivity. Qed.

Lemma make_frame_reply v hdr f op body len :
  1 <= v <= 4 -> header_fields v hdr = Some f ->
  make_frame v len (mk_response (i16 (cql_binary_frame_v3.stream f)) op body)
  = (Ok ([v + 128; 0] ++ stream_bytes v hdr ++ [opcode_code op]
         ++ big_endian 4 len),
     mk_response (i16 (cql_binary_frame_v3.stream f)) op body).
Proof.
  intros Hv Hf. unfold header_fields, ntoh_v1, ntoh_v3 in Hf.
  case_version v; cbn [Z.ltb Z.compare Pos.compare Pos.compare_cont] in Hf;
    do 10 (try destruct hdr as [|? hdr]); try discriminate;
    inversion Hf; subst f; clear Hf;
    unfold make_frame, stream_bytes;
    cbn [_stream _opcode cql_binary_frame_v3.stream Z.ltb Z.compare
         Pos.compare Pos.compare_cont drop take map app];
    rewrite opcode_code_small, ?htonl_big_endian, ?htons_big_endian;
    cbn [big_endian app]; do 2 f_equal.
  1, 2: match goal with |- context [u8 (i16 (u8 ?b))] =>
          replace (u8 (i16 (u8 b))) with (u8 b); [reflexivity|];
          pose proof (u8_range b);
          rewrite i16_small by lia; rewrite u8_u8; reflexivity
        end.
  all: match goal with |- context [i16 (ntohs ?a ?b)] =>
         rewrite (ntohs_eq a b);
         pose proof (u8_range a); pose proof (u8_range b);
         generalize dependent (u8 a); generalize dependent (u8 b);
         intros y Hy x Hx
       end;
       unfold i16, signed; change (2 ^ (16 - 1)) with 32768;
       change (2 ^ 16) with 65536;
       change (256 ^ Z.of_nat 1) with 256; change (256 ^ Z.of_nat 0) with 1;
       repeat (apply (f_equal2 (@cons Z)); try reflexivity);
       Z.div_mod_to_equations; lia.
Qed.

Lemma write_response_reply c v hdr f op body :
  1 <= v <= 4 -> _version c = v -> header_fields v hdr = Some f ->
  write_response (mk_response (i16 (cql_binary_frame_v3.stream f)) op body) c
  = (Ok tt,
     mk_connection v (_read_buf c) (_eof c)
       (_write_buf c ++ reply v hdr op body)).
Proof.
  intros Hv Hc Hf. unfold write_response.
  rewrite (bind_ok _ _ c (_version c) c) by reflexivity. rewrite Hc.
  unfold bind at 1, run_in, make_message, bind at 1. cbn [_body].
  rewrite (make_frame_reply v hdr f op body _ Hv Hf).
  unfold ret, write_flush. cbn [fst]. rewrite Hc.
  unfold reply. rewrite <- !app_assoc. reflexivity.
Qed.

Lemma process_request_header (pq : sstring -> bool) c v b0 tl rest f :
  1 <= v <= 4 -> _version c = 0 \/ _version c = v ->
  _read_buf c = (b0 :: tl) ++ rest ->
  u8 b0 = v ->
  header_fields v (b0 :: tl) = Some f ->
  process_request pq c =
    process_request_body pq f
      (take (Z.to_nat (cql_binary_frame_v3.length f)) rest)
      (after_read v (cql_binary_frame_v3.length f) rest (_eof c) (_write_buf c)).
Proof.
  intros Hv Hc Hbuf Hb Hf. unfold process_request.
  rewrite (bind_ok _ _ _ _ _
             (read_frame_frame c v b0 tl rest f Hv Hc Hbuf Hb Hf)).
  reflexivity.
Qed.

Lemma write_supported_body stream :
  write_string_multimap supported_opts (new_response stream SUPPORTED)
  = (Ok tt, mk_response (i16 stream) SUPPORTED supported_body).
Proof. reflexivity. Qed.

Lemma run_in_ok {S T A} (m : M T A) t a t' (s : S) :
  m t = (Ok a, t') -> run_in m t s = (Ok (a, t'), s).
Proof. unfold run_in. intros ->. reflexivity. Qed.

Lemma run_in_fail {S T A} (m : M T A) t o t' (s : S) :
  m t = (o, t') -> (forall a, o <> Ok a) ->
  exists o' : outcome (A * T),
    run_in m t s = (o', s) /\ (forall x, o' <> Ok x) /\
    (o = Undefined -> o' = Undefined) /\ (o = Abort -> o' = Abort).
Proof.
  unfold run_in. intros -> Ho. destruct o as [a|e| |].
  - exfalso. apply (Ho a). reflexivity.
  - exists (Throw e). repeat split; discriminate.
  - exists Abort. repeat split; discriminate || reflexivity.
  - exists Undefined. repeat split; discriminate || reflexivity.
Qed.

Lemma assert_true_bind {S B} (k : unit -> M S B) s :
  bind (assert true) k s = k tt s.
Proof. reflexivity. Qed.

Lemma run_in_undefined {S T A} (m : M T A) t t' (s : S) :
  m t = (Undefined, t') -> @run_in S T A m t s = (Undefined, s).
Proof. unfold run_in. intros ->. reflexivity. Qed.

Lemma run_in_throw {S T A} (m : M T A) t e t' (s : S) :
  m t = (Throw e, t') -> @run_in S T A m t s = (Throw e, s).
Proof. unfold run_in. intros ->. reflexivity. Qed.

Section Answers.

Variable parser_query : sstring -> bool.

Lemma options_register_step c v b0 tl rest f :
  1 <= v <= 4 -> _version c = 0 \/ _version c = v ->
  _read_buf c = (b0 :: tl) ++ rest ->
  u8 b0 = v ->
  header_fields v (b0 :: tl) = Some f ->
  Z.land (cql_binary_frame_v3.flags f) 0x01 = 0 ->
  let c' := after_read v (cql_binary_frame_v3.length f) rest (_eof c)
              (_write_buf c) in
  (cql_binary_frame_v3.opcode f = opcode_code OPTIONS ->
   process_request parser_query c =
     (Ok tt,
      mk_connection v (_read_buf c') (_eof c')
        (_write_buf c ++ reply v (b0 :: tl) SUPPORTED supported_body))) /\
  (cql_binary_frame_v3.opcode f = opcode_code REGISTER ->
   process_request parser_query c =
     (Ok tt,
      mk_connection v (_read_buf c') (_eof c')
        (_write_buf c ++ reply v (b0 :: tl) READY []))).
Proof.
  intros Hv Hc Hbuf Hb Hf Hflag c'.
  rewrite (process_request_header parser_query c v b0 tl rest f) by assumption.
  fold c'. unfold process_request_body.
  rewrite Hflag. change (0 =? 0) with true. rewrite assert_true_bind. cbv zeta.
  split; intros Hop; rewrite Hop; cbn [opcode_code].
  - unfold process_options, write_supported. cbv zeta.
    rewrite (bind_ok _ _ _ _ _
               (run_in_ok _ _ _ _ c' (write_supported_body _))). cbn [snd].
    exact (write_response_reply c' v (b0 :: tl) f SUPPORTED supported_body
             Hv eq_refl Hf).
  - unfold process_register, write_ready, new_response. cbv zeta.
    exact (write_response_reply c' v (b0 :: tl) f READY [] Hv eq_refl Hf).
Qed.

(** X10. OPTIONS and REGISTER are answered whatever their body holds. For
    a request with a complete header of the version of the connection (or
    the first on the connection) and without the compression flag, the
    connection reads the announced number of body bytes, or what is left
    of the input, and writes exactly one frame: SUPPORTED with the fixed
    options for OPTIONS, READY with an empty body for REGISTER, carrying
    the stream id bytes of the request and the version with bit 0x80. *)
Theorem options_register_answered c v b0 tl rest f :
  1 <= v <= 4 -> _version c = 0 \/ _version c = v ->
  _read_buf c = (b0 :: tl) ++ rest ->
  u8 b0 = v ->
  header_fields v (b0 :: tl) = Some f ->
  Z.land (cql_binary_frame_v3.flags f) 0x01 = 0 ->
  let c' := after_read v (cql_binary_frame_v3.length f) rest (_eof c)
              (_write_buf c) in
  (cql_binary_frame_v3.opcode f = opcode_code OPTIONS ->
   process_request parser_query c =
     (Ok tt,
      mk_connection v (_read_buf c') (_eof c')
        (_write_buf c ++ reply v (b0 :: tl) SUPPORTED supported_body))) /\
  (cql_binary_frame_v3.opcode f = opcode_code REGISTER ->
   process_request parser_query c =
     (Ok tt,
      mk_connection v (_read_buf c') (_eof c')
        (_write_buf c ++ reply v (b0 :: tl) READY []))).
Proof. apply options_register_step. Qed.

(** X11. STARTUP is answered with READY when its body starts with a
    well-formed string map (count and lengths below 2^15); bytes of the
    body after the map are ignored. It is answered with READY as well
    when the count of the map has its top bit set, whatever follows: the
    map is then read as empty. The frame written carries the stream id
    bytes of the request and an empty body. When the map announces an
    entry and the length of its first key has its top bit set, the
    string constructor throws [std::overflow_error]: the request ends
    with that exception and READY is not written. *)
Theorem startup_answered c v b0 tl rest f :
  1 <= v <= 4 -> _version c = 0 \/ _version c = v ->
  _read_buf c = (b0 :: tl) ++ rest ->
  u8 b0 = v ->
  header_fields v (b0 :: tl) = Some f ->
  Z.land (cql_binary_frame_v3.flags f) 0x01 = 0 ->
  cql_binary_frame_v3.opcode f = opcode_code STARTUP ->
  let body := take (Z.to_nat (cql_binary_frame_v3.length f)) rest in
  let c' := after_read v (cql_binary_frame_v3.length f) rest (_eof c)
              (_write_buf c) in
  (forall l extra,
      body = wire_string_map l ++ extra -> fits_int16 l ->
      process_request parser_query c =
        (Ok tt,
         mk_connection v (_read_buf c') (_eof c')
           (_write_buf c ++ reply v (b0 :: tl) READY []))) /\
  (forall n0 n1 extra,
      body = n0 :: n1 :: extra -> 128 <= u8 n0 ->
      process_request parser_query c =
        (Ok tt,
         mk_connection v (_read_buf c') (_eof c')
           (_write_buf c ++ reply v (b0 :: tl) READY []))) /\
  (forall n k0 k1 extra,
      body = big_endian 2 n ++ k0 :: k1 :: extra ->
      1 <= n < 32768 -> 128 <= u8 k0 ->
      process_request parser_query c = (Throw overflow_error, c')).
Proof.
  intros Hv Hc Hbuf Hb Hf Hflag Hop body c'.
  rewrite (process_request_header parser_query c v b0 tl rest f) by assumption.
  fold c' body. unfold process_request_body.
  rewrite Hflag. change (0 =? 0) with true. rewrite assert_true_bind. cbv zeta.
  rewrite Hop. cbn [opcode_code]. unfold process_startup.
  split; [|split].
  - intros l extra Hbody Hfit. rewrite Hbody.
    rewrite (bind_ok _ _ _ _ _
               (run_in_ok _ _ _ _ c' (read_string_map_wire l extra Hfit))).
    unfold write_ready, new_response.
    exact (write_response_reply c' v (b0 :: tl) f READY [] Hv eq_refl Hf).
  - intros n0 n1 extra Hbody Hn. rewrite Hbody.
    pose proof (i16_negative n0 n1 Hn) as Hneg.
    rewrite (bind_ok _ _ _ _ _
               (run_in_ok _ _ _ _ c'
                  (read_string_map_negative_count n0 n1 extra ltac:(lia)))).
    unfold write_ready, new_response.
    exact (write_response_reply c' v (b0 :: tl) f READY [] Hv eq_refl Hf).
  - intros n k0 k1 extra Hbody Hn Hk. rewrite Hbody. apply bind_throw.
    apply (run_in_throw _ _ _ extra).
    apply read_string_map_bad_key; assumption.
Qed.

(** X12. QUERY is never answered: whatever its body holds, the request
    leaves the output of the connection as it was. What the request does
    is decided by the body. When it starts with a long string (a
    four-byte length below 2^31 and that many bytes), the text is handed
    to the parser, and the request ends normally if the parser returns a
    statement and in a failed assertion if not. When the top bit of the
    four-byte length is set, the string constructor throws
    [std::overflow_error]. When the body has fewer than four bytes, or
    fewer bytes after the length than the length announces, the handler
    reads past the end of the body. *)
Theorem query_never_answered c v b0 tl rest f :
  1 <= v <= 4 -> _version c = 0 \/ _version c = v ->
  _read_buf c = (b0 :: tl) ++ rest ->
  u8 b0 = v ->
  header_fields v (b0 :: tl) = Some f ->
  Z.land (cql_binary_frame_v3.flags f) 0x01 = 0 ->
  cql_binary_frame_v3.opcode f = opcode_code QUERY ->
  let body := take (Z.to_nat (cql_binary_frame_v3.length f)) rest in
  let c' := after_read v (cql_binary_frame_v3.length f) rest (_eof c)
              (_write_buf c) in
  _write_buf (snd (process_request parser_query c)) = _write_buf c /\
  (forall q extra,
      body = big_endian 4 (size_of q) ++ q ++ extra ->
      size_of q < 2^31 ->
      process_request parser_query c =
        (if parser_query q then Ok tt else Abort, c')) /\
  (forall l0 l1 l2 l3 extra,
      body = l0 :: l1 :: l2 :: l3 :: extra -> 128 <= u8 l0 ->
      process_request parser_query c = (Throw overflow_error, c')) /\
  (forall l0 l1 l2 l3 extra,
      body = l0 :: l1 :: l2 :: l3 :: extra -> u8 l0 < 128 ->
      size_of extra < i32 (ntohl l0 l1 l2 l3) ->
      fst (process_request parser_query c) = Undefined) /\
  (size_of body < 4 -> fst (process_request parser_query c) = Undefined).
Proof.
  intros Hv Hc Hbuf Hb Hf Hflag Hop body c'.
  rewrite (process_request_header parser_query c v b0 tl rest f) by assumption.
  fold c' body. unfold process_request_body.
  rewrite Hflag. change (0 =? 0) with true. rewrite assert_true_bind. cbv zeta.
  rewrite Hop. cbn [opcode_code]. unfold process_query.
  split; [|split; [|split; [|split]]].
  - match goal with |- _write_buf (snd (?m c')) = _ =>
      assert (keeps _write_buf m) as Hk by keeps_tac end.
    rewrite Hk. reflexivity.
  - intros q extra Hbody Hq. rewrite Hbody.
    assert (size_of q < 2147483648) as Hq' by (change (2^31) with 2147483648 in Hq; lia).
    rewrite (bind_ok _ _ _ _ _
               (run_in_ok _ _ _ _ c' (read_long_string_wire q extra Hq'))).
    cbn [fst]. unfold bind, assert. destruct (parser_query q); reflexivity.
  - intros l0 l1 l2 l3 extra Hbody Hl. rewrite Hbody. apply bind_throw.
    apply (run_in_throw _ _ _ extra). apply read_long_string_negative.
    apply i32_negative. assumption.
  - intros l0 l1 l2 l3 extra Hbody Hl Hshort. rewrite Hbody.
    assert (0 <= i32 (ntohl l0 l1 l2 l3)) as Hpos.
    { rewrite ntohl_eq. pose proof (u8_range l0). pose proof (u8_range l1).
      pose proof (u8_range l2). pose proof (u8_range l3).
      rewrite i32_small; lia. }
    erewrite bind_undefined; [reflexivity|].
    apply (run_in_undefined _ _ extra).
    apply read_long_string_short_body; assumption.
  - intros Hshort. erewrite bind_undefined; [reflexivity|].
    apply (run_in_undefined _ _ body).
    unfold size_of in Hshort.
    do 4 (try destruct body as [|? body]; cbn [length] in Hshort; try lia);
      reflexivity.
Qed.

(** X13. A frame whose opcode is none of STARTUP, OPTIONS, QUERY, PREPARE,
    EXECUTE, REGISTER, BATCH and AUTH_RESPONSE, for instance an opcode
    that only responses carry, ends the request in the failed assertion
    of the [default] branch once its body has been read; nothing is
    written. *)
Theorem unknown_opcode_aborts c v b0 tl rest f :
  1 <= v <= 4 -> _version c = 0 \/ _version c = v ->
  _read_buf c = (b0 :: tl) ++ rest ->
  u8 b0 = v ->
  header_fields v (b0 :: tl) = Some f ->
  Z.land (cql_binary_frame_v3.flags f) 0x01 = 0 ->
  cql_binary_frame_v3.opcode f ∉ [1; 5; 7; 9; 10; 11; 13; 15] ->
  process_request parser_query c =
    (Abort,
     after_read v (cql_binary_frame_v3.length f) rest (_eof c) (_write_buf c)).
Proof.
  intros Hv Hc Hbuf Hb Hf Hflag Hop.
  rewrite (process_request_header parser_query c v b0 tl rest f) by assumption.
  unfold process_request_body.
  rewrite Hflag. change (0 =? 0) with true. rewrite assert_true_bind. cbv zeta.
  destruct (cql_binary_frame_v3.opcode f) as [|p|p]; try reflexivity.
  do 4 (try destruct p as [p|p|]); try reflexivity;
    exfalso; apply Hop; apply (bool_decide_unpack _); vm_compute; exact I.
Qed.

End Answers.

Lemma options_register_answered_witness :
  process_request (fun _ => true)
    (mk_connection 1 [1; 0; 200; 11; 0; 0; 0; 4; 9; 9] false [])
  = (Ok tt, mk_connection 1 [] true [129; 0; 200; 2; 0; 0; 0; 0]).
Proof.
  destruct (options_register_answered (fun _ => true)
              (mk_connection 1 [1; 0; 200; 11; 0; 0; 0; 4; 9; 9] false [])
              1 1 [0; 200; 11; 0; 0; 0; 4] [9; 9]
              (cql_binary_frame_v3.mk 1 0 200 11 4))
    as [_ H];
    [lia | right; reflexivity | reflexivity | reflexivity | reflexivity
    | reflexivity |].
  rewrite H; reflexivity.
Defined.

Lemma startup_answered_witness :
  process_request (fun _ => true)
    (new_connection
       ([2; 0; 1; 1; 0; 0; 0; 22]
        ++ wire_string_map [(lit "CQL_VERSION", lit "3.0.0")]))
  = (Ok tt, mk_connection 2 [] false [130; 0; 1; 2; 0; 0; 0; 0]).
Proof.
  destruct (startup_answered (fun _ => true)
              (new_connection
                 ([2; 0; 1; 1; 0; 0; 0; 22]
                  ++ wire_string_map [(lit "CQL_VERSION", lit "3.0.0")]))
              2 2 [0; 1; 1; 0; 0; 0; 22]
              (wire_string_map [(lit "CQL_VERSION", lit "3.0.0")])
              (cql_binary_frame_v3.mk 2 0 1 1 22))
    as [H _];
    [lia | left; reflexivity | reflexivity | reflexivity | reflexivity
    | reflexivity | reflexivity |].
  rewrite (H [(lit "CQL_VERSION", lit "3.0.0")] []); [reflexivity | reflexivity |].
  split; [vm_compute; reflexivity|]. repeat constructor; vm_compute; reflexivity.
Defined.

Lemma query_never_answered_witness :
  process_request (fun q => bool_decide (q = lit "use x"))
    (mk_connection 4 ([4; 0; 0; 9; 7; 0; 0; 0; 9; 0; 0; 0; 5] ++ lit "use x")
       false [1])
  = (Ok tt, mk_connection 4 [] false [1]).
Proof.
  destruct (query_never_answered (fun q => bool_decide (q = lit "use x"))
              (mk_connection 4
                 ([4; 0; 0; 9; 7; 0; 0; 0; 9; 0; 0; 0; 5] ++ lit "use x")
                 false [1])
              4 4 [0; 0; 9; 7; 0; 0; 0; 9] ([0; 0; 0; 5] ++ lit "use x")
              (cql_binary_frame_v3.mk 4 0 9 7 9))
    as (_ & H & _);
    [lia | right; reflexivity | reflexivity | reflexivity | reflexivity
    | reflexivity | reflexivity |].
  rewrite (H (lit "use x") []); [reflexivity | reflexivity |].
  vm_compute. reflexivity.
Defined.

Lemma unknown_opcode_aborts_witness :
  process_request (fun _ => true)
    (mk_connection 3 [3; 0; 0; 1; 2; 0; 0; 0; 0] false [])
  = (Abort, mk_connection 3 [] false []).
Proof.
  rewrite (unknown_opcode_aborts (fun _ => true)
             (mk_connection 3 [3; 0; 0; 1; 2; 0; 0; 0; 0] false [])
             3 3 [0; 0; 1; 2; 0; 0; 0; 0] []
             (cql_binary_frame_v3.mk 3 0 1 2 0));
    [reflexivity | lia | right; reflexivity | reflexivity | reflexivity
    | reflexivity | reflexivity |].
  intros H. apply (bool_decide_pack _) in H. vm_compute in H. exact H.
Defined.

(** ** What a connection writes *)

Lemma emits_of_keeps {A} (m : M connection A) : keeps _write_buf m -> emits m.
Proof. intros H c. left. apply H. Qed.

Lemma emits_bind {A B} (m : M connection A) (k : A -> M connection B) :
  keeps _write_buf m -> (forall a, emits (k a)) -> emits (bind m k).
Proof.
  intros Hm Hk c. unfold bind. specialize (Hm c).
  destruct (m c) as [[a|e| |] c1]; cbn [snd fst] in *; try (left; assumption).
  rewrite <- Hm. apply Hk.
Qed.

Lemma emits_write_response r :
  _opcode r = READY \/ _opcode r = SUPPORTED -> emits (write_response r).
Proof.
  intros Hop c. unfold write_response, bind, get_version, run_in.
  destruct (make_message (_version c) r) as [[msg|e| |] r'] eqn:E;
    cbn [snd]; try (left; reflexivity).
  right. exists tt, msg. cbn [fst snd write_flush _write_buf _version].
  split; [reflexivity|]. split; [reflexivity|].
  exists r. split; [assumption|]. rewrite E. reflexivity.
Qed.

Lemma answer_opcode v out :
  answer v out ->
  1 <= v <= 4 /\
  out !! 0%nat = Some (v + 128) /\
  (out !! (if v <? 3 then 3%nat else 4%nat) = Some (opcode_code READY) \/
   out !! (if v <? 3 then 3%nat else 4%nat) = Some (opcode_code SUPPORTED)).
Proof.
  intros (r & Hop & Hm). unfold make_message, bind in Hm.
  destruct (decide (1 <= v <= 4)) as [Hv|Hv].
  - split; [assumption|]. destruct r as [s op body]. cbn [_opcode _body] in *.
    case_version v; cbn in Hm; inversion Hm; subst out;
      (split; [reflexivity|]); destruct Hop as [-> | ->]; cbn; auto.
  - exfalso. unfold make_frame in Hm.
    destruct v as [|p|p]; try discriminate.
    do 3 (try destruct p as [p|p|]; try discriminate); lia.
Qed.

Section Output.

Variable parser_query : sstring -> bool.

Lemma emits_write_supported stream : emits (write_supported stream).
Proof.
  intros c. unfold write_supported. cbv zeta.
  rewrite (bind_ok _ _ _ _ _
             (run_in_ok _ _ _ _ c (write_supported_body stream))).
  cbn [snd]. apply emits_write_response. right. reflexivity.
Qed.

Lemma emits_write_ready stream : emits (write_ready stream).
Proof. apply emits_write_response. left. reflexivity. Qed.

Lemma emits_process_request_body f buf :
  emits (process_request_body parser_query f buf).
Proof.
  unfold process_request_body.
  apply emits_bind; [auto with keeps|]. intros _. cbv zeta.
  destruct (cql_binary_frame_v3.opcode f) as [|p|p];
    [ | do 4 (try destruct p as [p|p|]) | ];
    unfold process_query, process_batch, process_options, process_prepare,
      process_register, process_auth_response, process_execute,
      process_startup;
    lazymatch goal with
    | |- emits (write_supported _) => apply emits_write_supported
    | |- emits (write_ready _) => apply emits_write_ready
    | |- emits (bind _ (fun _ => write_ready _)) =>
        apply emits_bind; [solve [auto with keeps]|]; intros ?;
        apply emits_write_ready
    | |- _ => apply emits_of_keeps; keeps_tac
    end.
Qed.

Lemma emits_process_request : emits (process_request parser_query).
Proof.
  unfold process_request.
  apply emits_bind; [apply keeps_read_frame_output|]. intros [f|].
  - apply emits_bind; [auto with keeps|]. intros buf.
    apply emits_process_request_body.
  - apply emits_of_keeps. auto with keeps.
Qed.

Lemma process_loop_output fuel c o c' :
  process_loop parser_query fuel c = Some (o, c') ->
  exists outs,
    _write_buf c' = _write_buf c ++ concat outs /\
    Forall (fun out => exists v, answer v out) outs.
Proof.
  revert c. induction fuel as [|fuel IH]; intros c; cbn [process_loop];
    destruct (_eof c).
  1, 3: intros H; inversion H; subst; exists [];
        rewrite app_nil_r; split; [reflexivity | constructor].
  - discriminate.
  - pose proof (emits_process_request c) as He.
    destruct (process_request parser_query c) as [[[]|e| |] c1];
      cbn [fst snd] in He.
    + intros H. destruct (IH c1 H) as (outs & Hout & Hall).
      destruct He as [He|(a & out & _ & He & Ha)].
      * exists outs. rewrite Hout, He. split; [reflexivity | assumption].
      * exists (out :: outs). rewrite Hout, He. cbn [concat].
        rewrite app_assoc. split; [reflexivity|].
        constructor; [eexists; exact Ha | assumption].
    + intros H. inversion H; subst.
      destruct He as [He|(a & out & Hc & _)]; [|discriminate].
      exists []. rewrite app_nil_r. split; [assumption | constructor].
    + intros H. inversion H; subst.
      destruct He as [He|(a & out & Hc & _)]; [|discriminate].
      exists []. rewrite app_nil_r. split; [assumption | constructor].
    + intros H. inversion H; subst.
      destruct He as [He|(a & out & Hc & _)]; [|discriminate].
      exists []. rewrite app_nil_r. split; [assumption | constructor].
Qed.

(** X14. A connection writes nothing but READY and SUPPORTED frames. A
    request either leaves the output as it is or returns normally having
    appended exactly one frame assembled by [make_message] from a READY or
    a SUPPORTED response; the output of the whole loop is what was there
    before followed by such frames. Each of them starts with the version
    with bit 0x80 and carries opcode 2 or 6: no ERROR frame, nor any
    other, is ever sent, and nothing already written is changed. *)
Theorem only_ready_and_supported :
  (forall c,
      _write_buf (snd (process_request parser_query c)) = _write_buf c \/
      exists out,
        fst (process_request parser_query c) = Ok tt /\
        _write_buf (snd (process_request parser_query c)) = _write_buf c ++ out /\
        answer (_version (snd (process_request parser_query c))) out) /\
  (forall fuel c o c',
      process_loop parser_query fuel c = Some (o, c') ->
      exists outs,
        _write_buf c' = _write_buf c ++ concat outs /\
        Forall (fun out => exists v, answer v out) outs) /\
  (forall v out,
      answer v out ->
      1 <= v <= 4 /\
      out !! 0%nat = Some (v + 128) /\
      (out !! (if v <? 3 then 3%nat else 4%nat) = Some (opcode_code READY) \/
       out !! (if v <? 3 then 3%nat else 4%nat) = Some (opcode_code SUPPORTED))).
Proof.
  split; [|split].
  - intros c. destruct (emits_process_request c) as [H|(a & out & Ho & Hw & Ha)];
      [left; exact H|].
    right. exists out. destruct a. auto.
  - apply process_loop_output.
  - apply answer_opcode.
Qed.

End Output.

Lemma only_ready_and_supported_witness :
  exists outs,
    [131; 0; 0; 1; 2; 0; 0; 0; 0; 131; 0; 0; 2; 2; 0; 0; 0; 0]
    = [] ++ concat outs /\
    Forall (fun out => exists v, answer v out) outs.
Proof.
  destruct (only_ready_and_supported (fun _ => true)) as (_ & H & _).
  apply (H 3%nat
           (new_connection [3; 0; 0; 1; 11; 0; 0; 0; 0; 3; 0; 0; 2; 11; 0; 0; 0; 0])
           (Ok tt)
           (mk_connection 3 [] true
              [131; 0; 0; 1; 2; 0; 0; 0; 0; 131; 0; 0; 2; 2; 0; 0; 0; 0])).
  vm_compute. reflexivity.
Defined.

(** ** The ends of the input *)

Section Ends.

Variable parser_query : sstring -> bool.

Lemma process_request_at_end c :
  _read_buf c = [] ->
  process_request parser_query c =
    (Ok tt, mk_connection (_version c) [] true (_write_buf c)).
Proof.
  intros Hbuf. unfold process_request.
  assert (read_frame c
          = (Ok None, mk_connection (_version c) [] true (_write_buf c))) as Hrf.
  { unfold read_frame. rewrite (bind_ok _ _ c (_version c) c) by reflexivity.
    destruct (_version c =? 0).
    - unfold bind, read_exactly. rewrite Hbuf. cbn.
      rewrite orb_true_r. reflexivity.
    - rewrite (bind_ok _ _ _ _ _ (frame_size_eq c)).
      unfold bind, read_exactly. rewrite Hbuf, take_nil, drop_nil. cbn [ret].
      destruct (header_size_cases (_version c)) as [E|E]; rewrite E; cbn;
        rewrite orb_true_r; reflexivity. }
  rewrite (bind_ok _ _ _ _ _ Hrf). reflexivity.
Qed.

(** X15. The end of the stream between two frames ends a connection
    normally. When no input is left, on a fresh connection as on one that
    has a version, the request returns without a frame, [eof()] is raised,
    nothing is written and the version is unchanged; the loop then stops
    with a normal result. *)
Theorem end_of_stream_is_clean c :
  _read_buf c = [] -> _eof c = false ->
  let c' := mk_connection (_version c) [] true (_write_buf c) in
  process_request parser_query c = (Ok tt, c') /\
  process parser_query c = Some (Ok tt, c').
Proof.
  intros Hbuf Heof c'. split; [apply process_request_at_end; assumption|].
  unfold process. rewrite Hbuf. cbn [length process_loop].
  rewrite Heof, (process_request_at_end c Hbuf). reflexivity.
Qed.

(** X16. A first byte outside 1..4 is refused. On a connection without a
    version, the byte is stored as the version of the connection before it
    is checked, [bad_cql_protocol_version] is thrown, nothing more is read
    and nothing is written; the loop ends with that error. A version byte
    that carries the response bit 0x80 is such a byte. *)
Theorem bad_first_byte_refused c b rest :
  _version c = 0 -> _eof c = false ->
  _read_buf c = b :: rest ->
  ~ (1 <= u8 b <= 4) ->
  let c' := mk_connection (u8 b) rest false (_write_buf c) in
  process_request parser_query c = (Throw bad_cql_protocol_version, c') /\
  process parser_query c = Some (Throw bad_cql_protocol_version, c').
Proof.
  intros H0 Heof Hbuf Hb c'.
  assert (process_request parser_query c
          = (Throw bad_cql_protocol_version, c')) as Hreq.
  { unfold process_request. apply bind_throw.
    rewrite (read_frame_first_bad c b rest H0 Hbuf Hb), Heof. reflexivity. }
  split; [exact Hreq|].
  apply process_failure; [assumption..|discriminate].
Qed.

(** X17. A header cut short on a fresh connection is not refused as
    truncated. When the first byte is a version in 1..4 and fewer bytes
    follow than the rest of the header, the version is stored, the bytes
    that did arrive are copied into a buffer of the full header size and
    [parse_frame] is given that buffer: its size check passes and the
    header is decoded from bytes that were never written. *)
Theorem truncated_header c b tl :
  _version c = 0 ->
  _read_buf c = b :: tl ->
  1 <= u8 b <= 4 ->
  size_of (b :: tl) < header_size (u8 b) ->
  fst (read_frame c) = Undefined /\
  _version (snd (read_frame c)) = u8 b /\
  fst (process_request parser_query c) = Undefined.
Proof.
  intros H0 Hbuf Hb Hsz.
  assert (exists c', read_frame c = (Undefined, c') /\ _version c' = u8 b)
    as (c' & Hrf & Hver).
  { eexists. unfold read_frame.
    rewrite (bind_ok _ _ c (_version c) c) by reflexivity.
    rewrite H0. change (0 =? 0) with true. cbv beta iota.
    rewrite (bind_ok _ _ _ _ _ (read_exactly_app 1 [b] tl c Hbuf eq_refl)).
    set (c1 := mk_connection (_version c) tl (_eof c) (_write_buf c)).
    set (c2 := mk_connection (u8 b) tl (_eof c) (_write_buf c)).
    rewrite (bind_ok _ _ c1 tt c2) by reflexivity.
    rewrite (bind_ok _ _ c2 (u8 b) c2) by reflexivity.
    destruct (Z.ltb_spec (u8 b) 1); [lia|].
    destruct (Z.ltb_spec 4 (u8 b)); [lia|]. cbn [orb].
    rewrite (bind_ok _ _ _ _ _ (frame_size_eq c2)). cbn [_version c2].
    unfold bind at 1, read_exactly at 1. cbn [_read_buf _version _eof _write_buf c2].
    rewrite size_of_cons in Hsz.
    assert (length tl <= Z.to_nat (header_size (u8 b) - 1))%nat as Hle
      by (unfold size_of in Hsz; lia).
    rewrite take_ge, drop_ge by exact Hle.
    destruct (Z.ltb_spec (size_of tl) (header_size (u8 b) - 1)); [|lia].
    split; reflexivity. }
  rewrite Hrf. cbn [fst snd]. split; [reflexivity|]. split; [exact Hver|].
  unfold process_request. erewrite bind_undefined; [reflexivity | exact Hrf].
Qed.

Lemma process_loop_ok_eof fuel c c' :
  process_loop parser_query fuel c = Some (Ok tt, c') -> _eof c' = true.
Proof.
  revert c. induction fuel as [|fuel IH]; intros c; cbn [process_loop];
    destruct (_eof c) eqn:E; try discriminate.
  1, 2: intros H; inversion H; subst; assumption.
  destruct (process_request parser_query c) as [[[]|e| |] c1]; try discriminate.
  apply IH.
Qed.

Lemma process_loop_progress fuel c o c' :
  process_loop parser_query fuel c = Some (o, c') -> progress c c'.
Proof.
  revert c. induction fuel as [|fuel IH]; intros c; cbn [process_loop];
    destruct (_eof c) eqn:E; try discriminate.
  1, 2: intros H; inversion H; subst; apply progress_refl.
  assert (progress c (snd (process_request parser_query c))) as Hp.
  { assert (advancing (process_request parser_query)) as Hadv.
    { unfold process_request.
      apply advancing_bind; [apply advancing_read_frame|]. intros [f|].
      - apply advancing_bind; [auto with keeps|]. intros buf.
        apply advancing_process_request_body.
      - auto with keeps. }
    apply Hadv. }
  destruct (process_request parser_query c) as [[[]|e| |] c1]; cbn [snd] in Hp;
    intros H; try (inversion H; subst; assumption).
  eapply progress_trans; [exact Hp | apply IH; exact H].
Qed.

(** X18. The loop of a connection always ends, whatever bytes the peer
    sends: with the number of requests that [process] allows, one per
    unread byte and one more, [do_until] reaches its end. It ends normally
    only with [eof()] raised, and it never leaves more input unread than
    it found. *)
Theorem process_always_ends c :
  exists o c',
    process parser_query c = Some (o, c') /\
    (o = Ok tt -> _eof c' = true) /\
    (length (_read_buf c') <= length (_read_buf c))%nat.
Proof.
  destruct (process_terminates parser_query c) as [[o c'] H].
  exists o, c'. split; [exact H|]. split.
  - intros ->. eapply process_loop_ok_eof. exact H.
  - apply (process_loop_progress _ _ _ _ H).
Qed.

End Ends.

Lemma end_of_stream_is_clean_witness :
  process (fun _ => true) (mk_connection 2 [] false [1; 2; 3])
  = Some (Ok tt, mk_connection 2 [] true [1; 2; 3]).
Proof.
  apply (end_of_stream_is_clean (fun _ => true)
           (mk_connection 2 [] false [1; 2; 3])); reflexivity.
Defined.

Lemma bad_first_byte_refused_witness :
  process (fun _ => true) (new_connection [129; 0; 0; 2; 0; 0; 0; 0])
  = Some (Throw bad_cql_protocol_version,
          mk_connection 129 [0; 0; 2; 0; 0; 0; 0] false []).
Proof.
  apply (bad_first_byte_refused (fun _ => true)
           (new_connection [129; 0; 0; 2; 0; 0; 0; 0]) 129
           [0; 0; 2; 0; 0; 0; 0]);
    [reflexivity | reflexivity | reflexivity |].
  change (u8 129) with 129. lia.
Defined.

Lemma truncated_header_witness :
  fst (read_frame (new_connection [3; 0; 0; 7])) = Undefined /\
  _version (snd (read_frame (new_connection [3; 0; 0; 7]))) = 3 /\
  fst (process_request (fun _ => true) (new_connection [3; 0; 0; 7]))
  = Undefined.
Proof.
  apply (truncated_header (fun _ => true) (new_connection [3; 0; 0; 7])
           3 [0; 0; 7]);
    [reflexivity | reflexivity | change (u8 3) with 3; lia | reflexivity].
Defined.

(** ** A sequence of requests *)

Lemma header_fields_request v rq :
  1 <= v <= 4 -> request_ok v rq ->
  exists tl f,
    request_header v rq = v :: tl /\
    header_fields v (v :: tl) = Some f /\
    cql_binary_frame_v3.flags f = 0 /\
    cql_binary_frame_v3.opcode f
      = opcode_code (if rq_options rq then OPTIONS else REGISTER) /\
    cql_binary_frame_v3.length f = size_of (rq_body rq).
Proof.
  intros Hv (Hst & Hlen). destruct rq as [o st body].
  cbn [rq_options rq_stream rq_body] in *. unfold request_header.
  cbn [rq_options rq_stream rq_body].
  destruct (htonl_inv (size_of body)) as (l0 & l1 & l2 & l3 & Hl & Hn).
  rewrite u32_small in Hn by (pose proof (size_of_nonneg body); lia).
  rewrite <- htonl_big_endian, Hl. unfold size_of in Hst.
  case_version v; cbn [Z.ltb Z.compare Pos.compare Pos.compare_cont] in Hst;
    do 3 (try destruct st as [|? st]; cbn [length] in Hst; try lia);
    cbn [app]; (eexists; eexists; split; [reflexivity|]);
    unfold header_fields, ntoh_v1, ntoh_v3;
    cbn [Z.ltb Z.compare Pos.compare Pos.compare_cont];
    (split; [reflexivity|]);
    cbn [cql_binary_frame_v3.flags cql_binary_frame_v3.opcode
         cql_binary_frame_v3.length];
    (split; [reflexivity|]); (split; [destruct o; reflexivity | exact Hn]).
Qed.

Section Pipeline.

Variable parser_query : sstring -> bool.

Lemma simple_request_step c v rq rest :
  1 <= v <= 4 -> request_ok v rq ->
  _version c = 0 \/ _version c = v ->
  _read_buf c = request_bytes v rq ++ rest ->
  process_request parser_query c =
    (Ok tt,
     mk_connection v rest (_eof c) (_write_buf c ++ answer_bytes v rq)).
Proof.
  intros Hv Hok Hc Hbuf.
  destruct (header_fields_request v rq Hv Hok) as (tl & f & Hh & Hf & Hfl & Hop & Hlen).
  unfold request_bytes in Hbuf. rewrite <- app_assoc, Hh in Hbuf.
  assert (u8 v = v) as Hb by (apply u8_small; lia).
  assert (Z.land (cql_binary_frame_v3.flags f) 1 = 0) as Hflag
    by (rewrite Hfl; reflexivity).
  destruct (options_register_step parser_query c v v tl (rq_body rq ++ rest) f
              Hv Hc Hbuf Hb Hf Hflag) as [Hopt Hreg].
  assert (after_read v (cql_binary_frame_v3.length f) (rq_body rq ++ rest)
            (_eof c) (_write_buf c)
          = mk_connection v rest (_eof c) (_write_buf c)) as Hafter.
  { unfold after_read. rewrite Hlen.
    assert (Z.to_nat (size_of (rq_body rq)) = length (rq_body rq)) as ->
      by (unfold size_of; lia).
    rewrite drop_app_length.
    destruct (Z.ltb_spec (size_of (rq_body rq ++ rest)) (size_of (rq_body rq)))
      as [Hlt|_].
    - rewrite size_of_app in Hlt. pose proof (size_of_nonneg rest). lia.
    - rewrite orb_false_r. reflexivity. }
  rewrite Hafter in Hopt, Hreg. cbn [_read_buf _eof] in Hopt, Hreg.
  unfold answer_bytes. rewrite Hh.
  destruct (rq_options rq); [apply Hopt | apply Hreg]; exact Hop.
Qed.

Lemma request_bytes_length v rq :
  (0 < length (request_bytes v rq))%nat.
Proof. unfold request_bytes, request_header. cbn [app length]. lia. Qed.

Lemma simple_requests_loop v rqs :
  1 <= v <= 4 -> Forall (request_ok v) rqs ->
  forall fuel c,
    _version c = 0 \/ _version c = v -> _eof c = false ->
    _read_buf c = flat_map (request_bytes v) rqs ->
    (length (_read_buf c) < fuel)%nat ->
    process_loop parser_query fuel c =
      Some (Ok tt,
            mk_connection (match rqs with [] => _version c | _ => v end) [] true
              (_write_buf c ++ flat_map (answer_bytes v) rqs)).
Proof.
  intros Hv Hall. induction Hall as [|rq rqs Hok Hall IH];
    intros fuel c Hc Heof Hbuf Hfuel.
  - cbn [flat_map] in *. destruct fuel as [|fuel]; [lia|].
    cbn [process_loop]. rewrite Heof, (process_request_at_end _ c Hbuf).
    destruct fuel; cbn [process_loop _eof]; rewrite app_nil_r; reflexivity.
  - cbn [flat_map] in *. destruct fuel as [|fuel]; [lia|].
    cbn [process_loop]. rewrite Heof.
    rewrite (simple_request_step c v rq _ Hv Hok Hc Hbuf).
    rewrite IH; cbn [_version _eof _read_buf _write_buf].
    + rewrite <- app_assoc. destruct rqs; reflexivity.
    + right. reflexivity.
    + assumption.
    + reflexivity.
    + rewrite Hbuf, length_app in Hfuel.
      pose proof (request_bytes_length v rq). lia.
Qed.

(** X19. Requests are answered one by one and in order. When the whole
    input of a fresh connection is a sequence of OPTIONS and REGISTER
    requests of one version in 1..4, with stream ids of the width of the
    version and bodies of any content, the connection locks to that
    version, writes for each request, in the order of the requests, the
    SUPPORTED or READY frame that carries its stream id, and ends normally
    at the end of the input with nothing else written. *)
Theorem requests_answered_in_order (v : Z) (rqs : list simple_request) :
  1 <= v <= 4 -> Forall (request_ok v) rqs ->
  process parser_query (new_connection (flat_map (request_bytes v) rqs)) =
    Some (Ok tt,
          mk_connection (match rqs with [] => 0 | _ => v end) [] true
            (flat_map (answer_bytes v) rqs)).
Proof.
  intros Hv Hall. unfold process.
  rewrite (simple_requests_loop v rqs Hv Hall); cbn [new_connection _version
    _eof _read_buf _write_buf app]; auto.
Qed.

End Pipeline.

Lemma requests_answered_in_order_witness :
  process (fun _ => true)
    (new_connection
       ([1; 0; 5; 11; 0; 0; 0; 2; 7; 7] ++ [1; 0; 6; 5; 0; 0; 0; 0]))
  = Some (Ok tt,
          mk_connection 1 [] true
            (reply 1 [1; 0; 5; 11; 0; 0; 0; 2] READY []
             ++ reply 1 [1; 0; 6; 5; 0; 0; 0; 0] SUPPORTED supported_body)).
Proof.
  pose proof (requests_answered_in_order (fun _ => true) 1
                [mk_simple_request false [5] [7; 7];
                 mk_simple_request true [6] []]) as H.
  cbn [flat_map request_bytes request_header answer_bytes rq_options
       rq_stream rq_body app] in H.
  rewrite app_nil_r in H. apply H; [lia|].
  repeat constructor; vm_compute; (reflexivity || discriminate).
Defined.
